(** * gridplayer.geo.parse_sei: bit reader, TS demuxer and 6DOF SEI decoder

    A shallow embedding of [src/gridplayer/geo/parse_sei.py].  Python
    integers are unbounded, so they are [Z]; a [bytes] object is a
    [list byte]; an exception is the [Raise] branch of [res]; the mutable
    [BitReader] object is threaded explicitly through every call. *)

From Stdlib Require Import ZArith List Bool Lia.
From Stdlib.Strings Require Import Byte String Ascii.
Import ListNotations.
Local Open Scope Z_scope.

(** ** Python results *)

Inductive exn : Type :=
| ValueError   (* negative shift count *)
| IndexError   (* index out of range *)
| LoopBound.   (* bound of a modelled loop exhausted; shown unreachable *)

Inductive res (A : Type) : Type :=
| Ok (a : A)
| Raise (e : exn).
Arguments Ok {A} a.
Arguments Raise {A} e.

Definition bind {A B} (m : res A) (k : A -> res B) : res B :=
  match m with
  | Ok a => k a
  | Raise e => Raise e
  end.

Notation "x <- m ;; k" := (bind m (fun x => k))
  (at level 61, m at next level, right associativity).
Notation "' p <- m ;; k" := (bind m (fun p => k))
  (at level 61, p pattern, m at next level, right associativity).

Definition returns {A} (m : res A) : bool :=
  match m with Ok _ => true | Raise _ => false end.

(** ** Python primitives on integers and byte strings *)

Definition byte_val (b : byte) : Z := Z.of_N (Byte.to_N b).

(** [x >> k] and [x << k] raise [ValueError] on a negative count. *)
Definition py_rshift (x k : Z) : res Z :=
  if k <? 0 then Raise ValueError else Ok (Z.shiftr x k).

Definition py_lshift (x k : Z) : res Z :=
  if k <? 0 then Raise ValueError else Ok (Z.shiftl x k).

Definition len {A} (l : list A) : Z := Z.of_nat (List.length l).

(** [s[i]]: a negative index counts from the end; out of range raises. *)
Definition py_index (s : list byte) (i : Z) : res Z :=
  let j := if i <? 0 then i + len s else i in
  if (j <? 0) || (len s <=? j) then Raise IndexError
  else match nth_error s (Z.to_nat j) with
       | Some b => Ok (byte_val b)
       | None => Raise IndexError
       end.

(** [s[i:j]] and [s[i:]] for [0 <= i]; slices never raise. *)
Definition py_slice (s : list byte) (i j : Z) : list byte :=
  firstn (Z.to_nat (j - i)) (skipn (Z.to_nat i) s).

Definition py_slice_from (s : list byte) (i : Z) : list byte :=
  skipn (Z.to_nat i) s.

(** ** BitReader *)

Definition MAX_UVLC_LEADING_ZEROS : Z := 20.
Definition UVLC_ERROR : Z := -99999.

Record BitReader : Type := mkBitReader {
  data : list byte;
  bytes_remaining : Z;
  byte_pos : Z;
  bit_pos : Z;
  nextbits : Z;
  nextbits_cnt : Z
}.

(** One pass of the body of the [while] loop of [refill]. *)
Definition refill_body (r : BitReader) : res BitReader :=
  new_byte <- py_index (data r) (byte_pos r) ;;
  Ok {| data := data r;
        bytes_remaining := bytes_remaining r - 1;
        byte_pos := byte_pos r + 1;
        bit_pos := bit_pos r;
        nextbits := Z.lor (Z.shiftl (nextbits r) 8) new_byte;
        nextbits_cnt := nextbits_cnt r + 8 |}.

Definition refill_cond (r : BitReader) : bool :=
  (nextbits_cnt r <=? 56) && (0 <? bytes_remaining r).

(** The loop runs at most [bytes_remaining] times, which is its fuel. *)
Fixpoint refill_loop (fuel : nat) (r : BitReader) : res BitReader :=
  match fuel with
  | O => Ok r
  | S f =>
      if refill_cond r then r' <- refill_body r ;; refill_loop f r'
      else Ok r
  end.

Definition refill (r : BitReader) : res BitReader :=
  refill_loop (Z.to_nat (bytes_remaining r)) r.

(** [BitReader(buffer)] *)
Definition BitReader_init (buffer : list byte) : res BitReader :=
  refill {| data := buffer;
            bytes_remaining := len buffer;
            byte_pos := 0;
            bit_pos := 0;
            nextbits := 0;
            nextbits_cnt := 0 |}.

Definition refill_if_short (n : Z) (r : BitReader) : res BitReader :=
  if nextbits_cnt r <? n then refill r else Ok r.

Definition get_bits (n : Z) (r : BitReader) : res (Z * BitReader) :=
  r1 <- refill_if_short n r ;;
  sh <- py_rshift (nextbits r1) (nextbits_cnt r1 - n) ;;
  one <- py_lshift 1 n ;;
  let val := Z.land sh (one - 1) in
  let cnt := nextbits_cnt r1 - n in
  one' <- py_lshift 1 cnt ;;
  Ok (val, {| data := data r1;
              bytes_remaining := bytes_remaining r1;
              byte_pos := byte_pos r1;
              bit_pos := bit_pos r1;
              nextbits := Z.land (nextbits r1) (one' - 1);
              nextbits_cnt := cnt |}).

Definition peek_bits (n : Z) (r : BitReader) : res (Z * BitReader) :=
  r1 <- refill_if_short n r ;;
  sh <- py_rshift (nextbits r1) (nextbits_cnt r1 - n) ;;
  one <- py_lshift 1 n ;;
  Ok (Z.land sh (one - 1), r1).

(** How the [while] loop of [get_uvlc] is left. *)
Inductive uvlc_exit : Type :=
| ReturnError            (* [return UVLC_ERROR] from inside the loop *)
| Break (num_zeros : Z). (* the loop condition failed *)

(** The loop of [get_uvlc]; [left] bounds the remaining iterations: the
    counter check returns once [num_zeros] exceeds the maximum. *)
Fixpoint uvlc_zeros (left : nat) (num_zeros : Z) (r : BitReader)
  : res (uvlc_exit * BitReader) :=
  '(b, r1) <- get_bits 1 r ;;
  if b =? 0 then
    let num_zeros' := num_zeros + 1 in
    if MAX_UVLC_LEADING_ZEROS <? num_zeros' then Ok (ReturnError, r1)
    else match left with
         | O => Raise LoopBound
         | S l => uvlc_zeros l num_zeros' r1
         end
  else Ok (Break num_zeros, r1).

Definition get_uvlc (r : BitReader) : res (Z * BitReader) :=
  '(e, r1) <- uvlc_zeros (Z.to_nat MAX_UVLC_LEADING_ZEROS) 0 r ;;
  match e with
  | ReturnError => Ok (UVLC_ERROR, r1)
  | Break num_zeros =>
      '(offset, r2) <- (if 0 <? num_zeros then get_bits num_zeros r1
                        else Ok (0, r1)) ;;
      value <- (if 0 <? num_zeros then
                  one <- py_lshift 1 num_zeros ;; Ok (offset + one - 1)
                else Ok 0) ;;
      Ok (value, r2)
  end.

Definition get_svlc (r : BitReader) : res (Z * BitReader) :=
  '(v, r1) <- get_uvlc r ;;
  if (v =? 0) || (v =? UVLC_ERROR) then Ok (v, r1)
  else
    let negative := Z.land v 1 =? 0 in
    Ok (if negative then - (v / 2) else (v + 1) / 2, r1).

Definition skip_bits (n : Z) (r : BitReader) : res BitReader :=
  r1 <- refill_if_short n r ;;
  let cnt := nextbits_cnt r1 - n in
  one <- py_lshift 1 cnt ;;
  Ok {| data := data r1;
        bytes_remaining := bytes_remaining r1;
        byte_pos := byte_pos r1;
        bit_pos := bit_pos r1;
        nextbits := Z.land (nextbits r1) (one - 1);
        nextbits_cnt := cnt |}.

Definition skip_to_byte_boundary (r : BitReader) : res BitReader :=
  let nskip := nextbits_cnt r mod 8 in
  if 0 <? nskip then skip_bits nskip r else Ok r.

Definition prepare_for_CABAC (r : BitReader) : res BitReader :=
  r1 <- skip_to_byte_boundary r ;;
  let rewind := nextbits_cnt r1 / 8 in
  Ok {| data := data r1;
        bytes_remaining := bytes_remaining r1 + rewind;
        byte_pos := byte_pos r1 - rewind;
        bit_pos := bit_pos r1;
        nextbits := 0;
        nextbits_cnt := 0 |}.

(** The [while] loop of [check_rbsp_trailing_bits]; [fuel] bounds its
    passes, each of which reads one bit. *)
Fixpoint rbsp_zeros (fuel : nat) (r : BitReader) : res (bool * BitReader) :=
  if (0 <? nextbits_cnt r) || (0 <? bytes_remaining r) then
    match fuel with
    | O => Raise LoopBound
    | S f =>
        '(b, r1) <- get_bits 1 r ;;
        if negb (b =? 0) then Ok (false, r1) else rbsp_zeros f r1
    end
  else Ok (true, r).

Definition check_rbsp_trailing_bits (r : BitReader)
  : res (bool * BitReader) :=
  '(stop_bit, r1) <- get_bits 1 r ;;
  if negb (stop_bit =? 1) then Ok (false, r1)
  else rbsp_zeros (Z.to_nat (nextbits_cnt r1 + 8 * bytes_remaining r1)) r1.

(** ** SEI field decoder *)

Record FieldOfViewInfo : Type := mkFieldOfViewInfo {
  fov_id : Z;
  fov_x : Z;
  fov_y : Z;
  fov_width : Z;
  fov_height : Z
}.

(** The object of class [SEI_6DOF]; a field that [__init__] sets to
    [None] is an [option]. *)
Record SEI_6DOF : Type := mkSEI_6DOF {
  uuid_string : string;
  stitching_layout : option Z;
  camera_number : Z;
  camera_model : option Z;
  camera_resolution_x : Z;
  camera_resolution_y : Z;
  video_resolution_x : Z;
  video_resolution_y : Z;
  texture_padding_size : Z;
  background_texture_flag : Z;
  background_depth_flag : option Z;
  arrangement_flag : option Z;
  horizontal_half_fov : Z;
  texture_top_left_x : list Z;
  texture_top_left_y : list Z;
  texture_bottom_right_x : list Z;
  texture_bottom_right_y : list Z
}.

Definition extension_tag : string := "_6dof_extension_".

Definition is_valid (sei : SEI_6DOF) : bool :=
  String.eqb (uuid_string sei) extension_tag.

(** [chr c] for the code points [get_bits(8)] can return. *)
Definition chr (c : Z) : ascii := ascii_of_N (Z.to_N c).

(** [for _ in range(16): sei.uuid_string += chr(reader.get_bits(8))] *)
Fixpoint read_uuid (k : nat) (uuid : string) (r : BitReader)
  : res (string * BitReader) :=
  match k with
  | O => Ok (uuid, r)
  | S k' =>
      '(c, r1) <- get_bits 8 r ;;
      read_uuid k' (uuid ++ String (chr c) EmptyString)%string r1
  end.

(** One pass of the loop over the cameras. *)
Definition read_fov (fov_info_array : list FieldOfViewInfo) (r : BitReader)
  : res (list FieldOfViewInfo * BitReader) :=
  '(top_left_x, r) <- get_bits 16 r ;;
  '(_, r) <- get_bits 1 r ;;
  '(top_left_y, r) <- get_bits 16 r ;;
  '(_, r) <- get_bits 1 r ;;
  '(bottom_right_x, r) <- get_bits 16 r ;;
  '(_, r) <- get_bits 1 r ;;
  '(bottom_right_y, r) <- get_bits 16 r ;;
  '(_, r) <- get_bits 1 r ;;
  '(_, r) <- get_bits 4 r ;;
  Ok (fov_info_array ++
        [ {| fov_id := len fov_info_array + 1;
             fov_x := top_left_x;
             fov_y := top_left_y;
             fov_width := bottom_right_x - top_left_x;
             fov_height := bottom_right_y - top_left_y |} ], r).

Fixpoint read_fovs (k : nat) (fov_info_array : list FieldOfViewInfo)
  (r : BitReader) : res (list FieldOfViewInfo * BitReader) :=
  match k with
  | O => Ok (fov_info_array, r)
  | S k' =>
      '(arr, r1) <- read_fov fov_info_array r ;;
      read_fovs k' arr r1
  end.

(** The part of [read_sei_6dof] after the tag check.  The object [sei]
    is local until it is returned, so its field assignments are gathered
    into the record built at the end; the reads happen in the order of
    the source. *)
Definition read_sei_fields (uuid : string) (r : BitReader)
  : res (option SEI_6DOF * list FieldOfViewInfo * BitReader) :=
  '(layout, r) <- get_bits 2 r ;;
  '(cam_number, r) <- get_bits 16 r ;;
  '(cam_model, r) <- get_bits 2 r ;;
  '(_, r) <- get_bits 1 r ;;
  '(cam_res_x, r) <- get_bits 16 r ;;
  '(_, r) <- get_bits 1 r ;;
  '(cam_res_y, r) <- get_bits 16 r ;;
  '(_, r) <- get_bits 1 r ;;
  '(vid_res_x, r) <- get_bits 16 r ;;
  '(_, r) <- get_bits 1 r ;;
  '(vid_res_y, r) <- get_bits 16 r ;;
  '(_, r) <- get_bits 1 r ;;
  '(padding, r) <- get_bits 8 r ;;
  '(bg_texture, r) <- get_bits 1 r ;;
  '(bg_depth, r) <- get_bits 1 r ;;
  '(_, r) <- get_bits 1 r ;;
  '(arrangement, r) <- get_bits 1 r ;;
  '(half_fov, r) <- get_bits 8 r ;;
  '(_, r) <- get_bits 3 r ;;
  '(fov_info_array, r) <- read_fovs (Z.to_nat cam_number) [] r ;;
  Ok (Some {| uuid_string := uuid;
              stitching_layout := Some layout;
              camera_number := cam_number;
              camera_model := Some cam_model;
              camera_resolution_x := cam_res_x;
              camera_resolution_y := cam_res_y;
              video_resolution_x := vid_res_x;
              video_resolution_y := vid_res_y;
              texture_padding_size := padding;
              background_texture_flag := bg_texture;
              background_depth_flag := Some bg_depth;
              arrangement_flag := Some arrangement;
              horizontal_half_fov := half_fov;
              texture_top_left_x := [];
              texture_top_left_y := [];
              texture_bottom_right_x := [];
              texture_bottom_right_y := [] |},
      fov_info_array, r).

(** [read_sei_6dof]: the tag, the check [sei.is_valid()], the fields. *)
Definition read_sei_6dof (r : BitReader)
  : res (option SEI_6DOF * list FieldOfViewInfo * BitReader) :=
  '(uuid, r) <- read_uuid 16 EmptyString r ;;
  if negb (String.eqb uuid extension_tag) then Ok (None, [], r)
  else read_sei_fields uuid r.

(** ** TS demuxer *)

Definition VIDEO_PID : Z := 0x100.
Definition TS_PACKET_SIZE : Z := 188.
Definition start_code : list byte := [x00; x00; x01].

Definition bytes_eqb (a b : list byte) : bool :=
  if list_eq_dec Byte.byte_eq_dec a b then true else false.

(** The 13-bit program identifier of a packet. *)
Definition packet_pid (packet : list byte) : res Z :=
  b1 <- py_index packet 1 ;;
  b2 <- py_index packet 2 ;;
  Ok (Z.lor (Z.shiftl (Z.land b1 0x1F) 8) b2).

(** The state of the loop of [extract_h265_nal_from_ts]. *)
Definition demux_state : Type := (list byte * bool)%type.

(** The body of the loop, for one [packet]; [continue] leaves the state
    as it is. *)
Definition demux_packet (st : demux_state) (packet : list byte)
  : res demux_state :=
  let '(nal_data, start_of_nal) := st in
  sync <- py_index packet 0 ;;
  if negb (sync =? 0x47) then Ok st
  else
    pid <- packet_pid packet ;;
    if negb (pid =? VIDEO_PID) then Ok st
    else
      b1 <- py_index packet 1 ;;
      let payload_unit_start := Z.land b1 0x40 in
      b3 <- py_index packet 3 ;;
      payload_start <-
        (if negb (Z.land b3 0x20 =? 0) then
           b4 <- py_index packet 4 ;; Ok (4 + (1 + b4))
         else Ok 4) ;;
      if TS_PACKET_SIZE <=? payload_start then Ok st
      else if negb (payload_unit_start =? 0) then
        let nal_data1 :=
          if start_of_nal then nal_data ++ start_code else nal_data in
        payload_start1 <-
          (if bytes_eqb (py_slice packet payload_start (payload_start + 3))
                        start_code
           then b <- py_index packet (payload_start + 8) ;;
                Ok (payload_start + (9 + Z.land b 0x0F))
           else Ok payload_start) ;;
        Ok (nal_data1 ++ py_slice_from packet payload_start1, true)
      else Ok (nal_data ++ py_slice_from packet payload_start, start_of_nal).

(** [range(0, stop, step)] for a positive [step]. *)
Definition py_range_step (stop step : Z) : list Z :=
  map (fun k => Z.of_nat k * step)
      (seq 0 (Z.to_nat ((stop + step - 1) / step))).

Fixpoint demux_loop (ts_stream : list byte) (idx : list Z) (st : demux_state)
  : res demux_state :=
  match idx with
  | [] => Ok st
  | i :: idx' =>
      st' <- demux_packet st (py_slice ts_stream i (i + TS_PACKET_SIZE)) ;;
      demux_loop ts_stream idx' st'
  end.

Definition extract_h265_nal_from_ts (ts_stream : list byte)
  : res (list byte) :=
  '(nal_data, _) <-
    demux_loop ts_stream (py_range_step (len ts_stream) TS_PACKET_SIZE)
               ([], false) ;;
  Ok nal_data.

(** ** Extension locator and pipeline *)

Fixpoint is_prefix (sub s : list byte) : bool :=
  match sub, s with
  | [], _ => true
  | a :: sub', b :: s' => Byte.eqb a b && is_prefix sub' s'
  | _ :: _, [] => false
  end.

(** [s.find(sub)] started at offset [i] of the original string. *)
Fixpoint bytes_find (sub s : list byte) (i : Z) : Z :=
  if is_prefix sub s then i
  else match s with
       | [] => -1
       | _ :: s' => bytes_find sub s' (i + 1)
       end.

Definition find_6dof_extension_in_nal (nal_data : list byte)
  : option (list byte) :=
  let idx := bytes_find (list_byte_of_string extension_tag) nal_data 0 in
  if idx =? -1 then None else Some (py_slice_from nal_data idx).

(** The dictionary built by [convert_to_json]. *)
Record sei_json : Type := mkSeiJson {
  j_is_valid : bool;
  j_sei : SEI_6DOF;
  j_fov_array : list FieldOfViewInfo
}.

Definition convert_to_json (sei : SEI_6DOF) (fov_array : list FieldOfViewInfo)
  : sei_json :=
  {| j_is_valid := is_valid sei; j_sei := sei; j_fov_array := fov_array |}.

(** The last stage of [process_ts_file]: a reader over the located slice
    and the field decoder. *)
Definition decode_extension (new_nal_data : list byte)
  : res (option sei_json) :=
  reader <- BitReader_init new_nal_data ;;
  '(sei_c, fov_info_array, _) <- read_sei_6dof reader ;;
  match sei_c with
  | None => Ok None
  | Some sei => Ok (Some (convert_to_json sei fov_info_array))
  end.

(** [process_ts_file], with its decoding stage as the argument [decode];
    the result stands for the text [json.dumps] renders from the
    dictionary, [None] for Python's [None]. *)
Definition process_ts_file_with
  (decode : list byte -> res (option sei_json)) (data : list byte)
  : res (option sei_json) :=
  nal_data <- extract_h265_nal_from_ts data ;;
  match nal_data with
  | [] => Ok None
  | _ :: _ =>
      match find_6dof_extension_in_nal nal_data with
      | None => Ok None
      | Some [] => Ok None
      | Some new_nal_data => decode new_nal_data
      end
  end.

Definition process_ts_file : list byte -> res (option sei_json) :=
  process_ts_file_with decode_extension.

(** ** Building concrete inputs *)

Definition byte_of (n : Z) : byte :=
  match Byte.of_N (Z.to_N n) with Some b => b | None => x00 end.

Definition bytes_of (l : list Z) : list byte := map byte_of l.

(** * gridplayer.geo.parse_sei: the dictionary and the dataclasses

    [convert_to_json] builds a dictionary of dictionaries and a list;
    [parse_video_data] passes such dictionaries as keyword arguments to
    the dataclasses [FOV] and [SEI]. *)

Module VideoData.

(** The Python values that occur: [None], booleans, integers, lists and
    dictionaries with string keys (in the order of insertion, each key
    once). *)
#[warnings="-register-all"]
Inductive json : Type :=
| JNone
| JBool (b : bool)
| JInt (z : Z)
| JList (l : list json)
| JDict (d : list (string * json)).

Inductive error : Type :=
| KeyError (key : string)
| TypeError.

Definition result (A : Type) : Type := (error + A)%type.

Definition and_then {A B} (m : result A) (k : A -> result B) : result B :=
  match m with
  | inr a => k a
  | inl e => inl e
  end.

Definition json_of_option (o : option Z) : json :=
  match o with
  | Some z => JInt z
  | None => JNone
  end.

(** The dictionary [convert_to_json] returns, key by key. *)
Definition dict_of (j : sei_json) : json :=
  let sei := j_sei j in
  JDict
    [ ("sei",
       JDict
         [ ("is_valid", JBool (j_is_valid j));
           ("stitching_layout", json_of_option (stitching_layout sei));
           ("camera_number", JInt (camera_number sei));
           ("camera_model", json_of_option (camera_model sei));
           ("camera_resolution_x", JInt (camera_resolution_x sei));
           ("camera_resolution_y", JInt (camera_resolution_y sei));
           ("video_resolution_x", JInt (video_resolution_x sei));
           ("video_resolution_y", JInt (video_resolution_y sei));
           ("texture_padding_size", JInt (texture_padding_size sei));
           ("background_texture_flag", JInt (background_texture_flag sei));
           ("background_depth_flag",
            json_of_option (background_depth_flag sei));
           ("arrangement_flag", json_of_option (arrangement_flag sei));
           ("horizontal_half_fov", JInt (horizontal_half_fov sei)) ]);
      ("fov_array",
       JList
         (map (fun fov =>
                 JDict [ ("id", JInt (fov_id fov));
                         ("x", JInt (fov_x fov));
                         ("y", JInt (fov_y fov));
                         ("width", JInt (fov_width fov));
                         ("height", JInt (fov_height fov)) ])
              (j_fov_array j))) ]%string.

(** The dataclasses; a dataclass does not check the types of its
    fields, so they hold whatever value is passed. *)
Record FOV : Type := mkFOV {
  id : json; x : json; y : json; width : json; height : json
}.

Record SEI : Type := mkSEI {
  is_valid : json;
  stitching_layout : json;
  camera_number : json;
  camera_model : json;
  camera_resolution_x : json;
  camera_resolution_y : json;
  video_resolution_x : json;
  video_resolution_y : json;
  texture_padding_size : json;
  background_texture_flag : json;
  background_depth_flag : json;
  arrangement_flag : json;
  horizontal_half_fov : json;
  fov_array : list FOV
}.

Record VideoData : Type := mkVideoData { sei : SEI }.

Fixpoint lookup (key : string) (d : list (string * json)) : option json :=
  match d with
  | [] => None
  | (k, v) :: d' => if String.eqb k key then Some v else lookup key d'
  end.

(** [d[key]] *)
Definition subscript (j : json) (key : string) : result json :=
  match j with
  | JDict d =>
      match lookup key d with
      | Some v => inr v
      | None => inl (KeyError key)
      end
  | _ => inl TypeError
  end.

Fixpoint all_results {A B} (f : A -> result B) (l : list A)
  : result (list B) :=
  match l with
  | [] => inr []
  | a :: l' =>
      and_then (f a) (fun b =>
      and_then (all_results f l') (fun bs => inr (b :: bs)))
  end.

(** A dictionary passed as keyword arguments to a dataclass with the
    parameters [fields]: a key that is no parameter and a parameter
    without key are [TypeError]s. *)
Definition keyword_arguments (fields : list string) (j : json)
  : result (list json) :=
  match j with
  | JDict d =>
      if forallb (fun kv => existsb (String.eqb (fst kv)) fields) d then
        all_results
          (fun f => match lookup f d with
                    | Some v => inr v
                    | None => inl TypeError
                    end)
          fields
      else inl TypeError
  | _ => inl TypeError
  end.

(** [FOV] called with the keyword arguments [fov]. *)
Definition new_FOV (fov : json) : result FOV :=
  and_then
    (keyword_arguments ["id"; "x"; "y"; "width"; "height"]%string fov)
    (fun args =>
       match args with
       | [a; b; c; d; e] => inr (mkFOV a b c d e)
       | _ => inl TypeError
       end).

(** [SEI] called with the keyword arguments [sei_dict] and
    [fov_array=fovs]; a key [fov_array] in [sei_dict] is a second value
    for that parameter, a [TypeError]. *)
Definition new_SEI (sei_dict : json) (fovs : list FOV) : result SEI :=
  and_then
    (keyword_arguments
       ["is_valid"; "stitching_layout"; "camera_number"; "camera_model";
        "camera_resolution_x"; "camera_resolution_y";
        "video_resolution_x"; "video_resolution_y";
        "texture_padding_size"; "background_texture_flag";
        "background_depth_flag"; "arrangement_flag";
        "horizontal_half_fov"]%string sei_dict)
    (fun args =>
       match args with
       | [a; b; c; d; e; f; g; h; i; j; k; l; m] =>
           inr (mkSEI a b c d e f g h i j k l m fovs)
       | _ => inl TypeError
       end).

(** The values a [for] loop over [j] visits; a dictionary yields its
    keys, which are strings and no value of [json], so only the empty
    one is iterated here. *)
Definition iterate (j : json) : result (list json) :=
  match j with
  | JList l => inr l
  | JDict [] => inr []
  | _ => inl TypeError
  end.

Definition parse_video_data (json_data : json) : result VideoData :=
  and_then (subscript json_data "fov_array") (fun fovs_json =>
  and_then (iterate fovs_json) (fun fov_dicts =>
  and_then (all_results new_FOV fov_dicts) (fun fovs =>
  and_then (subscript json_data "sei") (fun sei_dict =>
  and_then (new_SEI sei_dict fovs) (fun s =>
  inr (mkVideoData s)))))).

End VideoData.

(** * gridplayer.main.init_server: the status list

    The module-level list [GLOBAL_STATUS] of [src/gridplayer/main/
    init_server.py] is threaded through its three functions.  The
    values kept for a position and an offset are any Python values;
    the code only asks for their truth value. *)

Module InitServer.

Section Status.

(** The type of the values stored under ['current_pos'] and
    ['offset'], and Python's truth value of such a value. *)
Variable V : Type.
Variable truthy : V -> bool.

(** One dictionary of the list. *)
Record item : Type := mkItem {
  url : string;
  current_pos : V;
  offset : V
}.

Definition status : Type := list item.

(** [add_global_status(url, current_pos, offset)]; the default of
    [offset] is the caller's to supply. *)
Definition add_global_status (u : string) (pos off : V) (st : status)
  : status :=
  st ++ [ {| url := u; current_pos := pos; offset := off |} ].

(** [get_global_status(url)]: the first dictionary of that URL. *)
Fixpoint get_global_status (u : string) (st : status) : option item :=
  match st with
  | [] => None
  | it :: st' =>
      if String.eqb (url it) u then Some it else get_global_status u st'
  end.

(** The loop of [update_global_status]: [Some] of the list with the
    first dictionary of that URL updated, on its [return]; [None] when
    the loop ends without one. *)
Fixpoint update_first (u : string) (pos off : V) (st : status)
  : option status :=
  match st with
  | [] => None
  | it :: st' =>
      if String.eqb (url it) u then
        Some ({| url := url it;
                 current_pos := if truthy pos then pos else current_pos it;
                 offset := if truthy off then off else offset it |} :: st')
      else option_map (cons it) (update_first u pos off st')
  end.

Definition update_global_status (u : string) (pos off : V) (st : status)
  : status :=
  match update_first u pos off st with
  | Some st' => st'
  | None => add_global_status u pos off st
  end.

End Status.

Arguments mkItem {V} _ _ _.
Arguments url {V} _.
Arguments current_pos {V} _.
Arguments offset {V} _.
Arguments add_global_status {V} _ _ _ _.
Arguments get_global_status {V} _ _.
Arguments update_first {V} _ _ _ _ _.
Arguments update_global_status {V} _ _ _ _ _.

(** Python's truth value of [None] and of an integer. *)
Definition truthy_int (v : option Z) : bool :=
  match v with
  | None => false
  | Some z => negb (z =? 0)
  end.

End InitServer.

(** * gridplayer.params.languages *)

Module Languages.

Record LanguageAuthor : Type := mkAuthor {
  name : string;
  author_url : string
}.

Record Language : Type := mkLanguage {
  code : string;
  completion : Z;
  authors : list LanguageAuthor
}.

(** The tuple as it is written down. *)
Definition LANGUAGES_declared : list Language :=
  [ mkLanguage "en_US" 100 [];
    mkLanguage "ru_RU" 100 [];
    mkLanguage "hu_HU" 52
      [mkAuthor "samu112" "https://crowdin.com/profile/samu112"] ].

(** [sorted(..., key=lambda lng: lng.code)]: a stable sort, here by
    insertion behind the elements whose code is not greater. *)
Fixpoint insert_by_code (l : Language) (sorted : list Language)
  : list Language :=
  match sorted with
  | [] => [l]
  | h :: t =>
      if String.ltb (code l) (code h) then l :: h :: t
      else h :: insert_by_code l t
  end.

Definition sorted_by_code (ls : list Language) : list Language :=
  fold_left (fun acc l => insert_by_code l acc) ls [].

Definition LANGUAGES : list Language := sorted_by_code LANGUAGES_declared.

Definition author_names (l : Language) : list string :=
  map name (authors l).

(** [get_system_language], given what [QLocale().system().name()]
    returns. *)
Definition get_system_language (local_language_code : string) : string :=
  let language_codes := map code LANGUAGES in
  if existsb (String.eqb local_language_code) language_codes
  then local_language_code
  else "en_US".

End Languages.

(** * gridplayer.vlc_player.player_base: the callbacks of the player

    The callbacks of [VlcPlayerBase] that [init_event_manager]
    subscribes to libvlc events, with the methods they call, over the
    fields they read and write.  A method runs on the object: it
    returns or raises [AttributeError] on an attribute of [None], and
    either way leaves the object as it changed it so far.  The abstract
    [notify_] and [loopback_] methods, which subclasses define, are
    calls recorded in a trace; what the methods of the libvlc objects
    answer comes with the event; logging is left out. *)

Module PlayerBase.

Definition DEFAULT_FPS : Z := 25.

(** The libvlc objects [self._media] and [self._media_player].  What
    their methods answer is not fixed by the object: it comes with the
    event. *)
Inductive Media : Type := MediaObject.
Inductive MediaPlayer : Type := MediaPlayerObject.

(** The attributes of [MediaInput] the callbacks read and assign;
    [input_length] is its attribute [length]. *)
Record MediaInput : Type := mkMediaInput {
  is_live : bool;
  initial_time : Z;
  input_length : option Z
}.

(** The value of [fps]: the integer [DEFAULT_FPS], or the float of a
    true division, kept as its two operands. *)
Inductive FPS : Type :=
| IntFps (n : Z)
| TrueDiv (frame_rate_num frame_rate_den : Z).

Record MediaTrack : Type := mkMediaTrack {
  is_audio_only : bool;
  length : Z;
  video_dimensions : Z * Z;
  fps : FPS
}.

(** A track of [tracks_get()]: [t.u.video.contents] for a track with
    [t.type == vlc.TrackType.video]. *)
Record VideoTrack : Type := mkVideoTrack {
  width : Z;
  height : Z;
  frame_rate_num : Z;
  frame_rate_den : Z
}.

Inductive Track : Type :=
| Video (contents : VideoTrack)
| NotVideo.

(** [event.u.new_status] against [vlc.MediaParsedStatus]: [skipped],
    [done], or any other value (failed, timeout). *)
Inductive MediaParsedStatus : Type :=
| skipped
| done
| other_status.

Record player : Type := mkPlayer {
  is_video_initialized : bool;
  _is_paused : bool;
  media_input : option MediaInput;
  media_track : option MediaTrack;
  _media_player : option MediaPlayer;
  _media : option Media
}.

Inductive effect : Type :=
| NotifyError
| NotifyTimeChanged (new_time : Z)
| NotifyPlaybackStatusChanged (new_status : bool)
| NotifyEndReached
| LoopbackLoadVideoSt2SetParsedMedia.

Inductive result (A : Type) : Type :=
| Returned (a : A)
| AttributeError.

Arguments Returned {A} a.
Arguments AttributeError {A}.

(** A method: from the object to its result, the object as it leaves
    it, and the calls it made. *)
Definition method (A : Type) : Type :=
  player -> result A * player * list effect.

Definition ret {A : Type} (a : A) : method A :=
  fun p => (Returned a, p, []).

Definition and_then {A B : Type} (m : method A) (k : A -> method B)
  : method B :=
  fun p =>
    match m p with
    | (Returned a, p1, trace1) =>
        match k a p1 with
        | (r, p2, trace2) => (r, p2, trace1 ++ trace2)
        end
    | (AttributeError, p1, trace1) => (AttributeError, p1, trace1)
    end.

Notation "x <~ m ;; k" := (and_then m (fun x => k))
  (at level 61, m at next level, right associativity).
Notation "m ;;; k" := (and_then m (fun _ => k))
  (at level 61, right associativity).

(** [self]. *)
Definition self : method player := fun p => (Returned p, p, []).

(** An assignment to attributes of [self]. *)
Definition assign (update : player -> player) : method unit :=
  fun p => (Returned tt, update p, []).

(** A call of an abstract method. *)
Definition call (e : effect) : method unit :=
  fun p => (Returned tt, p, [e]).

(** [o.attribute], or an assignment to it, for [o] that may be
    [None]. *)
Definition not_None {A : Type} (o : option A) : method A :=
  fun p =>
    match o with
    | Some a => (Returned a, p, [])
    | None => (AttributeError, p, [])
    end.

Definition set_is_paused (b : bool) (p : player) : player :=
  {| is_video_initialized := is_video_initialized p;
     _is_paused := b;
     media_input := media_input p;
     media_track := media_track p;
     _media_player := _media_player p;
     _media := _media p |}.

Definition set_media_input (input : MediaInput) (p : player) : player :=
  {| is_video_initialized := is_video_initialized p;
     _is_paused := _is_paused p;
     media_input := Some input;
     media_track := media_track p;
     _media_player := _media_player p;
     _media := _media p |}.

Definition set_media_track (track : option MediaTrack) (p : player)
  : player :=
  {| is_video_initialized := is_video_initialized p;
     _is_paused := _is_paused p;
     media_input := media_input p;
     media_track := track;
     _media_player := _media_player p;
     _media := _media p |}.

(** [x] as a condition, for an integer [x]. *)
Definition truthy (x : Z) : bool := negb (x =? 0).

(** [self.error(message)] logs and calls [notify_error]. *)
Definition error : method unit := call NotifyError.

(** [_get_duration]; [media_duration] is what
    [self._media.get_duration()] answers. *)
Definition _get_duration (media_duration : Z) : method Z :=
  p <~ self ;;
  input <~ not_None (media_input p) ;;
  if is_live input then ret (-1)
  else
    not_None (_media p) ;;;
    ret (if truthy media_duration then media_duration else -1).

(** [cb_paused]; [player_time] is what [self._media_player.get_time()]
    answers in the comparison (the answer to its first call is only
    logged). *)
Definition cb_paused (media_duration player_time : Z) : method unit :=
  p <~ self ;;
  if negb (is_video_initialized p) then
    input <~ not_None (media_input p) ;;
    stopped_early <~
      (if is_live input then ret true
       else duration <~ _get_duration media_duration ;;
            ret (duration =? 0)) ;;
    if stopped_early then error else ret tt
  else
    input <~ not_None (media_input p) ;;
    if is_live input then error
    else
      track <~ not_None (media_track p) ;;
      not_None (_media_player p) ;;;
      if length track - 1000 <? player_time
      then call NotifyEndReached
      else
        assign (set_is_paused true) ;;;
        call (NotifyPlaybackStatusChanged true).

Definition cb_stopped : method unit :=
  p <~ self ;;
  if negb (is_video_initialized p) then ret tt
  else
    input <~ not_None (media_input p) ;;
    if negb (is_live input) then error
    else
      assign (set_is_paused true) ;;;
      call (NotifyPlaybackStatusChanged true).

Definition cb_end_reached : method unit :=
  p <~ self ;;
  if negb (is_video_initialized p) then error else ret tt.

Definition cb_error : method unit := call NotifyError.

(** [next(video_tracks, None)]. *)
Fixpoint next_video_track (media_tracks : list Track) : option VideoTrack :=
  match media_tracks with
  | [] => None
  | Video contents :: _ => Some contents
  | NotVideo :: media_tracks' => next_video_track media_tracks'
  end.

(** [_get_media_track]; [tracks] is what [self._media.tracks_get()]
    answers, [media_duration] what [self._media.get_duration()]
    does. *)
Definition _get_media_track (tracks : option (list Track))
  (media_duration : Z) : method (option MediaTrack) :=
  p <~ self ;;
  not_None (_media p) ;;;
  match tracks with
  | None => ret None
  | Some [] => ret None
  | Some media_tracks =>
      match next_video_track media_tracks with
      | None =>
          duration <~ _get_duration media_duration ;;
          ret (Some {| is_audio_only := true;
                       length := duration;
                       video_dimensions := (0, 0);
                       fps := IntFps DEFAULT_FPS |})
      | Some video_track =>
          if negb (truthy (width video_track)
                   && truthy (height video_track))
          then ret None
          else
            let fps :=
              if truthy (frame_rate_num video_track)
                 && truthy (frame_rate_den video_track)
              then TrueDiv (frame_rate_num video_track)
                           (frame_rate_den video_track)
              else IntFps DEFAULT_FPS in
            duration <~ _get_duration media_duration ;;
            ret (Some {| is_audio_only := false;
                         length := duration;
                         video_dimensions :=
                           (width video_track, height video_track);
                         fps := fps |})
      end
  end.

Definition _init_media_track (tracks : option (list Track))
  (media_duration : Z) : method unit :=
  p <~ self ;;
  match media_track p with
  | Some _ => ret tt
  | None =>
      new_track <~ _get_media_track tracks media_duration ;;
      assign (set_media_track new_track) ;;;
      match new_track with
      | None => ret tt
      | Some track =>
          (if length track =? -1 then
             p1 <~ self ;;
             input <~ not_None (media_input p1) ;;
             if negb (is_live input)
             then assign (set_media_input
                            {| is_live := true;
                               initial_time := initial_time input;
                               input_length := input_length input |})
             else ret tt
           else ret tt) ;;;
          p2 <~ self ;;
          input <~ not_None (media_input p2) ;;
          assign (set_media_input
                    {| is_live := is_live input;
                       initial_time := initial_time input;
                       input_length := Some (length track) |})
      end
  end.

(** [cb_parse_changed]; [new_status] is [event.u.new_status]. *)
Definition cb_parse_changed (new_status : MediaParsedStatus)
  (tracks : option (list Track)) (media_duration : Z) : method unit :=
  match new_status with
  | skipped => call LoopbackLoadVideoSt2SetParsedMedia
  | done =>
      _init_media_track tracks media_duration ;;;
      call LoopbackLoadVideoSt2SetParsedMedia
  | other_status => error
  end.

(** [cb_time_changed]; [new_time] is [int(event.u.new_time)]. *)
Definition cb_time_changed (new_time : Z) : method unit :=
  if new_time =? 0 then ret tt
  else
    p <~ self ;;
    if negb (is_video_initialized p) then
      input <~ not_None (media_input p) ;;
      if is_live input
      then assign (set_media_input
                     {| is_live := is_live input;
                        initial_time := new_time;
                        input_length := input_length input |})
      else ret tt
    else
      (if _is_paused p
       then assign (set_is_paused false) ;;;
            call (NotifyPlaybackStatusChanged false)
       else ret tt) ;;;
      call (NotifyTimeChanged new_time).

(** An event with what its callback reads from it and from libvlc. *)
Inductive event : Type :=
| Paused (media_duration player_time : Z)
| Stopped
| EndReached
| EncounteredError
| TimeChanged (new_time : Z)
| MediaParsedChanged (new_status : MediaParsedStatus)
    (tracks : option (list Track)) (media_duration : Z).

(** The dictionary [callbacks] of [init_event_manager]. *)
Definition callbacks (e : event) : method unit :=
  match e with
  | Paused media_duration player_time => cb_paused media_duration player_time
  | Stopped => cb_stopped
  | EndReached => cb_end_reached
  | EncounteredError => cb_error
  | TimeChanged new_time => cb_time_changed new_time
  | MediaParsedChanged new_status tracks media_duration =>
      cb_parse_changed new_status tracks media_duration
  end.

End PlayerBase.

(** * Specification-level definitions

    What the claims speak of, stated apart from the code: the string of
    bits a reader still has to deliver, code words, the packets of a
    stream as the format describes them, and concrete inputs. *)

(** ** Bit strings

    The reader is specified against the string of bits that is still to
    be read, most significant bit first. *)

(** The [w] low bits of [x], most significant first. *)
Fixpoint bits_of_Z (w : nat) (x : Z) : list bool :=
  match w with
  | O => []
  | S w' => Z.testbit x (Z.of_nat w') :: bits_of_Z w' x
  end.

(** The unsigned integer a bit string denotes. *)
Fixpoint bits_val (l : list bool) : Z :=
  match l with
  | [] => 0
  | b :: l' => Z.b2z b * 2 ^ Z.of_nat (List.length l') + bits_val l'
  end.

Definition bytes_bits (s : list byte) : list bool :=
  flat_map (fun b => bits_of_Z 8 (byte_val b)) s.

(** The bits a reader has not delivered yet. *)
Definition stream (r : BitReader) : list bool :=
  bits_of_Z (Z.to_nat (nextbits_cnt r)) (nextbits r)
  ++ bytes_bits (skipn (Z.to_nat (byte_pos r)) (data r)).

(** The number of bits left: buffered ones and unread source bytes. *)
Definition bits_left (r : BitReader) : Z :=
  nextbits_cnt r + 8 * bytes_remaining r.

(** The invariant of the reader's fields. *)
Definition wfb (r : BitReader) : bool :=
  (0 <=? nextbits_cnt r) && (nextbits_cnt r <=? 64)
  && (0 <=? nextbits r) && (nextbits r <? 2 ^ nextbits_cnt r)
  && (0 <=? byte_pos r) && (0 <=? bytes_remaining r)
  && (byte_pos r + bytes_remaining r =? len (data r)).

Definition wf (r : BitReader) : Prop := wfb r = true.

(** ** Fixed-width reads *)

(** The big-endian bytes of a 32-bit value. *)
Definition be32_bytes (v : Z) : list byte :=
  [ byte_of (Z.shiftr v 24);
    byte_of (Z.land (Z.shiftr v 16) 0xFF);
    byte_of (Z.land (Z.shiftr v 8) 0xFF);
    byte_of (Z.land v 0xFF) ].

(** A reader that holds 3 buffered bits [101] and one unread byte. *)
Definition reader_3_bits_1_byte : BitReader :=
  {| data := [xa5; x0f]; bytes_remaining := 1; byte_pos := 1; bit_pos := 0;
     nextbits := 5; nextbits_cnt := 3 |}.

(** ** Exponential-Golomb codes *)

(** The canonical unsigned exponential-Golomb code word of [v]:
    [z] zero bits, then the [z + 1] bits of [v + 1], where
    [z = floor (log2 (v + 1))]. *)
Definition ue_encode (v : Z) : list bool :=
  let z := Z.to_nat (Z.log2 (v + 1)) in
  repeat false z ++ bits_of_Z (S z) (v + 1).

(** A code word given by its parts: [z] zeros, the set bit, the offset. *)
Definition ue_word (z : nat) (offset_bits : list bool) : list bool :=
  repeat false z ++ true :: offset_bits.

(** A reader about to read the bytes [0B FF]: the code word of 22,
    [0000 10111], followed by seven set bits. *)
Definition reader_0b_ff : BitReader :=
  {| data := [x0b; xff]; bytes_remaining := 2; byte_pos := 0; bit_pos := 0;
     nextbits := 0; nextbits_cnt := 0 |}.

(** A reader about to read three zero bytes and [80]: 24 zero bits
    before the first set bit. *)
Definition reader_24_zeros : BitReader :=
  {| data := [x00; x00; x00; x80]; bytes_remaining := 4; byte_pos := 0;
     bit_pos := 0; nextbits := 0; nextbits_cnt := 0 |}.

(** The reader [reader_0b_ff] after the code word of 22. *)
Definition reader_0b_ff_after : BitReader :=
  {| data := [x0b; xff]; bytes_remaining := 0; byte_pos := 2; bit_pos := 0;
     nextbits := 127; nextbits_cnt := 7 |}.

(** ** The SEI field decoder *)

Definition holds_bits (w v : Z) : Prop := 0 <= v < 2 ^ w.

Definition set_to_bits (w : Z) (o : option Z) : Prop :=
  exists v, o = Some v /\ holds_bits w v.

(** Every field the decoder assigns holds a value of its width; the
    fields that [__init__] left at [None] are set. *)
Definition populated (sei : SEI_6DOF) : Prop :=
  set_to_bits 2 (stitching_layout sei) /\
  holds_bits 16 (camera_number sei) /\
  set_to_bits 2 (camera_model sei) /\
  holds_bits 16 (camera_resolution_x sei) /\
  holds_bits 16 (camera_resolution_y sei) /\
  holds_bits 16 (video_resolution_x sei) /\
  holds_bits 16 (video_resolution_y sei) /\
  holds_bits 8 (texture_padding_size sei) /\
  holds_bits 1 (background_texture_flag sei) /\
  set_to_bits 1 (background_depth_flag sei) /\
  set_to_bits 1 (arrangement_flag sei) /\
  holds_bits 8 (horizontal_half_fov sei).

Definition tag_bytes : list byte := list_byte_of_string extension_tag.

(** The camera count a field block declares: 16 bits after the 2 bits
    of the stitching layout. *)
Definition declared_cameras (fields : list bool) : Z :=
  bits_val (firstn 16 (skipn 2 fields)).

(** The field block of one camera: layout 1, one camera, model 0,
    resolutions 1920 x 1080, padding 4, half field of view 90, and the
    rectangle (0,0)-(960,1080); every marker bit set. *)
Definition scenario_fields : list byte :=
  bytes_of [0x40; 0x00; 0x48; 0x3C; 0x04; 0x10; 0xE2; 0x0F; 0x01; 0x04;
            0x38; 0x82; 0x12; 0xD0; 0x00; 0x00; 0x80; 0x00; 0x40; 0xF0;
            0x20; 0x87; 0x10].

Definition reader_scenario : BitReader :=
  {| data := tag_bytes ++ scenario_fields;
     bytes_remaining := 39; byte_pos := 0; bit_pos := 0;
     nextbits := 0; nextbits_cnt := 0 |}.

(** ** The TS demuxer *)

(** The chunks the loop of [extract_h265_nal_from_ts] visits: 188 bytes
    each, the last one shorter when the input is truncated. *)
Definition ts_packets (ts_stream : list byte) : list (list byte) :=
  map (fun i => py_slice ts_stream i (i + TS_PACKET_SIZE))
      (py_range_step (len ts_stream) TS_PACKET_SIZE).

(** The loop body folded over a list of chunks. *)
Fixpoint demux_packets (ps : list (list byte)) (st : demux_state)
  : res demux_state :=
  match ps with
  | [] => Ok st
  | p :: ps' => st' <- demux_packet st p ;; demux_packets ps' st'
  end.

(** ** A packet as the format describes it *)

(** Byte [i] of a packet, counted from 0. *)
Definition byte_at (p : list byte) (i : nat) : Z := byte_val (nth i p x00).

Definition has_sync (p : list byte) : bool := byte_at p 0 =? 0x47.

(** The 13-bit identifier: the low 5 bits of the second byte, then all
    of the third byte. *)
Definition pid_of (p : list byte) : Z :=
  (byte_at p 1 mod 32) * 256 + byte_at p 2.

Definition has_target_pid (p : list byte) : bool := pid_of p =? VIDEO_PID.

Definition has_adaptation_field (p : list byte) : bool :=
  negb (Z.land (byte_at p 3) 0x20 =? 0).

Definition has_unit_start_flag (p : list byte) : bool :=
  negb (Z.land (byte_at p 1) 0x40 =? 0).

(** Where the payload starts: after the 4 header bytes and, when
    present, the adaptation field with its length byte. *)
Definition payload_offset (p : list byte) : Z :=
  if has_adaptation_field p then 5 + byte_at p 4 else 4.

(** The packet is one the demuxer takes payload from. *)
Definition carries_payload (p : list byte) : bool :=
  has_sync p && has_target_pid p && (payload_offset p <? TS_PACKET_SIZE).

(** A detected payload-unit-start. *)
Definition is_unit_start (p : list byte) : bool :=
  carries_payload p && has_unit_start_flag p.

Definition has_pes_header (p : list byte) : bool :=
  bytes_eqb (py_slice p (payload_offset p) (payload_offset p + 3)) start_code.

(** The bytes of a PES header: 9 and the low 4 bits of its 9th byte. *)
Definition pes_header_size (p : list byte) : Z :=
  9 + byte_at p (Z.to_nat (payload_offset p + 8)) mod 16.

(** The payload bytes a packet contributes. *)
Definition payload_of (p : list byte) : list byte :=
  if carries_payload p then
    if has_unit_start_flag p && has_pes_header p
    then py_slice_from p (payload_offset p + pes_header_size p)
    else py_slice_from p (payload_offset p)
  else [].

(** A PES header that starts in the chunk and is cut before its 9th
    byte. *)
Definition pes_header_cut (p : list byte) : bool :=
  has_pes_header p && (len p <=? payload_offset p + 8).

(** What suffices for every index the loop body uses to be in range: the
    chunk fails the sync check, or it holds the 5 bytes up to the length
    of the adaptation field and no PES header that is cut short. *)
Definition chunk_ok (p : list byte) : bool :=
  (1 <=? len p) &&
  (negb (has_sync p) || ((5 <=? len p) && negb (pes_header_cut p))).

(** The state after a packet, as the format describes it. *)
Definition demux_step (st : demux_state) (p : list byte) : demux_state :=
  (fst st ++ (if is_unit_start p && snd st then start_code else [])
          ++ payload_of p,
   snd st || is_unit_start p).

(** ** Packets for concrete streams *)

(** A whole packet without adaptation field: the sync byte, the
    identifier with the unit-start flag, and the payload padded with
    [FF] to 184 bytes. *)
Definition make_packet (pid : Z) (unit_start : bool) (payload : list Z)
  : list byte :=
  bytes_of ([0x47;
             Z.lor (if unit_start then 0x40 else 0) (Z.shiftr pid 8);
             Z.land pid 0xFF;
             0x10]
            ++ payload
            ++ repeat 0xFF (184 - List.length payload)).

(** ** Truncated input *)

(** A unit start of three payload bytes, then a chunk cut after 10
    bytes. *)
Definition truncated_stream : list byte :=
  make_packet 0x100 true [1; 2; 3]
  ++ bytes_of [0x47; 0x01; 0x00; 0x10; 4; 5; 6; 7; 8; 9].

(** ** Start codes at unit boundaries *)

(** A unit start was detected among the first [i] packets. *)
Definition unit_start_seen (ps : list (list byte)) (i : nat) : bool :=
  existsb is_unit_start (firstn i ps).

(** The start code the output holds right before the payload of packet
    [i]: the three bytes [00 00 01] when the packet is a detected unit
    start and not the first one, nothing otherwise. *)
Definition start_code_at (ps : list (list byte)) (i : nat) : list byte :=
  if is_unit_start (nth i ps []) && unit_start_seen ps i
  then [x00; x00; x01] else [].

(** The output the format describes: packet by packet, the start code
    if any, then the payload. *)
Definition expected_output (ps : list (list byte)) : list byte :=
  List.concat
    (map (fun i => start_code_at ps i ++ payload_of (nth i ps []))
         (seq 0 (List.length ps))).

(** ** Selection by program identifier *)

(** What a packet contributes to the output: nothing when its
    identifier is not the target; otherwise exactly its payload bytes,
    after a start code or not. *)
Definition contribution_of (p piece : list byte) : Prop :=
  if has_target_pid p
  then piece = payload_of p \/ piece = start_code ++ payload_of p
  else piece = [].

(** Packets of the identifiers 0x100 and 0x101, interleaved. *)
Definition interleaved_packets : list (list byte) :=
  [ make_packet 0x100 true [1]; make_packet 0x101 true [2];
    make_packet 0x100 false [3]; make_packet 0x101 false [4] ].

(** ** No packet of the target identifier *)



(** ** Positions in the source buffer *)

(** The number of bits of [data] a reader has delivered: the bytes it
    has pulled less the bits it still buffers. *)
Definition bit_position (r : BitReader) : Z :=
  8 * byte_pos r - nextbits_cnt r.

(** The reader's bits are those of its buffer from its position on. *)
Definition in_sync (r : BitReader) : Prop :=
  wf r /\ 0 <= bit_position r /\
  stream r = skipn (Z.to_nat (bit_position r)) (bytes_bits (data r)).

(** The code number of the signed value [k] in the signed
    exponential-Golomb code: [2k - 1] for a positive [k], [-2k]
    otherwise. *)
Definition se_code (k : Z) : Z := if 0 <? k then 2 * k - 1 else - 2 * k.

(** A reader that holds 3 buffered bits of the byte [A5] and one unread
    byte, in step with its buffer. *)
Definition reader_mid_byte : BitReader :=
  {| data := [xa5; x0f]; bytes_remaining := 1; byte_pos := 1; bit_pos := 0;
     nextbits := 5; nextbits_cnt := 3 |}.

(** A reader about to read the trailing bits [1000 0000 0000 0000]. *)
Definition reader_trailing : BitReader :=
  {| data := [x80; x00]; bytes_remaining := 2; byte_pos := 0; bit_pos := 0;
     nextbits := 0; nextbits_cnt := 0 |}.

(** A reader about to read [28 FF]: the code word [00101] of the code
    number 4, which stands for -2, then other bits. *)
Definition reader_28_ff : BitReader :=
  {| data := [x28; xff]; bytes_remaining := 2; byte_pos := 0; bit_pos := 0;
     nextbits := 0; nextbits_cnt := 0 |}.

(** A reader about to read [00 00 61 A7 E0]: the code word of the
    code number 199998, then five zero bits. *)
Definition reader_199998 : BitReader :=
  {| data := [x00; x00; x61; xa7; xe0]; bytes_remaining := 5; byte_pos := 0;
     bit_pos := 0; nextbits := 0; nextbits_cnt := 0 |}.

(** A stream of two packets of the identifier 0x100; the payload of
    the first starts with the tag and the field block of one camera. *)
Definition scenario_stream : list byte :=
  make_packet 0x100 true (map byte_val (tag_bytes ++ scenario_fields))
  ++ make_packet 0x100 false [].

(** What the demuxer makes of [scenario_stream]: the two payloads and a
    padding of [FF]. *)
Definition scenario_nal : list byte :=
  tag_bytes ++ scenario_fields ++ repeat xff (145 + 184).

(** ** The layout of the field block *)

(** The unsigned field of [width] bits at bit [pos] of a block. *)
Definition field_at (block : list bool) (pos width : nat) : Z :=
  bits_val (firstn width (skipn pos block)).

(** The rectangle whose 72 bits start at bit [pos]: four 16-bit corner
    coordinates, each followed by a marker bit, and 4 reserved bits. *)
Definition rectangle_at (block : list bool) (pos : nat) (id : Z)
  : FieldOfViewInfo :=
  {| fov_id := id;
     fov_x := field_at block pos 16;
     fov_y := field_at block (pos + 17) 16;
     fov_width := field_at block (pos + 34) 16 - field_at block pos 16;
     fov_height :=
       field_at block (pos + 51) 16 - field_at block (pos + 17) 16 |}.

(** The record the layout of the format assigns to a field block that
    follows the tag: the fixed fields at their bit offsets. *)
Definition fields_of_block (block : list bool) : SEI_6DOF :=
  {| uuid_string := extension_tag;
     stitching_layout := Some (field_at block 0 2);
     camera_number := field_at block 2 16;
     camera_model := Some (field_at block 18 2);
     camera_resolution_x := field_at block 21 16;
     camera_resolution_y := field_at block 38 16;
     video_resolution_x := field_at block 55 16;
     video_resolution_y := field_at block 72 16;
     texture_padding_size := field_at block 89 8;
     background_texture_flag := field_at block 97 1;
     background_depth_flag := Some (field_at block 98 1);
     arrangement_flag := Some (field_at block 100 1);
     horizontal_half_fov := field_at block 101 8;
     texture_top_left_x := [];
     texture_top_left_y := [];
     texture_bottom_right_x := [];
     texture_bottom_right_y := [] |}.

(** The rectangles of a block of [cameras] cameras: 72 bits each, from
    bit 112 on, numbered from 1. *)
Definition rectangles_of_block (block : list bool) (cameras : nat)
  : list FieldOfViewInfo :=
  map (fun i => rectangle_at block (112 + 72 * i) (Z.of_nat i + 1))
      (seq 0 cameras).

(** The [FOV] object read back from the dictionary of a rectangle. *)
Definition FOV_of (fov : FieldOfViewInfo) : VideoData.FOV :=
  VideoData.mkFOV (VideoData.JInt (fov_id fov)) (VideoData.JInt (fov_x fov))
    (VideoData.JInt (fov_y fov)) (VideoData.JInt (fov_width fov))
    (VideoData.JInt (fov_height fov)).

(** The callbacks of a sequence of events, one after the other, each on
    the player as the one before left it, whether that one returned or
    raised: the results in order, the player at the end and all the
    calls made. *)
Fixpoint run_callbacks (events : list PlayerBase.event)
  (p : PlayerBase.player)
  : list (PlayerBase.result unit) * PlayerBase.player
    * list PlayerBase.effect :=
  match events with
  | [] => ([], p, [])
  | e :: events' =>
      match PlayerBase.callbacks e p with
      | (r, p1, trace1) =>
          match run_callbacks events' p1 with
          | (results, p2, trace2) => (r :: results, p2, trace1 ++ trace2)
          end
      end
  end.

(** The pause flag a listener derives from the notifications of a
    trace: that of the last playback-status notification, [known]
    without one. *)
Definition status_after (known : bool) (trace : list PlayerBase.effect)
  : bool :=
  fold_left
    (fun status e =>
       match e with
       | PlayerBase.NotifyPlaybackStatusChanged new_status => new_status
       | _ => status
       end)
    trace known.

(** A player that is loading a file: media and media player are set,
    the video is not initialized, not paused, no track yet. *)
Definition loading_player : PlayerBase.player :=
  {| PlayerBase.is_video_initialized := false;
     PlayerBase._is_paused := false;
     PlayerBase.media_input :=
       Some {| PlayerBase.is_live := false; PlayerBase.initial_time := 0;
               PlayerBase.input_length := None |};
     PlayerBase.media_track := None;
     PlayerBase._media_player := Some PlayerBase.MediaPlayerObject;
     PlayerBase._media := Some PlayerBase.MediaObject |}.

(** A file with one video track that libvlc reports a duration of 0
    for. *)
Definition parsed_video : PlayerBase.event :=
  PlayerBase.MediaParsedChanged PlayerBase.done
    (Some [PlayerBase.NotVideo;
           PlayerBase.Video
             {| PlayerBase.width := 1920; PlayerBase.height := 1080;
                PlayerBase.frame_rate_num := 30;
                PlayerBase.frame_rate_den := 1 |}])
    0.

(** A whole packet of the target identifier with the unit-start flag,
    an adaptation field of 175 bytes, and the PES start code in the last
    8 bytes, at offset 180. *)
Definition late_pes_packet : list byte :=
  bytes_of ([0x47; 0x41; 0x00; 0x30; 175] ++ repeat 0xFF 175
            ++ [0; 0; 1] ++ repeat 0 5).

(** * Properties *)

(** ** Bit strings *)

Lemma wf_inv r :
  wf r ->
  0 <= nextbits_cnt r <= 64 /\ 0 <= nextbits r < 2 ^ nextbits_cnt r /\
  0 <= byte_pos r /\ 0 <= bytes_remaining r /\
  byte_pos r + bytes_remaining r = len (data r).
Proof.
  unfold wf, wfb. rewrite !andb_true_iff. lia.
Qed.

Lemma wf_intro r :
  0 <= nextbits_cnt r <= 64 -> 0 <= nextbits r < 2 ^ nextbits_cnt r ->
  0 <= byte_pos r -> 0 <= bytes_remaining r ->
  byte_pos r + bytes_remaining r = len (data r) ->
  wf r.
Proof.
  intros. unfold wf, wfb. rewrite !andb_true_iff. lia.
Qed.

Section Bits.

Lemma length_bits_of_Z w x : List.length (bits_of_Z w x) = w.
Proof. induction w; simpl; congruence. Qed.

Lemma bits_of_Z_ext w x y :
  (forall i, 0 <= i < Z.of_nat w -> Z.testbit x i = Z.testbit y i) ->
  bits_of_Z w x = bits_of_Z w y.
Proof.
  induction w as [|w IH]; intros H; simpl; [reflexivity|].
  f_equal.
  - apply H. lia.
  - apply IH. intros i Hi. apply H. lia.
Qed.

Lemma bits_val_bits_of_Z w x : bits_val (bits_of_Z w x) = x mod 2 ^ Z.of_nat w.
Proof.
  induction w as [|w IH]; simpl bits_of_Z; simpl bits_val.
  - now rewrite Z.mod_1_r.
  - rewrite length_bits_of_Z, IH, Nat2Z.inj_succ, Z.pow_succ_r by lia.
    rewrite (Z.mul_comm 2), Z.rem_mul_r by lia.
    rewrite Z.testbit_spec' by lia. ring.
Qed.

Lemma bits_val_range l : 0 <= bits_val l < 2 ^ Z.of_nat (List.length l).
Proof.
  induction l as [|b l IH]; simpl bits_val; simpl List.length.
  - simpl. lia.
  - rewrite Nat2Z.inj_succ, Z.pow_succ_r by lia.
    destruct b; unfold Z.b2z; lia.
Qed.

Lemma bits_of_Z_app w k x b :
  0 <= b < 2 ^ Z.of_nat k ->
  bits_of_Z (w + k) (Z.lor (Z.shiftl x (Z.of_nat k)) b)
  = bits_of_Z w x ++ bits_of_Z k b.
Proof.
  intros Hb. induction w as [|w IH]; simpl.
  - apply bits_of_Z_ext. intros i Hi.
    rewrite Z.lor_spec, Z.shiftl_spec_low by lia. reflexivity.
  - f_equal; [|exact IH].
    rewrite Z.lor_spec, Z.shiftl_spec by lia.
    replace (Z.of_nat (w + k) - Z.of_nat k) with (Z.of_nat w) by lia.
    destruct (Z.eq_dec b 0) as [->|Hnz].
    + rewrite Z.testbit_0_l. apply orb_false_r.
    + assert (Hlog : Z.log2 b < Z.of_nat k)
        by (apply Z.log2_lt_pow2; lia).
      rewrite (Z.bits_above_log2 b) by lia.
      apply orb_false_r.
Qed.

Lemma firstn_bits_of_Z n w x :
  (n <= w)%nat ->
  firstn n (bits_of_Z w x)
  = bits_of_Z n (Z.shiftr x (Z.of_nat w - Z.of_nat n)).
Proof.
  revert w. induction n as [|n IH]; intros w Hle; [reflexivity|].
  destruct w as [|w]; [lia|].
  cbn [bits_of_Z firstn].
  rewrite IH by lia. f_equal.
  - rewrite Z.shiftr_spec by lia. f_equal. lia.
  - f_equal. f_equal. lia.
Qed.

Lemma skipn_bits_of_Z n w x :
  (n <= w)%nat -> skipn n (bits_of_Z w x) = bits_of_Z (w - n) x.
Proof.
  revert w. induction n as [|n IH]; intros w Hle.
  - now rewrite Nat.sub_0_r.
  - destruct w as [|w]; [lia|]. simpl. apply IH. lia.
Qed.

Lemma bits_of_Z_mod w x : bits_of_Z w (x mod 2 ^ Z.of_nat w) = bits_of_Z w x.
Proof.
  apply bits_of_Z_ext. intros i Hi. apply Z.mod_pow2_bits_low. lia.
Qed.

Lemma length_bytes_bits s : len (bytes_bits s) = 8 * len s.
Proof.
  unfold len. induction s as [|b s IH]; [reflexivity|].
  change (bytes_bits (b :: s))
    with (bits_of_Z 8 (byte_val b) ++ bytes_bits s).
  rewrite length_app, length_bits_of_Z. simpl List.length. lia.
Qed.

Lemma byte_val_range b : 0 <= byte_val b < 2 ^ 8.
Proof.
  unfold byte_val. pose proof (Byte.to_N_bounded b).
  change (2 ^ 8) with 256. lia.
Qed.

End Bits.

(** ** The reader against the bit string *)

Section Reader.

Lemma lor_shiftl_small x k b :
  0 <= k -> 0 <= b < 2 ^ k -> Z.lor (Z.shiftl x k) b = x * 2 ^ k + b.
Proof.
  intros Hk Hb.
  assert (Hland : Z.land (Z.shiftl x k) b = 0).
  { apply Z.bits_inj'. intros i Hi.
    rewrite Z.land_spec, Z.bits_0.
    destruct (Z.lt_ge_cases i k) as [Hlt|Hge].
    - rewrite Z.shiftl_spec_low by lia. reflexivity.
    - destruct (Z.eq_dec b 0) as [->|Hnz].
      + rewrite Z.testbit_0_l. apply andb_false_r.
      + assert (Hlog : Z.log2 b < k) by (apply Z.log2_lt_pow2; lia).
        rewrite (Z.bits_above_log2 b) by lia. apply andb_false_r. }
  rewrite <- Z.lxor_lor by exact Hland.
  rewrite <- Z.add_nocarry_lxor by exact Hland.
  now rewrite Z.shiftl_mul_pow2.
Qed.

Lemma skipn_nth_error {A} (l : list A) n a :
  nth_error l n = Some a -> skipn n l = a :: skipn (S n) l.
Proof.
  revert l. induction n as [|n IH]; intros [|x l] H; try discriminate.
  - now inversion H.
  - simpl in H. now apply IH.
Qed.

Lemma py_index_in_range s i :
  0 <= i < len s ->
  exists b, nth_error s (Z.to_nat i) = Some b /\ py_index s i = Ok (byte_val b).
Proof.
  intros Hi. unfold py_index.
  destruct (Z.ltb_spec i 0); [lia|].
  destruct (Z.ltb_spec i 0); [lia|].
  destruct (Z.leb_spec (len s) i); [lia|]. simpl.
  destruct (nth_error s (Z.to_nat i)) as [b|] eqn:E.
  - now exists b.
  - apply nth_error_None in E. unfold len in Hi. lia.
Qed.

Lemma length_stream r : wf r -> len (stream r) = bits_left r.
Proof.
  intros Hwf. apply wf_inv in Hwf. unfold stream, bits_left.
  unfold len at 1. rewrite length_app, length_bits_of_Z, Nat2Z.inj_add.
  fold (len (bytes_bits (skipn (Z.to_nat (byte_pos r)) (data r)))).
  rewrite length_bytes_bits. unfold len in *. rewrite length_skipn. lia.
Qed.

Lemma refill_body_spec r :
  wf r -> 0 < bytes_remaining r -> nextbits_cnt r <= 56 ->
  exists r', refill_body r = Ok r' /\ wf r' /\ stream r' = stream r /\
             data r' = data r /\
             bytes_remaining r' = bytes_remaining r - 1 /\
             nextbits_cnt r' = nextbits_cnt r + 8.
Proof.
  intros Hwf Hrem Hcnt. pose proof (wf_inv r Hwf) as (Hc & Hn & Hp & _ & Hlen).
  destruct (py_index_in_range (data r) (byte_pos r)) as (b & Hnth & Hidx);
    [lia|].
  unfold refill_body. rewrite Hidx. cbn [bind].
  eexists. split; [reflexivity|].
  pose proof (byte_val_range b) as Hb.
  assert (Hlor : Z.lor (Z.shiftl (nextbits r) 8) (byte_val b)
                 = nextbits r * 2 ^ 8 + byte_val b)
    by (apply lor_shiftl_small; lia).
  repeat split; cbn [data bytes_remaining nextbits_cnt byte_pos nextbits].
  - apply wf_intro;
      cbn [data bytes_remaining nextbits_cnt byte_pos nextbits]; try lia.
    rewrite Hlor, Z.pow_add_r by lia. nia.
  - unfold stream.
    cbn [data bytes_remaining nextbits_cnt byte_pos nextbits].
    rewrite (skipn_nth_error _ _ _ Hnth).
    replace (Z.to_nat (byte_pos r + 1)) with (S (Z.to_nat (byte_pos r)))
      by lia.
    change (bytes_bits (b :: ?l))
      with (bits_of_Z 8 (byte_val b) ++ bytes_bits l).
    rewrite app_assoc. f_equal.
    replace (Z.to_nat (nextbits_cnt r + 8))
      with (Z.to_nat (nextbits_cnt r) + 8)%nat by lia.
    apply (bits_of_Z_app _ 8). exact Hb.
Qed.

Lemma refill_loop_spec fuel r :
  wf r -> (Z.to_nat (bytes_remaining r) <= fuel)%nat ->
  exists r', refill_loop fuel r = Ok r' /\ wf r' /\ stream r' = stream r /\
             data r' = data r /\ bits_left r' = bits_left r /\
             (56 < nextbits_cnt r' \/ bytes_remaining r' = 0) /\
             nextbits_cnt r <= nextbits_cnt r'.
Proof.
  revert r. induction fuel as [|fuel IH]; intros r Hwf Hfuel.
  - exists r. pose proof (wf_inv r Hwf). simpl. repeat split; auto; lia.
  - simpl. unfold refill_cond.
    destruct (Z.leb_spec (nextbits_cnt r) 56) as [Hc|Hc];
      [destruct (Z.ltb_spec 0 (bytes_remaining r)) as [Hr|Hr]|]; cbn [andb].
    + destruct (refill_body_spec r Hwf Hr Hc)
        as (r1 & E1 & Hwf1 & Hs1 & Hd1 & Hr1 & Hc1).
      rewrite E1. cbn [bind].
      destruct (IH r1 Hwf1) as (r' & E & Hwf' & Hs & Hd & Hb & Hex & Hmono);
        [lia|].
      exists r'. repeat split; auto; try congruence.
      * rewrite Hb. unfold bits_left. lia.
      * lia.
    + exists r. pose proof (wf_inv r Hwf). repeat split; auto; lia.
    + exists r. repeat split; auto; lia.
Qed.

Lemma refill_spec r :
  wf r ->
  exists r', refill r = Ok r' /\ wf r' /\ stream r' = stream r /\
             data r' = data r /\ bits_left r' = bits_left r /\
             (56 < nextbits_cnt r' \/ bytes_remaining r' = 0) /\
             nextbits_cnt r <= nextbits_cnt r'.
Proof. intros Hwf. apply refill_loop_spec; auto. Qed.

Lemma BitReader_init_spec buffer :
  exists r, BitReader_init buffer = Ok r /\ wf r /\
            stream r = bytes_bits buffer /\ data r = buffer /\
            bits_left r = 8 * len buffer.
Proof.
  unfold BitReader_init.
  match goal with |- context [refill ?r0] =>
    destruct (refill_spec r0) as (r & E & Hwf & Hs & Hd & Hb & _)
  end.
  { apply wf_intro;
      cbn [data bytes_remaining nextbits_cnt byte_pos nextbits];
      unfold len; lia. }
  exists r. repeat split; auto.
Qed.

End Reader.

Section GetBits.

Lemma refill_if_short_spec n r :
  wf r -> n <= 57 -> n <= bits_left r ->
  exists r1, refill_if_short n r = Ok r1 /\ wf r1 /\ stream r1 = stream r /\
             data r1 = data r /\ bits_left r1 = bits_left r /\
             n <= nextbits_cnt r1.
Proof.
  intros Hwf Hn Hleft. unfold refill_if_short.
  destruct (Z.ltb_spec (nextbits_cnt r) n) as [Hlt|Hge].
  - destruct (refill_spec r Hwf) as (r1 & E & Hwf1 & Hs & Hd & Hb & Hex & _).
    exists r1. repeat split; auto.
    destruct Hex as [Hex|Hex]; [lia|].
    unfold bits_left in *. lia.
  - exists r. repeat split; auto.
Qed.

Lemma refill_if_short_exhausted n r :
  wf r -> bits_left r < n ->
  exists r1, refill_if_short n r = Ok r1 /\ nextbits_cnt r1 < n.
Proof.
  intros Hwf Hleft. unfold refill_if_short.
  pose proof (wf_inv r Hwf).
  destruct (Z.ltb_spec (nextbits_cnt r) n) as [Hlt|Hge].
  - destruct (refill_spec r Hwf) as (r1 & E & Hwf1 & _ & _ & Hb & _).
    exists r1. split; [exact E|].
    pose proof (wf_inv r1 Hwf1). unfold bits_left in *. lia.
  - unfold bits_left in Hleft. lia.
Qed.

Lemma land_low_mask x n : 0 <= n -> Z.land x (Z.shiftl 1 n - 1) = x mod 2 ^ n.
Proof.
  intros Hn. rewrite Z.shiftl_1_l, Z.sub_1_r, <- Z.ones_equiv.
  now apply Z.land_ones.
Qed.

(** A read of [n] bits that the reader still holds delivers the first
    [n] bits of the string and leaves the rest. *)
Lemma get_bits_ok n r :
  wf r -> 0 <= n <= 57 -> n <= bits_left r ->
  exists r', get_bits n r
             = Ok (bits_val (firstn (Z.to_nat n) (stream r)), r') /\
             wf r' /\ stream r' = skipn (Z.to_nat n) (stream r) /\
             data r' = data r /\ bits_left r' = bits_left r - n.
Proof.
  intros Hwf [Hn0 Hn] Hleft.
  destruct (refill_if_short_spec n r Hwf Hn Hleft)
    as (r1 & E & Hwf1 & Hs & Hd & Hb & Hcnt).
  pose proof (wf_inv r1 Hwf1) as (Hc & Hnb & Hp & Hr & Hlen).
  unfold get_bits. rewrite E. cbn [bind]. unfold py_rshift, py_lshift.
  destruct (Z.ltb_spec (nextbits_cnt r1 - n) 0); [lia|].
  destruct (Z.ltb_spec n 0); [lia|]. cbn [bind].
  rewrite !land_low_mask by lia.
  set (w := Z.to_nat (nextbits_cnt r1)). set (k := Z.to_nat n).
  assert (Hk : (k <= w)%nat) by (subst k w; lia).
  eexists. split; [f_equal; f_equal|repeat split].
  - rewrite <- Hs. unfold stream. fold w.
    rewrite firstn_app, length_bits_of_Z.
    replace (k - w)%nat with 0%nat by lia.
    rewrite firstn_O, app_nil_r, firstn_bits_of_Z by exact Hk.
    rewrite bits_val_bits_of_Z. subst k w. f_equal; [f_equal|f_equal]; lia.
  - apply wf_intro;
      cbn [data bytes_remaining nextbits_cnt byte_pos nextbits]; try lia.
    apply Z.mod_pos_bound. apply Z.pow_pos_nonneg; lia.
  - rewrite <- Hs. unfold stream.
    cbn [data bytes_remaining nextbits_cnt byte_pos nextbits]. fold w.
    rewrite skipn_app, length_bits_of_Z.
    replace (k - w)%nat with 0%nat by lia.
    rewrite skipn_O, skipn_bits_of_Z by exact Hk. f_equal.
    replace (Z.to_nat (nextbits_cnt r1 - n)) with (w - k)%nat
      by (subst k w; lia).
    replace (nextbits_cnt r1 - n) with (Z.of_nat (w - k))
      by (subst k w; lia).
    apply bits_of_Z_mod.
  - cbn [data]. exact Hd.
  - rewrite <- Hb. unfold bits_left.
    cbn [data bytes_remaining nextbits_cnt byte_pos nextbits]. lia.
Qed.

(** A read of more bits than are left raises [ValueError]: the shift
    count [nextbits_cnt - n] is negative. *)
Lemma get_bits_short n r :
  wf r -> bits_left r < n -> get_bits n r = Raise ValueError.
Proof.
  intros Hwf Hleft.
  destruct (refill_if_short_exhausted n r Hwf Hleft) as (r1 & E & Hlt).
  unfold get_bits. rewrite E. cbn [bind]. unfold py_rshift.
  destruct (Z.ltb_spec (nextbits_cnt r1 - n) 0); [reflexivity|lia].
Qed.

End GetBits.

(** ** Fixed-width reads *)

Lemma byte_val_byte_of x : 0 <= x < 256 -> byte_val (byte_of x) = x.
Proof.
  intros Hx. unfold byte_val, byte_of.
  destruct (Byte.of_N (Z.to_N x)) as [b|] eqn:E.
  - apply Byte.to_of_N in E. rewrite E. lia.
  - apply Byte.of_N_None_iff in E. lia.
Qed.

Lemma bytes_bits_be32 v :
  0 <= v < 2 ^ 32 -> bytes_bits (be32_bytes v) = bits_of_Z 32 v.
Proof.
  intros Hv. unfold be32_bytes, bytes_bits. cbn [flat_map app].
  assert (H24 : 0 <= Z.shiftr v 24 < 256).
  { rewrite Z.shiftr_div_pow2 by lia. split.
    - apply Z.div_pos; lia.
    - apply Z.div_lt_upper_bound; lia. }
  assert (Hm : forall x, 0 <= Z.land x 0xFF < 256).
  { intros x. change 0xFF with (Z.ones 8). rewrite Z.land_ones by lia.
    apply Z.mod_pos_bound. lia. }
  rewrite !byte_val_byte_of by auto.
  assert (Hbit : forall k i, 0 <= k -> 0 <= i < 8 ->
            Z.testbit (Z.land (Z.shiftr v k) 0xFF) i = Z.testbit v (i + k)).
  { intros k i Hk Hi. change 0xFF with (Z.ones 8).
    rewrite Z.land_spec, Z.shiftr_spec, Z.ones_spec_low by lia.
    apply andb_true_r. }
  rewrite app_nil_r.
  change (bits_of_Z 32 v)
    with (map (fun i => Z.testbit v (Z.of_nat i)) (rev (seq 0 32))).
  cbn [bits_of_Z app]. 
  rewrite <- (Z.shiftr_0_r v) at 25 26 27 28 29 30 31 32.
  rewrite !Hbit by lia.
  rewrite !Z.shiftr_spec by lia. reflexivity.
Qed.

(** C1 fails as stated: with 8 bits left, a read of 16 bits raises
    [ValueError] instead of returning the 8 bits zero-filled, and a read
    on an empty buffer raises too. *)
Lemma get_bits_exhausted_raises :
  (r <- BitReader_init [xff] ;; get_bits 16 r) = Raise ValueError /\
  (r <- BitReader_init [] ;; get_bits 1 r) = Raise ValueError.
Proof. split; reflexivity. Qed.

(** C1, amended: over any byte buffer, a read of [n <= 57] bits with at
    least [n] bits left (buffered plus unread source bytes) returns the
    next [n] bits, most significant first, and consumes exactly them;
    a read with fewer than [n] bits left raises [ValueError]. *)
Theorem get_bits_remaining (r : BitReader) (n : Z) :
  wf r -> 0 <= n ->
  (n <= bits_left r -> n <= 57 ->
   exists r', get_bits n r = Ok (bits_val (firstn (Z.to_nat n) (stream r)), r')
              /\ wf r' /\ stream r' = skipn (Z.to_nat n) (stream r)
              /\ bits_left r' = bits_left r - n) /\
  (bits_left r < n -> get_bits n r = Raise ValueError).
Proof.
  intros Hwf Hn. split.
  - intros Hleft H57.
    destruct (get_bits_ok n r Hwf) as (r' & E & Hwf' & Hs & _ & Hb);
      [lia|exact Hleft|].
    exists r'. auto.
  - intros Hlt. now apply get_bits_short.
Qed.

Lemma get_bits_remaining_witness :
  wf reader_3_bits_1_byte /\ 0 <= 6 /\
  (6 <= bits_left reader_3_bits_1_byte -> 6 <= 57 ->
   exists r',
     get_bits 6 reader_3_bits_1_byte
     = Ok (bits_val (firstn (Z.to_nat 6) (stream reader_3_bits_1_byte)), r')
     /\ wf r'
     /\ stream r' = skipn (Z.to_nat 6) (stream reader_3_bits_1_byte)
     /\ bits_left r' = bits_left reader_3_bits_1_byte - 6) /\
  (bits_left reader_3_bits_1_byte < 6 ->
   get_bits 6 reader_3_bits_1_byte = Raise ValueError).
Proof.
  split; [reflexivity|]. split; [lia|].
  apply (get_bits_remaining reader_3_bits_1_byte 6); [reflexivity|lia].
Defined.

(** C8: a 32-bit value [v] stored most significant byte first, read as
    [get_bits n] then [get_bits (32 - n)] on a fresh reader, for any [n]
    from 1 to 32: both reads return, and the first value shifted left by
    [32 - n], or-ed with the second, is [v]. *)
Theorem get_bits_split_32 (v n : Z) :
  0 <= v < 2 ^ 32 -> 1 <= n <= 32 ->
  exists r r1 r2 hi lo,
    BitReader_init (be32_bytes v) = Ok r /\
    get_bits n r = Ok (hi, r1) /\
    get_bits (32 - n) r1 = Ok (lo, r2) /\
    Z.lor (Z.shiftl hi (32 - n)) lo = v.
Proof.
  intros Hv Hn.
  destruct (BitReader_init_spec (be32_bytes v)) as (r & E & Hwf & Hs & _ & Hb).
  rewrite bytes_bits_be32 in Hs by exact Hv.
  change (8 * len (be32_bytes v)) with 32 in Hb.
  destruct (get_bits_ok n r Hwf) as (r1 & E1 & Hwf1 & Hs1 & _ & Hb1);
    [lia|lia|].
  destruct (get_bits_ok (32 - n) r1 Hwf1) as (r2 & E2 & _); [lia|lia|].
  exists r, r1, r2. do 2 eexists.
  split; [exact E|]. split; [exact E1|]. split; [exact E2|].
  rewrite Hs1, Hs.
  rewrite skipn_bits_of_Z, firstn_bits_of_Z by lia.
  replace (32 - Z.to_nat n)%nat with (Z.to_nat (32 - n)) by lia.
  rewrite firstn_all2 by (rewrite length_bits_of_Z; lia).
  rewrite !bits_val_bits_of_Z, !Z2Nat.id by lia.
  change (Z.of_nat 32) with 32.
  assert (Hp : 0 < 2 ^ (32 - n)) by (apply Z.pow_pos_nonneg; lia).
  rewrite lor_shiftl_small by (try lia; apply Z.mod_pos_bound; lia).
  rewrite Z.shiftr_div_pow2 by lia.
  assert (Hq : 0 <= v / 2 ^ (32 - n) < 2 ^ n).
  { split; [apply Z.div_pos; lia|].
    apply Z.div_lt_upper_bound; [lia|].
    rewrite <- Z.pow_add_r by lia.
    replace (32 - n + n) with 32 by lia. lia. }
  rewrite (Z.mod_small _ (2 ^ n)) by exact Hq.
  pose proof (Z.div_mod v (2 ^ (32 - n))). lia.
Qed.

Lemma get_bits_split_32_witness :
  0 <= 0xDEADBEEF < 2 ^ 32 /\ 1 <= 11 <= 32 /\
  exists r r1 r2 hi lo,
    BitReader_init (be32_bytes 0xDEADBEEF) = Ok r /\
    get_bits 11 r = Ok (hi, r1) /\
    get_bits (32 - 11) r1 = Ok (lo, r2) /\
    Z.lor (Z.shiftl hi (32 - 11)) lo = 0xDEADBEEF.
Proof.
  split; [lia|]. split; [lia|].
  apply (get_bits_split_32 0xDEADBEEF 11); lia.
Defined.

(** ** Exponential-Golomb codes *)

Section Golomb.

Lemma bits_of_Z_bits_val l : bits_of_Z (List.length l) (bits_val l) = l.
Proof.
  induction l as [|b l IH]; [reflexivity|].
  cbn [List.length bits_of_Z bits_val].
  pose proof (bits_val_range l) as Hr.
  set (n := Z.of_nat (List.length l)) in *.
  assert (Hp : 0 < 2 ^ n) by (apply Z.pow_pos_nonneg; lia).
  f_equal.
  - apply Z.b2z_inj. rewrite Z.testbit_spec' by lia.
    rewrite Z.div_add_l, (Z.div_small (bits_val l)) by lia.
    rewrite Z.add_0_r. now destruct b.
  - rewrite <- bits_of_Z_mod. fold n.
    rewrite Z.add_comm, Z.mod_add, Z.mod_small by lia.
    exact IH.
Qed.

Lemma get_bit_ok r b rest :
  wf r -> stream r = b :: rest ->
  exists r1, get_bits 1 r = Ok (Z.b2z b, r1) /\ wf r1 /\ stream r1 = rest.
Proof.
  intros Hwf Hs.
  pose proof (length_stream r Hwf) as Hl. rewrite Hs in Hl.
  unfold len in Hl. cbn [List.length] in Hl.
  destruct (get_bits_ok 1 r Hwf) as (r1 & E & Hwf1 & Hs1 & _); [lia|lia|].
  rewrite Hs in E, Hs1. cbn in E, Hs1.
  exists r1. repeat split; auto.
  rewrite E. do 2 f_equal. destruct b; reflexivity.
Qed.

(** The loop over the leading zeros stops at the set bit. *)
Lemma uvlc_zeros_break z : forall left num_zeros r rest,
  wf r -> stream r = repeat false z ++ true :: rest ->
  (z <= left)%nat -> num_zeros + Z.of_nat z <= MAX_UVLC_LEADING_ZEROS ->
  exists r1, uvlc_zeros left num_zeros r
             = Ok (Break (num_zeros + Z.of_nat z), r1) /\
             wf r1 /\ stream r1 = rest.
Proof.
  induction z as [|z IH]; intros left num_zeros r rest Hwf Hs Hleft Hmax.
  - destruct (get_bit_ok r true rest Hwf Hs) as (r1 & E & Hwf1 & Hs1).
    exists r1. split; [|auto].
    destruct left; cbn [uvlc_zeros]; rewrite E; cbn;
      now rewrite Z.add_0_r.
  - cbn [repeat app] in Hs.
    destruct (get_bit_ok r false _ Hwf Hs) as (r1 & E & Hwf1 & Hs1).
    destruct left as [|left]; [lia|].
    destruct (IH left (num_zeros + 1) r1 rest Hwf1 Hs1) as (r2 & E2 & H2);
      [lia|lia|].
    exists r2. split; [|exact H2].
    cbn [uvlc_zeros]. rewrite E. cbn [bind Z.b2z].
    rewrite Z.eqb_refl.
    destruct (Z.ltb_spec MAX_UVLC_LEADING_ZEROS (num_zeros + 1)); [lia|].
    rewrite E2. do 3 f_equal. lia.
Qed.

(** With more zeros than allowed, the loop returns the sentinel after
    the bit that exceeds the bound. *)
Lemma uvlc_zeros_error z : forall left num_zeros r rest,
  wf r -> stream r = repeat false z ++ rest ->
  (z <= S left)%nat -> (0 < z)%nat ->
  num_zeros + Z.of_nat z = MAX_UVLC_LEADING_ZEROS + 1 ->
  exists r1, uvlc_zeros left num_zeros r = Ok (ReturnError, r1) /\
             wf r1 /\ stream r1 = rest.
Proof.
  induction z as [|z IH]; intros left num_zeros r rest Hwf Hs Hleft Hz Hmax;
    [lia|].
  cbn [repeat app] in Hs.
  destruct (get_bit_ok r false _ Hwf Hs) as (r1 & E & Hwf1 & Hs1).
  destruct z as [|z].
  - exists r1. split; [|auto].
    destruct left; cbn [uvlc_zeros]; rewrite E; cbn [bind Z.b2z];
      rewrite Z.eqb_refl;
      (destruct (Z.ltb_spec MAX_UVLC_LEADING_ZEROS (num_zeros + 1));
       [reflexivity|lia]).
  - destruct left as [|left]; [lia|].
    destruct (IH left (num_zeros + 1) r1 rest Hwf1 Hs1) as (r2 & E2 & H2);
      [lia|lia|lia|].
    exists r2. split; [|exact H2].
    cbn [uvlc_zeros]. rewrite E. cbn [bind Z.b2z].
    rewrite Z.eqb_refl.
    destruct (Z.ltb_spec MAX_UVLC_LEADING_ZEROS (num_zeros + 1)); [lia|].
    exact E2.
Qed.

(** Decoding a code word of at most 20 leading zeros. *)
Lemma get_uvlc_word z offset_bits r rest :
  wf r -> (z <= 20)%nat -> List.length offset_bits = z ->
  stream r = ue_word z offset_bits ++ rest ->
  exists r', get_uvlc r
             = Ok (bits_val offset_bits + 2 ^ Z.of_nat z - 1, r') /\
             wf r' /\ stream r' = rest.
Proof.
  intros Hwf Hz Hlen Hs. unfold ue_word in Hs.
  rewrite <- app_assoc, <- app_comm_cons in Hs.
  destruct (uvlc_zeros_break z (Z.to_nat MAX_UVLC_LEADING_ZEROS) 0 r
              (offset_bits ++ rest) Hwf Hs)
    as (r1 & E1 & Hwf1 & Hs1);
    [unfold MAX_UVLC_LEADING_ZEROS; lia
    |unfold MAX_UVLC_LEADING_ZEROS; lia|].
  unfold get_uvlc. rewrite E1. cbn [bind Z.add].
  destruct z as [|z].
  - destruct offset_bits; [|discriminate].
    exists r1. cbn. auto.
  - destruct (Z.ltb_spec 0 (Z.of_nat (S z))); [|lia].
    pose proof (length_stream r1 Hwf1) as Hl. rewrite Hs1 in Hl.
    unfold len in Hl. rewrite length_app, Hlen in Hl.
    destruct (get_bits_ok (Z.of_nat (S z)) r1 Hwf1)
      as (r2 & E2 & Hwf2 & Hs2 & _); [lia|lia|].
    rewrite Nat2Z.id, Hs1 in E2, Hs2.
    rewrite firstn_app, Hlen, Nat.sub_diag, firstn_O, app_nil_r in E2.
    rewrite firstn_all2 in E2 by lia.
    rewrite skipn_app, Hlen, Nat.sub_diag, skipn_O in Hs2.
    rewrite skipn_all2 in Hs2 by lia.
    rewrite E2. cbn [bind]. unfold py_lshift.
    destruct (Z.ltb_spec (Z.of_nat (S z)) 0); [lia|]. cbn [bind].
    rewrite Z.shiftl_1_l.
    exists r2. auto.
Qed.

Lemma ue_encode_word z offset_bits :
  List.length offset_bits = z ->
  ue_encode (bits_val offset_bits + 2 ^ Z.of_nat z - 1)
  = ue_word z offset_bits.
Proof.
  intros Hlen. unfold ue_encode, ue_word.
  pose proof (bits_val_range offset_bits) as Hr. rewrite Hlen in Hr.
  assert (Hp : 0 < 2 ^ Z.of_nat z) by (apply Z.pow_pos_nonneg; lia).
  replace (bits_val offset_bits + 2 ^ Z.of_nat z - 1 + 1)
    with (2 ^ Z.of_nat z + bits_val offset_bits) by lia.
  assert (Hlog : Z.log2 (2 ^ Z.of_nat z + bits_val offset_bits) = Z.of_nat z).
  { apply Z.log2_unique; [lia|].
    rewrite Z.pow_succ_r by lia. lia. }
  rewrite Hlog, Nat2Z.id. f_equal.
  cbn [bits_of_Z]. f_equal.
  - apply Z.b2z_inj. rewrite Z.testbit_spec' by lia.
    replace (2 ^ Z.of_nat z + bits_val offset_bits)
      with (1 * 2 ^ Z.of_nat z + bits_val offset_bits) by lia.
    rewrite Z.div_add_l, Z.div_small by lia. reflexivity.
  - rewrite <- bits_of_Z_mod.
    replace (2 ^ Z.of_nat z + bits_val offset_bits)
      with (bits_val offset_bits + 1 * 2 ^ Z.of_nat z) by lia.
    rewrite Z.mod_add, Z.mod_small by lia.
    rewrite <- Hlen. apply bits_of_Z_bits_val.
Qed.

Lemma ue_encode_parts v :
  0 <= v ->
  let z := Z.to_nat (Z.log2 (v + 1)) in
  ue_encode v = ue_word z (bits_of_Z z (v + 1)) /\
  bits_val (bits_of_Z z (v + 1)) + 2 ^ Z.of_nat z - 1 = v.
Proof.
  intros Hv z.
  pose proof (Z.log2_nonneg (v + 1)) as Hl0.
  destruct (Z.log2_spec (v + 1)) as [Hlo Hhi]; [lia|].
  assert (Hz : Z.of_nat z = Z.log2 (v + 1)) by (subst z; lia).
  split.
  - unfold ue_encode, ue_word. fold z. f_equal.
    cbn [bits_of_Z]. f_equal. rewrite Hz. apply Z.bit_log2. lia.
  - rewrite bits_val_bits_of_Z, Hz.
    rewrite Z.pow_succ_r in Hhi by lia.
    replace (v + 1) with ((v + 1 - 2 ^ Z.log2 (v + 1))
                          + 1 * 2 ^ Z.log2 (v + 1)) at 1 by lia.
    rewrite Z.mod_add, Z.mod_small by lia. lia.
Qed.

End Golomb.

Section GolombBounds.

Lemma refill_loop_raises fuel : forall r e,
  refill_loop fuel r = Raise e -> e = IndexError.
Proof.
  induction fuel as [|fuel IH]; intros r e; cbn [refill_loop];
    [discriminate|].
  destruct (refill_cond r); [|discriminate].
  unfold refill_body, py_index.
  destruct (_ || _); cbn [bind]; [congruence|].
  destruct (nth_error _ _); cbn [bind]; [apply IH|congruence].
Qed.

Lemma get_bits_raises n r e :
  get_bits n r = Raise e -> e = ValueError \/ e = IndexError.
Proof.
  unfold get_bits, refill_if_short, refill, py_rshift, py_lshift.
  destruct (nextbits_cnt r <? n).
  - destruct (refill_loop _ r) as [r1|e1] eqn:E; cbn [bind].
    + repeat (destruct (_ <? 0); cbn [bind]); try discriminate;
        intros [= <-]; auto.
    + intros [= <-]. right. eapply refill_loop_raises; eauto.
  - cbn [bind].
    repeat (destruct (_ <? 0); cbn [bind]); try discriminate;
      intros [= <-]; auto.
Qed.

(** What [get_bits] returns fits in [n] bits, whatever the reader. *)
Lemma get_bits_value_range n r v r' :
  get_bits n r = Ok (v, r') -> 0 <= n /\ 0 <= v < 2 ^ n.
Proof.
  unfold get_bits, py_rshift, py_lshift.
  destruct (refill_if_short n r) as [r1|]; cbn [bind]; [|discriminate].
  destruct (nextbits_cnt r1 - n <? 0); cbn [bind]; [discriminate|].
  destruct (Z.ltb_spec n 0); cbn [bind]; [discriminate|].
  intros [= <- _]. split; [lia|].
  rewrite land_low_mask by lia.
  apply Z.mod_pos_bound, Z.pow_pos_nonneg; lia.
Qed.

Lemma uvlc_zeros_break_range left : forall num_zeros r z r1,
  uvlc_zeros left num_zeros r = Ok (Break z, r1) ->
  0 <= num_zeros <= MAX_UVLC_LEADING_ZEROS ->
  num_zeros <= z <= MAX_UVLC_LEADING_ZEROS.
Proof.
  induction left as [|left IH]; intros num_zeros r z r1;
    cbn [uvlc_zeros];
    destruct (get_bits 1 r) as [[b r0]|]; cbn [bind]; try discriminate;
    destruct (b =? 0);
    try (intros [= <- _]; lia);
    destruct (Z.ltb_spec MAX_UVLC_LEADING_ZEROS (num_zeros + 1));
    try discriminate.
  intros E Hn. apply IH in E; lia.
Qed.

(** The bound of the modelled loop is never reached. *)
Lemma uvlc_zeros_bound left : forall num_zeros r,
  MAX_UVLC_LEADING_ZEROS <= num_zeros + Z.of_nat left ->
  uvlc_zeros left num_zeros r <> Raise LoopBound.
Proof.
  induction left as [|left IH]; intros num_zeros r Hb;
    cbn [uvlc_zeros];
    destruct (get_bits 1 r) as [[b r0]|e] eqn:E; cbn [bind];
    try (apply get_bits_raises in E; destruct E; subst; discriminate);
    destruct (b =? 0); try discriminate;
    destruct (Z.ltb_spec MAX_UVLC_LEADING_ZEROS (num_zeros + 1));
    try discriminate.
  - lia.
  - apply IH. lia.
Qed.

Lemma get_uvlc_terminates r : get_uvlc r <> Raise LoopBound.
Proof.
  unfold get_uvlc.
  pose proof (uvlc_zeros_bound (Z.to_nat MAX_UVLC_LEADING_ZEROS) 0 r) as Hb.
  destruct (uvlc_zeros _ 0 r) as [[[|z] r1]|e]; cbn [bind];
    [discriminate| |intros [= ->]; apply Hb; [reflexivity|reflexivity]].
  destruct (0 <? z); cbn [bind]; [|discriminate].
  destruct (get_bits z r1) as [[o r2]|e] eqn:E; cbn [bind].
  - unfold py_lshift. destruct (z <? 0); discriminate.
  - apply get_bits_raises in E. destruct E; subst; discriminate.
Qed.

End GolombBounds.

(** C3: [get_uvlc] inverts the canonical code.  Over a code word of [z]
    zeros ([z <= 20]), the set bit and a [z]-bit offset it returns
    [offset + 2^z - 1] (which is 0 when [z = 0]) and consumes exactly the
    word; re-encoding the result gives the word back.  Hence decoding
    the code word of any [v] in [0, 2^16) returns [v]. *)
Theorem get_uvlc_inverts_ue_encode :
  (forall (z : nat) (offset_bits : list bool) (r : BitReader)
          (rest : list bool),
      (z <= 20)%nat -> List.length offset_bits = z -> wf r ->
      stream r = ue_word z offset_bits ++ rest ->
      exists r' value,
        get_uvlc r = Ok (value, r') /\
        value = bits_val offset_bits + 2 ^ Z.of_nat z - 1 /\
        (z = 0%nat -> value = 0) /\
        stream r' = rest /\
        ue_encode value = ue_word z offset_bits) /\
  (forall (v : Z) (r : BitReader) (rest : list bool),
      0 <= v < 2 ^ 16 -> wf r -> stream r = ue_encode v ++ rest ->
      exists r', get_uvlc r = Ok (v, r') /\ wf r' /\ stream r' = rest).
Proof.
  split.
  - intros z offset_bits r rest Hz Hlen Hwf Hs.
    destruct (get_uvlc_word z offset_bits r rest Hwf Hz Hlen Hs)
      as (r' & E & _ & Hs').
    exists r'. eexists. split; [exact E|]. split; [reflexivity|].
    split; [|split; [exact Hs'|now apply ue_encode_word]].
    intros ->. destruct offset_bits; [reflexivity|discriminate].
  - intros v r rest Hv Hwf Hs.
    destruct (ue_encode_parts v) as [Henc Hval]; [lia|].
    set (z := Z.to_nat (Z.log2 (v + 1))) in *.
    assert (Hz : (z <= 20)%nat).
    { assert (Hl : Z.log2 (v + 1) <= Z.log2 (2 ^ 16))
        by (apply Z.log2_le_mono; lia).
      rewrite Z.log2_pow2 in Hl by lia. subst z. lia. }
    rewrite Henc in Hs.
    destruct (get_uvlc_word z _ r rest Hwf Hz (length_bits_of_Z _ _) Hs)
      as (r' & E & Hwf' & Hs').
    rewrite Hval in E. exists r'. auto.
Qed.

Lemma get_uvlc_inverts_ue_encode_witness :
  0 <= 22 < 2 ^ 16 /\ wf reader_0b_ff /\
  stream reader_0b_ff = ue_encode 22 ++ repeat true 7 /\
  exists r', get_uvlc reader_0b_ff = Ok (22, r') /\ wf r' /\
             stream r' = repeat true 7.
Proof.
  split; [lia|]. split; [reflexivity|]. split; [reflexivity|].
  apply (proj2 get_uvlc_inverts_ue_encode 22 reader_0b_ff (repeat true 7));
    [lia|reflexivity|reflexivity].
Defined.

(** C4: when the next bits start with more than 20 zeros, [get_uvlc]
    returns the sentinel [UVLC_ERROR] after the 21st zero, neither
    raising nor running on, and [get_svlc] returns the same sentinel. *)
Theorem get_uvlc_leading_zero_cap (r : BitReader) (z : nat)
  (rest : list bool) :
  wf r -> (20 < z)%nat -> stream r = repeat false z ++ rest ->
  exists r', get_uvlc r = Ok (UVLC_ERROR, r') /\
             get_svlc r = Ok (UVLC_ERROR, r') /\
             stream r' = repeat false (z - 21) ++ rest.
Proof.
  intros Hwf Hz Hs.
  replace z with (21 + (z - 21))%nat in Hs by lia.
  rewrite repeat_app, <- app_assoc in Hs.
  destruct (uvlc_zeros_error 21 (Z.to_nat MAX_UVLC_LEADING_ZEROS) 0 r _
              Hwf Hs) as (r' & E & _ & Hs');
    [unfold MAX_UVLC_LEADING_ZEROS; lia|lia|reflexivity|].
  assert (Eu : get_uvlc r = Ok (UVLC_ERROR, r'))
    by (unfold get_uvlc; rewrite E; reflexivity).
  exists r'. split; [exact Eu|]. split; [|exact Hs'].
  unfold get_svlc. rewrite Eu. reflexivity.
Qed.

Lemma get_uvlc_leading_zero_cap_witness :
  wf reader_24_zeros /\ (20 < 24)%nat /\
  stream reader_24_zeros = repeat false 24 ++ true :: repeat false 7 /\
  exists r', get_uvlc reader_24_zeros = Ok (UVLC_ERROR, r') /\
             get_svlc reader_24_zeros = Ok (UVLC_ERROR, r') /\
             stream r' = repeat false (24 - 21) ++ true :: repeat false 7.
Proof.
  split; [reflexivity|]. split; [lia|]. split; [reflexivity|].
  apply (get_uvlc_leading_zero_cap reader_24_zeros 24
           (true :: repeat false 7)); [reflexivity|lia|reflexivity].
Defined.

(** C10: whenever [get_uvlc] returns, the value is the sentinel
    [UVLC_ERROR] or lies between 0 and [2^21 - 2]; the sentinel is
    negative, so it is none of the decodable values. *)
Theorem get_uvlc_result_range (r r' : BitReader) (v : Z) :
  get_uvlc r = Ok (v, r') ->
  (v = UVLC_ERROR \/ 0 <= v <= 2 ^ 21 - 2) /\
  UVLC_ERROR < 0 /\ ~ (0 <= UVLC_ERROR <= 2 ^ 21 - 2).
Proof.
  intros E. split; [|unfold UVLC_ERROR; lia].
  unfold get_uvlc in E.
  destruct (uvlc_zeros _ 0 r) as [[[|z] r1]|] eqn:Ez; cbn [bind] in E;
    [left; congruence| |discriminate].
  right.
  apply uvlc_zeros_break_range in Ez; [|unfold MAX_UVLC_LEADING_ZEROS; lia].
  unfold MAX_UVLC_LEADING_ZEROS in Ez.
  destruct (Z.ltb_spec 0 z) as [Hz|Hz].
  - destruct (get_bits z r1) as [[o r2]|] eqn:Eo; cbn [bind] in E;
      [|discriminate].
    apply get_bits_value_range in Eo. unfold py_lshift in E.
    destruct (Z.ltb_spec z 0); [lia|]. cbn [bind] in E.
    injection E as <- _. rewrite Z.shiftl_1_l.
    assert (2 ^ z <= 2 ^ 20) by (apply Z.pow_le_mono_r; lia).
    change (2 ^ 21) with (2 * 2 ^ 20). lia.
  - cbn [bind] in E. injection E as <- _. lia.
Qed.

Lemma get_uvlc_result_range_witness :
  get_uvlc reader_0b_ff = Ok (22, reader_0b_ff_after) /\
  (22 = UVLC_ERROR \/ 0 <= 22 <= 2 ^ 21 - 2) /\
  UVLC_ERROR < 0 /\ ~ (0 <= UVLC_ERROR <= 2 ^ 21 - 2).
Proof.
  split; [vm_compute; reflexivity|].
  apply (get_uvlc_result_range reader_0b_ff reader_0b_ff_after 22).
  vm_compute. reflexivity.
Defined.

(** ** The SEI field decoder *)

Section Decoder.

Lemma get_bits_cases n r :
  wf r -> 0 <= n <= 57 ->
  (exists v r', get_bits n r = Ok (v, r') /\
                v = bits_val (firstn (Z.to_nat n) (stream r)) /\
                holds_bits n v /\ wf r' /\
                stream r' = skipn (Z.to_nat n) (stream r) /\
                bits_left r' = bits_left r - n /\ n <= bits_left r) \/
  (get_bits n r = Raise ValueError /\ bits_left r < n).
Proof.
  intros Hwf Hn. destruct (Z.le_gt_cases n (bits_left r)) as [Hle|Hgt].
  - left. destruct (get_bits_ok n r Hwf Hn Hle) as (r' & E & Hwf' & Hs & _ & Hb).
    do 2 eexists. split; [exact E|]. split; [reflexivity|].
    split; [eapply get_bits_value_range; exact E|auto].
  - right. split; [apply get_bits_short; auto; lia|lia].
Qed.

Ltac read_step :=
  match goal with
  | Hwf : wf ?r |- context [get_bits ?n ?r] =>
      let v := fresh "v" in
      let r' := fresh "r" in
      let E := fresh "E" in
      let Ev := fresh "Ev" in
      let Hv := fresh "Hv" in
      let Hwf' := fresh "Hwf" in
      let Hs := fresh "Hs" in
      let Hb := fresh "Hb" in
      let Hle := fresh "Hle" in
      destruct (get_bits_cases n r Hwf ltac:(lia))
        as [(v & r' & E & Ev & Hv & Hwf' & Hs & Hb & Hle) | (E & Hle)];
      rewrite E; cbn [bind]; clear E
  end.

Lemma read_fov_cases acc r :
  wf r ->
  (exists arr r', read_fov acc r = Ok (arr, r') /\
                  List.length arr = S (List.length acc) /\ wf r' /\
                  bits_left r' = bits_left r - 72 /\ 72 <= bits_left r) \/
  (read_fov acc r = Raise ValueError /\ bits_left r < 72).
Proof.
  intros Hwf. unfold read_fov.
  do 9 (read_step; [|right; split; [reflexivity|lia]]).
  left. do 2 eexists. split; [reflexivity|].
  rewrite length_app. cbn [List.length].
  repeat split; auto; lia.
Qed.

Lemma read_fovs_cases k : forall acc r,
  wf r ->
  (exists arr r', read_fovs k acc r = Ok (arr, r') /\
                  List.length arr = (List.length acc + k)%nat /\ wf r' /\
                  bits_left r' = bits_left r - 72 * Z.of_nat k /\
                  72 * Z.of_nat k <= bits_left r) \/
  (read_fovs k acc r = Raise ValueError /\ bits_left r < 72 * Z.of_nat k).
Proof.
  induction k as [|k IH]; intros acc r Hwf; cbn [read_fovs].
  - left. exists acc, r. pose proof (wf_inv r Hwf).
    unfold bits_left. repeat split; auto; lia.
  - destruct (read_fov_cases acc r Hwf)
      as [(arr & r1 & E & Hlen & Hwf1 & Hb & Hle) | (E & Hlt)];
      rewrite E; cbn [bind]; [|right; split; [reflexivity|lia]].
    destruct (IH arr r1 Hwf1)
      as [(arr' & r2 & E2 & Hlen2 & Hwf2 & Hb2 & Hle2) | (E2 & Hlt2)];
      rewrite E2; [left|right; split; [reflexivity|lia]].
    exists arr', r2. repeat split; auto; lia.
Qed.

Lemma get_byte_ok r b rest :
  wf r -> stream r = bits_of_Z 8 (byte_val b) ++ rest ->
  exists r1, get_bits 8 r = Ok (byte_val b, r1) /\ wf r1 /\
             stream r1 = rest /\ bits_left r1 = bits_left r - 8.
Proof.
  intros Hwf Hs.
  pose proof (length_stream r Hwf) as Hl. rewrite Hs in Hl.
  unfold len in Hl. rewrite length_app, length_bits_of_Z in Hl.
  destruct (get_bits_ok 8 r Hwf) as (r1 & E & Hwf1 & Hs1 & _ & Hb);
    [lia|lia|].
  rewrite Hs in E, Hs1.
  change (Z.to_nat 8) with (List.length (bits_of_Z 8 (byte_val b)) + 0)%nat
    in E, Hs1.
  rewrite firstn_app_2, firstn_O, app_nil_r, bits_val_bits_of_Z in E.
  rewrite skipn_app, Nat.add_0_r, skipn_all, Nat.sub_diag in Hs1.
  rewrite Z.mod_small in E by apply byte_val_range.
  exists r1. auto.
Qed.

Lemma chr_byte_val b : chr (byte_val b) = ascii_of_byte b.
Proof.
  unfold chr, byte_val. now rewrite N2Z.id, ascii_of_byte_via_N.
Qed.

Lemma string_app_assoc (a b c : string) :
  ((a ++ b) ++ c)%string = (a ++ (b ++ c))%string.
Proof. induction a; cbn; congruence. Qed.

Lemma string_app_empty_r (a : string) : (a ++ EmptyString)%string = a.
Proof. induction a; cbn; congruence. Qed.

(** The tag loop returns the string of the next bytes. *)
Lemma read_uuid_bytes bs : forall uuid r rest,
  wf r -> stream r = bytes_bits bs ++ rest ->
  exists r1, read_uuid (List.length bs) uuid r
             = Ok ((uuid ++ string_of_list_byte bs)%string, r1) /\
             wf r1 /\ stream r1 = rest /\
             bits_left r1 = bits_left r - 8 * len bs.
Proof.
  induction bs as [|b bs IH]; intros uuid r rest Hwf Hs.
  - exists r. cbn [List.length read_uuid].
    change (string_of_list_byte []) with EmptyString.
    rewrite string_app_empty_r. repeat split; auto.
    unfold len. cbn. lia.
  - change (bytes_bits (b :: bs))
      with (bits_of_Z 8 (byte_val b) ++ bytes_bits bs) in Hs.
    rewrite <- app_assoc in Hs.
    destruct (get_byte_ok r b _ Hwf Hs) as (r1 & E & Hwf1 & Hs1 & Hb1).
    destruct (IH (uuid ++ String (chr (byte_val b)) EmptyString)%string
                r1 rest Hwf1 Hs1) as (r2 & E2 & Hwf2 & Hs2 & Hb2).
    exists r2. cbn [List.length read_uuid]. rewrite E. cbn [bind].
    rewrite E2, string_app_assoc, chr_byte_val.
    repeat split; auto.
    unfold len in *. cbn [List.length]. lia.
Qed.

Lemma read_uuid_short k : forall uuid r,
  wf r -> bits_left r < 8 * Z.of_nat k ->
  read_uuid k uuid r = Raise ValueError.
Proof.
  induction k as [|k IH]; intros uuid r Hwf Hlt.
  - pose proof (wf_inv r Hwf). unfold bits_left in Hlt. lia.
  - cbn [read_uuid]. read_step; [|reflexivity].
    apply IH; auto. lia.
Qed.

Lemma read_uuid_cases k : forall uuid r,
  wf r ->
  (exists s r1, read_uuid k uuid r = Ok (s, r1) /\ wf r1) \/
  read_uuid k uuid r = Raise ValueError.
Proof.
  induction k as [|k IH]; intros uuid r Hwf; cbn [read_uuid].
  - left. eauto.
  - read_step; [apply IH; auto|now right].
Qed.

(** The field block: it is read to the end when the reader holds the
    112 bits of the fixed fields and 72 bits per declared camera, and
    the read raises otherwise. *)
Lemma read_sei_fields_cases uuid r :
  wf r ->
  (exists sei fovs r',
      read_sei_fields uuid r = Ok (Some sei, fovs, r') /\
      uuid_string sei = uuid /\ populated sei /\
      camera_number sei = declared_cameras (stream r) /\
      len fovs = camera_number sei /\
      112 + 72 * declared_cameras (stream r) <= bits_left r) \/
  (read_sei_fields uuid r = Raise ValueError /\
   bits_left r < 112 + 72 * declared_cameras (stream r)).
Proof.
  intros Hwf.
  assert (Hcn : 0 <= declared_cameras (stream r))
    by apply bits_val_range.
  unfold read_sei_fields.
  do 19 (read_step; [|right; split; [reflexivity|lia]]).
  assert (Ecn : v0 = declared_cameras (stream r)).
  { unfold declared_cameras. rewrite Ev0, Hs. reflexivity. }
  match goal with
  | |- context [read_fovs ?k ?acc ?r0] =>
      destruct (read_fovs_cases k acc r0 ltac:(assumption))
        as [(arr & r' & E & Hlen & Hwf' & Hb' & Hle') | (E & Hlt)];
      rewrite E; cbn [bind]
  end.
  - left. do 3 eexists. split; [reflexivity|].
    cbn [uuid_string camera_number]. split; [reflexivity|].
    split; [|split; [exact Ecn|split]].
    + unfold populated, set_to_bits.
      cbn [stitching_layout camera_number camera_model
           camera_resolution_x camera_resolution_y
           video_resolution_x video_resolution_y texture_padding_size
           background_texture_flag background_depth_flag
           arrangement_flag horizontal_half_fov].
      repeat match goal with |- _ /\ _ => split end;
        try assumption; eauto.
    + unfold len. rewrite Hlen. cbn [List.length].
      unfold holds_bits in Hv0. lia.
    + unfold holds_bits in Hv0. lia.
  - right. split; [reflexivity|].
    unfold holds_bits in Hv0. lia.
Qed.

End Decoder.

Lemma tag_eqb_bytes bs :
  String.eqb (string_of_list_byte bs) extension_tag = true <-> bs = tag_bytes.
Proof.
  rewrite String.eqb_eq. unfold tag_bytes. split.
  - intros <-. symmetry. apply list_byte_of_string_of_list_byte.
  - intros ->. apply string_of_list_byte_of_string.
Qed.

(** C5 fails as stated: over the 16 bytes of the tag alone the tag
    matches, yet no record is returned, the read of the first field
    raises [ValueError]; an empty buffer raises as well. *)
Lemma read_sei_6dof_tag_only_raises :
  (r <- BitReader_init tag_bytes ;;
   '(uuid, _) <- read_uuid 16 EmptyString r ;;
   Ok (String.eqb uuid extension_tag)) = Ok true /\
  (r <- BitReader_init tag_bytes ;; read_sei_6dof r) = Raise ValueError /\
  (r <- BitReader_init [] ;; read_sei_6dof r) = Raise ValueError.
Proof. repeat split; vm_compute; reflexivity. Qed.

(** C5, amended: the decoder has three outcomes and exposes no
    partially filled record.  Whenever it returns, the result is either
    a valid record with every field populated and exactly
    [camera_number] rectangles, or the not-found pair [(None, [])].  It
    returns not-found when the next 16 bytes differ from the tag; it
    returns the record when they are the tag and 112 + 72 *
    [camera_number] further bits are left (an empty sequence for zero
    cameras); it raises [ValueError] when fewer than 128 bits are left
    or the tag is followed by fewer bits than that. *)
Theorem read_sei_6dof_all_or_nothing (r : BitReader) :
  wf r ->
  match read_sei_6dof r with
  | Ok (Some sei, fovs, _) =>
      is_valid sei = true /\ populated sei /\ len fovs = camera_number sei
  | Ok (None, fovs, _) => fovs = []
  | Raise e => e = ValueError
  end /\
  (bits_left r < 128 -> read_sei_6dof r = Raise ValueError) /\
  (forall bs rest,
      stream r = bytes_bits bs ++ rest -> List.length bs = 16%nat ->
      (bs <> tag_bytes -> exists r', read_sei_6dof r = Ok (None, [], r')) /\
      (bs = tag_bytes ->
       (112 + 72 * declared_cameras rest <= len rest ->
        exists sei fovs r',
          read_sei_6dof r = Ok (Some sei, fovs, r') /\
          is_valid sei = true /\ populated sei /\
          camera_number sei = declared_cameras rest /\
          len fovs = declared_cameras rest /\
          (declared_cameras rest = 0 -> fovs = [])) /\
       (len rest < 112 + 72 * declared_cameras rest ->
        read_sei_6dof r = Raise ValueError))).
Proof.
  intros Hwf. split; [|split].
  - unfold read_sei_6dof.
    destruct (read_uuid_cases 16 EmptyString r Hwf)
      as [(s & r1 & E & Hwf1) | E]; rewrite E; cbn [bind]; [|reflexivity].
    destruct (String.eqb s extension_tag) eqn:Etag; cbn [negb];
      [|reflexivity].
    destruct (read_sei_fields_cases s r1 Hwf1)
      as [(sei & fovs & r' & E' & Hu & Hp & _ & Hl & _) | (E' & _)];
      rewrite E'; [|reflexivity].
    unfold is_valid. rewrite Hu. auto.
  - intros Hlt. unfold read_sei_6dof.
    rewrite (read_uuid_short 16 EmptyString r Hwf) by (cbn; lia).
    reflexivity.
  - intros bs rest Hs Hlen.
    destruct (read_uuid_bytes bs EmptyString r rest Hwf Hs)
      as (r1 & E & Hwf1 & Hs1 & _).
    rewrite Hlen in E. cbn [String.append] in E.
    pose proof (length_stream r1 Hwf1) as Hl1. rewrite Hs1 in Hl1.
    unfold read_sei_6dof. rewrite E. cbn [bind].
    split.
    + intros Hne.
      destruct (String.eqb (string_of_list_byte bs) extension_tag) eqn:Etag.
      * apply tag_eqb_bytes in Etag. contradiction.
      * cbn [negb]. eauto.
    + intros Heq. apply tag_eqb_bytes in Heq. rewrite Heq. cbn [negb].
      destruct (read_sei_fields_cases (string_of_list_byte bs) r1 Hwf1)
        as [(sei & fovs & r' & E' & Hu & Hp & Hc & Hf & Hle) | (E' & Hlt)];
        rewrite Hs1 in *; split; intros Hrest; try lia.
      * exists sei, fovs, r'. split; [exact E'|].
        unfold is_valid. rewrite Hu.
        split; [exact Heq|]. split; [exact Hp|]. split; [exact Hc|].
        split; [congruence|].
        intros H0. rewrite Hc, H0 in Hf.
        destruct fovs; [reflexivity|]. unfold len in Hf. cbn in Hf. lia.
      * exact E'.
Qed.

Lemma read_sei_6dof_all_or_nothing_witness :
  wf reader_scenario /\
  exists sei fovs r',
    read_sei_6dof reader_scenario = Ok (Some sei, fovs, r') /\
    is_valid sei = true /\ populated sei /\
    camera_number sei = 1 /\ len fovs = 1.
Proof.
  split; [reflexivity|].
  destruct (read_sei_6dof_all_or_nothing reader_scenario eq_refl)
    as (_ & _ & H).
  destruct (H tag_bytes (bytes_bits scenario_fields) eq_refl eq_refl)
    as (_ & Htag).
  destruct (Htag eq_refl) as (Hok & _).
  assert (Hroom : 112 + 72 * declared_cameras (bytes_bits scenario_fields)
                  <= len (bytes_bits scenario_fields))
    by (apply Z.leb_le; vm_compute; reflexivity).
  destruct (Hok Hroom) as (sei & fovs & r' & E & Hv & Hp & Hc & Hf & _).
  exists sei, fovs, r'.
  split; [exact E|]. split; [exact Hv|]. split; [exact Hp|].
  split; [exact Hc|exact Hf].
Defined.

(** The scenario decodes to the record and the rectangle it encodes. *)
Example read_sei_6dof_scenario :
  (r <- BitReader_init (tag_bytes ++ scenario_fields) ;;
   '(sei, fovs, _) <- read_sei_6dof r ;;
   Ok (option_map (fun s => (stitching_layout s, camera_number s,
                             camera_resolution_x s, camera_resolution_y s,
                             texture_padding_size s, horizontal_half_fov s))
                  sei, fovs))
  = Ok (Some (Some 1, 1, 1920, 1080, 4, 90),
        [ {| fov_id := 1; fov_x := 0; fov_y := 0;
             fov_width := 960; fov_height := 1080 |} ]).
Proof. vm_compute. reflexivity. Qed.

(** ** The TS demuxer *)

Section DemuxPacket.

Lemma py_index_nonneg p i :
  0 <= i ->
  py_index p i = if i <? len p then Ok (byte_at p (Z.to_nat i))
                 else Raise IndexError.
Proof.
  intros Hi. unfold py_index, byte_at.
  destruct (Z.ltb_spec i 0); [lia|].
  destruct (Z.ltb_spec i 0); [lia|].
  destruct (Z.leb_spec (len p) i), (Z.ltb_spec i (len p)); try lia;
    cbn [orb]; [reflexivity|].
  rewrite (nth_error_nth' p x00) by (unfold len in *; lia).
  reflexivity.
Qed.

Lemma packet_pid_spec p :
  3 <= len p -> packet_pid p = Ok (pid_of p).
Proof.
  intros Hl. unfold packet_pid, pid_of.
  rewrite !py_index_nonneg by lia.
  destruct (Z.ltb_spec 1 (len p)); [|lia].
  destruct (Z.ltb_spec 2 (len p)); [|lia]. cbn [bind]. f_equal.
  change (Z.to_nat 1) with 1%nat. change (Z.to_nat 2) with 2%nat.
  change 0x1F with (Z.ones 5). rewrite Z.land_ones by lia.
  rewrite lor_shiftl_small; [reflexivity|lia|].
  apply byte_val_range.
Qed.

Lemma demux_step_skip nal started p :
  carries_payload p = false ->
  demux_step (nal, started) p = (nal, started).
Proof.
  intros H. unfold demux_step, is_unit_start, payload_of. rewrite H.
  cbn. now rewrite app_nil_r, orb_false_r.
Qed.

(** The loop body does what the format says, or an index is out of
    range; the latter needs a chunk that is not [chunk_ok]. *)
Lemma demux_packet_cases st p :
  match demux_packet st p with
  | Ok st' => st' = demux_step st p
  | Raise e => e = IndexError /\ chunk_ok p = false
  end.
Proof.
  destruct st as [nal started]. unfold demux_packet.
  rewrite (py_index_nonneg p 0) by lia.
  destruct (Z.ltb_spec 0 (len p)) as [H0|H0]; cbn [bind].
  2:{ split; [reflexivity|]. unfold chunk_ok.
      destruct (Z.leb_spec 1 (len p)); [lia|reflexivity]. }
  change (Z.to_nat 0) with 0%nat. fold (has_sync p).
  destruct (has_sync p) eqn:Hsync; cbn [negb].
  2:{ rewrite demux_step_skip; [reflexivity|].
      unfold carries_payload. now rewrite Hsync. }
  assert (Hshort : len p < 5 -> chunk_ok p = false).
  { intros Hl. unfold chunk_ok. rewrite Hsync. cbn [negb orb].
    destruct (Z.leb_spec 5 (len p)); [lia|]. apply andb_false_r. }
  destruct (Z.lt_ge_cases (len p) 3) as [H3|H3].
  { unfold packet_pid. rewrite !py_index_nonneg by lia.
    destruct (Z.ltb_spec 1 (len p)); cbn [bind];
      [|split; [reflexivity|apply Hshort; lia]].
    destruct (Z.ltb_spec 2 (len p)); [lia|]. cbn [bind].
    split; [reflexivity|apply Hshort; lia]. }
  rewrite packet_pid_spec by exact H3. cbn [bind].
  fold (has_target_pid p).
  destruct (has_target_pid p) eqn:Hpid; cbn [negb].
  2:{ rewrite demux_step_skip; [reflexivity|].
      unfold carries_payload. rewrite Hpid. now rewrite andb_false_r. }
  rewrite (py_index_nonneg p 1), (py_index_nonneg p 3) by lia.
  destruct (Z.ltb_spec 1 (len p)); [|lia]. cbn [bind].
  destruct (Z.ltb_spec 3 (len p)) as [H4|H4]; cbn [bind];
    [|split; [reflexivity|apply Hshort; lia]].
  change (Z.to_nat 1) with 1%nat. change (Z.to_nat 3) with 3%nat.
  fold (has_adaptation_field p). fold (has_unit_start_flag p).
  assert (Hoff :
    match (if has_adaptation_field p
           then b4 <- py_index p 4 ;; Ok (4 + (1 + b4))
           else Ok 4) with
    | Ok off => off = payload_offset p
    | Raise e => e = IndexError /\ len p < 5
    end).
  { unfold payload_offset. destruct (has_adaptation_field p);
      [|reflexivity].
    rewrite py_index_nonneg by lia.
    destruct (Z.ltb_spec 4 (len p)); cbn [bind]; [|split; [reflexivity|lia]].
    change (Z.to_nat 4) with 4%nat. lia. }
  destruct (if has_adaptation_field p
            then b4 <- py_index p 4 ;; Ok (4 + (1 + b4))
            else Ok 4) as [off|e]; cbn [bind];
    [subst off|destruct Hoff as [-> Hlt]; split; [reflexivity|auto]].
  assert (Hoff0 : 4 <= payload_offset p).
  { unfold payload_offset. pose proof (byte_val_range (nth 4 p x00)).
    unfold byte_at. destruct (has_adaptation_field p); lia. }
  destruct (Z.leb_spec TS_PACKET_SIZE (payload_offset p)) as [Hbig|Hsmall].
  { rewrite demux_step_skip; [reflexivity|].
    unfold carries_payload.
    destruct (Z.ltb_spec (payload_offset p) TS_PACKET_SIZE); [lia|].
    apply andb_false_r. }
  assert (Hcarry : carries_payload p = true).
  { unfold carries_payload. rewrite Hsync, Hpid.
    destruct (Z.ltb_spec (payload_offset p) TS_PACKET_SIZE);
      [reflexivity|lia]. }
  unfold demux_step, is_unit_start, payload_of. rewrite Hcarry.
  cbn [fst snd andb].
  destruct (has_unit_start_flag p) eqn:Hpusi; cbn [negb andb].
  - fold (has_pes_header p).
    destruct (has_pes_header p) eqn:Hpes.
    + rewrite py_index_nonneg by lia.
      destruct (Z.ltb_spec (payload_offset p + 8) (len p)) as [Hin|Hout];
        cbn [bind].
      * rewrite orb_true_r. unfold pes_header_size.
        change 0x0F with (Z.ones 4). rewrite Z.land_ones by lia.
        destruct started; now rewrite <- ?app_assoc.
      * split; [reflexivity|]. unfold chunk_ok, pes_header_cut.
        rewrite Hsync, Hpes. cbn [negb orb andb].
        destruct (Z.leb_spec (len p) (payload_offset p + 8)); [|lia].
        cbn [negb]. now rewrite andb_false_r, andb_false_r.
    + cbn [bind]. rewrite orb_true_r.
      destruct started; now rewrite <- ?app_assoc.
  - rewrite orb_false_r. reflexivity.
Qed.

End DemuxPacket.

Section DemuxStream.

Lemma demux_loop_packets ts idx st :
  demux_loop ts idx st
  = demux_packets (map (fun i => py_slice ts i (i + TS_PACKET_SIZE)) idx) st.
Proof.
  revert st. induction idx as [|i idx IH]; intros st; [reflexivity|].
  cbn [demux_loop demux_packets map].
  destruct (demux_packet st _); cbn [bind]; auto.
Qed.

Lemma extract_packets ts :
  extract_h265_nal_from_ts ts
  = '(nal_data, _) <- demux_packets (ts_packets ts) ([], false) ;;
    Ok nal_data.
Proof.
  unfold extract_h265_nal_from_ts, ts_packets.
  now rewrite demux_loop_packets.
Qed.

Lemma py_range_step_in stop i :
  In i (py_range_step stop TS_PACKET_SIZE) -> 0 <= i < stop.
Proof.
  unfold py_range_step, TS_PACKET_SIZE. rewrite in_map_iff.
  intros (k & <- & Hk). apply in_seq in Hk.
  assert (Hq : Z.of_nat k < (stop + 188 - 1) / 188).
  { destruct (Z.le_gt_cases ((stop + 188 - 1) / 188) 0); lia. }
  pose proof (Z.mul_div_le (stop + 188 - 1) 188). lia.
Qed.


Lemma py_range_step_next n :
  0 <= n ->
  py_range_step (TS_PACKET_SIZE + n) TS_PACKET_SIZE
  = 0 :: map (Z.add TS_PACKET_SIZE) (py_range_step n TS_PACKET_SIZE).
Proof.
  intros Hn. unfold py_range_step, TS_PACKET_SIZE.
  replace (188 + n + 188 - 1) with (1 * 188 + (n + 188 - 1)) by lia.
  rewrite Z.div_add_l by lia.
  assert (0 <= (n + 188 - 1) / 188) by (apply Z.div_pos; lia).
  rewrite Z2Nat.inj_add by lia. change (Z.to_nat 1) with 1%nat.
  cbn [Nat.add seq map]. f_equal.
  rewrite <- seq_shift, !map_map. apply map_ext. intros k. lia.
Qed.

Lemma ts_packets_app p s :
  len p = TS_PACKET_SIZE -> ts_packets (p ++ s) = p :: ts_packets s.
Proof.
  intros Hp. unfold ts_packets.
  replace (len (p ++ s)) with (TS_PACKET_SIZE + len s)
    by (unfold len in *; rewrite length_app; lia).
  rewrite py_range_step_next by (unfold len; lia).
  cbn [map]. unfold len, TS_PACKET_SIZE in Hp. f_equal.
  - unfold py_slice, TS_PACKET_SIZE. cbn [Z.to_nat skipn].
    replace (Z.to_nat (0 + 188 - 0)) with (List.length p + 0)%nat by lia.
    now rewrite firstn_app_2, firstn_O, app_nil_r.
  - rewrite map_map. apply map_ext_in. intros i Hi.
    apply py_range_step_in in Hi. unfold py_slice, TS_PACKET_SIZE.
    replace (Z.to_nat (188 + i)) with (List.length p + Z.to_nat i)%nat
      by lia.
    rewrite skipn_app, skipn_all2 by lia.
    replace (List.length p + Z.to_nat i - List.length p)%nat
      with (Z.to_nat i) by lia.
    cbn [app]. f_equal. lia.
Qed.

(** A buffer of whole packets is cut into these packets. *)
Lemma ts_packets_concat ps :
  Forall (fun p => len p = TS_PACKET_SIZE) ps -> ts_packets (List.concat ps) = ps.
Proof.
  induction 1 as [|p ps Hp _ IH]; [reflexivity|].
  cbn [List.concat]. rewrite ts_packets_app by exact Hp. now rewrite IH.
Qed.

(** The loop over the chunks against the steps of the format. *)
Lemma demux_packets_cases ps : forall st,
  match demux_packets ps st with
  | Ok st' => st' = fold_left demux_step ps st
  | Raise e => e = IndexError /\ forallb chunk_ok ps = false
  end.
Proof.
  induction ps as [|p ps IH]; intros st; cbn [demux_packets]; [reflexivity|].
  pose proof (demux_packet_cases st p) as Hp.
  destruct (demux_packet st p) as [st1|e]; cbn [bind fold_left forallb].
  - subst st1. specialize (IH (demux_step st p)).
    destruct (demux_packets ps _); [exact IH|].
    destruct IH as [-> ->]. split; [reflexivity|apply andb_false_r].
  - destruct Hp as [-> ->]. split; reflexivity.
Qed.

Lemma demux_packet_skips st p :
  1 <= len p -> negb (has_sync p) || ((3 <=? len p) && negb (has_target_pid p)) = true ->
  demux_packet st p = Ok st.
Proof.
  intros H1 Hskip. destruct st as [nal started]. unfold demux_packet.
  rewrite (py_index_nonneg p 0) by lia.
  destruct (Z.ltb_spec 0 (len p)); [|lia]. cbn [bind].
  change (Z.to_nat 0) with 0%nat. fold (has_sync p).
  destruct (has_sync p); cbn [negb orb] in *; [|reflexivity].
  apply andb_true_iff in Hskip. destruct Hskip as [H3 Hpid].
  apply Z.leb_le in H3. rewrite packet_pid_spec by exact H3.
  cbn [bind]. fold (has_target_pid p). now rewrite Hpid.
Qed.

End DemuxStream.

(** ** Truncated input *)




Example extract_truncated_stream :
  extract_h265_nal_from_ts truncated_stream
  = Ok (bytes_of ([1; 2; 3] ++ repeat 0xFF 181 ++ [4; 5; 6; 7; 8; 9])) /\
  extract_h265_nal_from_ts [] = Ok [] /\
  extract_h265_nal_from_ts (bytes_of [0x46; 1; 2]) = Ok [].
Proof. repeat split; vm_compute; reflexivity. Qed.

(** ** Start codes at unit boundaries *)

Section StartCodes.

(** [expected_output] for a loop that is entered with the flag
    [started]. *)
Let output_from (started : bool) (ps : list (list byte)) : list byte :=
  List.concat
    (map (fun i =>
            (if is_unit_start (nth i ps []) && (started || unit_start_seen ps i)
             then start_code else []) ++ payload_of (nth i ps []))
         (seq 0 (List.length ps))).

Lemma fold_demux_step_output ps : forall nal started,
  fst (fold_left demux_step ps (nal, started))
  = nal ++ output_from started ps.
Proof.
  induction ps as [|p ps IH]; intros nal started.
  - cbn. now rewrite app_nil_r.
  - cbn [fold_left]. unfold demux_step at 2. cbn [fst snd].
    rewrite IH. unfold output_from. cbn [List.length seq map List.concat nth].
    unfold unit_start_seen at 2. cbn [firstn existsb].
    rewrite orb_false_r, <- !app_assoc. do 3 f_equal.
    rewrite <- seq_shift, map_map. f_equal. apply map_ext. intros i.
    cbn [nth]. unfold unit_start_seen. cbn [firstn existsb].
    now rewrite orb_assoc.
Qed.

Lemma fold_demux_step_expected ps :
  fst (fold_left demux_step ps ([], false)) = expected_output ps.
Proof. rewrite fold_demux_step_output. reflexivity. Qed.

End StartCodes.

(** C7: for every stream, what the demuxer returns is, packet by
    packet, the payload of each packet it takes payload from, preceded
    by exactly [00 00 01] at each detected unit start except the first
    one; it returns unless an index is out of range. *)
Theorem extract_inserts_start_codes (ts_stream : list byte) :
  match extract_h265_nal_from_ts ts_stream with
  | Ok nal_data => nal_data = expected_output (ts_packets ts_stream)
  | Raise e =>
      e = IndexError /\ forallb chunk_ok (ts_packets ts_stream) = false
  end.
Proof.
  rewrite extract_packets.
  pose proof (demux_packets_cases (ts_packets ts_stream) ([], false)) as H.
  destruct (demux_packets _ _) as [[nal started]|e]; cbn [bind]; [|exact H].
  rewrite <- fold_demux_step_expected, <- H. reflexivity.
Qed.

(** Three units of one packet each and a continuation: a start code
    before the second and the third unit, none before the first. *)
Example extract_three_units :
  extract_h265_nal_from_ts
    (make_packet 0x100 true [1] ++ make_packet 0x100 true [2]
     ++ make_packet 0x100 false [3] ++ make_packet 0x100 true [4])
  = Ok (bytes_of ([1] ++ repeat 0xFF 183
                  ++ [0; 0; 1] ++ [2] ++ repeat 0xFF 183
                  ++ [3] ++ repeat 0xFF 183
                  ++ [0; 0; 1] ++ [4] ++ repeat 0xFF 183)).
Proof. vm_compute. reflexivity. Qed.

(** ** Selection by program identifier *)

Section Selection.

Lemma demux_step_contribution st p :
  exists piece,
    contribution_of p piece /\
    demux_step st p = (fst st ++ piece, snd st || is_unit_start p).
Proof.
  unfold demux_step, contribution_of.
  destruct (has_target_pid p) eqn:Hpid.
  - eexists. split; [|reflexivity].
    destruct (_ && _); cbn [app]; auto.
  - assert (Hc : carries_payload p = false)
      by (unfold carries_payload; rewrite Hpid;
          now rewrite andb_false_r).
    exists []. split; [reflexivity|].
    unfold is_unit_start, payload_of. rewrite Hc. reflexivity.
Qed.

Lemma fold_demux_step_contributions ps : forall st,
  exists pieces,
    Forall2 contribution_of ps pieces /\
    fst (fold_left demux_step ps st) = fst st ++ List.concat pieces.
Proof.
  induction ps as [|p ps IH]; intros st.
  - exists []. split; [constructor|]. cbn. now rewrite app_nil_r.
  - destruct (demux_step_contribution st p) as (piece & Hc & E).
    destruct (IH (demux_step st p)) as (pieces & Hf & Hout).
    exists (piece :: pieces). split; [now constructor|].
    cbn [fold_left List.concat]. rewrite Hout, E. cbn [fst].
    now rewrite app_assoc.
Qed.

(** Whole packets of another identifier leave the loop state alone. *)
Lemma demux_packets_filter ps : forall st,
  Forall (fun p => len p = TS_PACKET_SIZE) ps ->
  demux_packets ps st = demux_packets (filter has_target_pid ps) st.
Proof.
  induction ps as [|p ps IH]; intros st Hall; [reflexivity|].
  inversion Hall as [|? ? Hp Hps]; subst.
  cbn [filter]. destruct (has_target_pid p) eqn:Hpid.
  - cbn [demux_packets]. destruct (demux_packet st p); cbn [bind]; auto.
  - cbn [demux_packets]. rewrite demux_packet_skips.
    + cbn [bind]. auto.
    + unfold TS_PACKET_SIZE in Hp. lia.
    + rewrite Hpid. destruct (Z.leb_spec 3 (len p));
        [apply orb_true_r|unfold TS_PACKET_SIZE in Hp; lia].
Qed.

Lemma Forall_filter_len (ps : list (list byte)) f :
  Forall (fun p => len p = TS_PACKET_SIZE) ps ->
  Forall (fun p => len p = TS_PACKET_SIZE) (filter f ps).
Proof.
  intros H. apply Forall_forall. intros p Hp. apply filter_In in Hp.
  rewrite Forall_forall in H. now apply H.
Qed.

End Selection.

(** C6: over a buffer of whole 188-byte packets, the packets of other
    identifiers than 0x100 change nothing: the result is that of the
    target packets alone, in their order.  An output is exactly what the
    target packets hold as payload, packet after packet in their order,
    with a start code at each unit start but the first; packet by
    packet of the buffer, it is one piece per packet, empty for a packet
    of another identifier, the payload bytes (after a start code or not)
    for a target packet.  The demuxer returns unless an index is out of
    range in a target packet. *)
Theorem extract_selects_target_pid (ps : list (list byte)) :
  Forall (fun p => len p = TS_PACKET_SIZE) ps ->
  extract_h265_nal_from_ts (List.concat ps)
  = extract_h265_nal_from_ts (List.concat (filter has_target_pid ps)) /\
  match extract_h265_nal_from_ts (List.concat ps) with
  | Ok nal_data =>
      nal_data = expected_output (filter has_target_pid ps) /\
      exists pieces,
        Forall2 contribution_of ps pieces /\ nal_data = List.concat pieces
  | Raise e =>
      e = IndexError /\
      forallb chunk_ok (filter has_target_pid ps) = false
  end.
Proof.
  intros Hall.
  assert (Hsel : extract_h265_nal_from_ts (List.concat ps)
                 = extract_h265_nal_from_ts
                     (List.concat (filter has_target_pid ps))).
  { rewrite !extract_packets.
    rewrite !ts_packets_concat by auto using Forall_filter_len.
    now rewrite demux_packets_filter by exact Hall. }
  split; [exact Hsel|].
  assert (Htarget :
    match extract_h265_nal_from_ts (List.concat ps) with
    | Ok nal_data => nal_data = expected_output (filter has_target_pid ps)
    | Raise e =>
        e = IndexError /\
        forallb chunk_ok (filter has_target_pid ps) = false
    end).
  { rewrite Hsel, extract_packets.
    rewrite ts_packets_concat by auto using Forall_filter_len.
    pose proof (demux_packets_cases (filter has_target_pid ps) ([], false))
      as H.
    destruct (demux_packets _ _) as [[nal started]|e]; cbn [bind];
      [|exact H].
    rewrite <- fold_demux_step_expected, <- H. reflexivity. }
  revert Htarget. rewrite extract_packets.
  rewrite ts_packets_concat by exact Hall.
  pose proof (demux_packets_cases ps ([], false)) as H.
  destruct (demux_packets ps _) as [[nal started]|e]; cbn [bind];
    [|auto].
  intros Htarget. split; [exact Htarget|].
  destruct (fold_demux_step_contributions ps ([], false))
    as (pieces & Hf & Hout).
  exists pieces. split; [exact Hf|]. rewrite <- H in Hout. exact Hout.
Qed.

Lemma extract_selects_target_pid_witness :
  Forall (fun p => len p = TS_PACKET_SIZE) interleaved_packets /\
  extract_h265_nal_from_ts (List.concat interleaved_packets)
  = extract_h265_nal_from_ts
      (List.concat (filter has_target_pid interleaved_packets)) /\
  match extract_h265_nal_from_ts (List.concat interleaved_packets) with
  | Ok nal_data =>
      nal_data = expected_output (filter has_target_pid interleaved_packets) /\
      exists pieces,
        Forall2 contribution_of interleaved_packets pieces /\
        nal_data = List.concat pieces
  | Raise e =>
      e = IndexError /\
      forallb chunk_ok (filter has_target_pid interleaved_packets) = false
  end.
Proof.
  assert (H : Forall (fun p => len p = TS_PACKET_SIZE) interleaved_packets)
    by (repeat constructor).
  split; [exact H|].
  apply (extract_selects_target_pid interleaved_packets H).
Defined.

Example extract_interleaved :
  extract_h265_nal_from_ts (List.concat interleaved_packets)
  = Ok (bytes_of ([1] ++ repeat 0xFF 183 ++ [3] ++ repeat 0xFF 183)).
Proof. vm_compute. reflexivity. Qed.

(** ** No packet of the target identifier *)




(** ** The other operations of the reader *)

Section ReaderOps.

Lemma bit_position_bits_left r :
  wf r -> bit_position r = 8 * len (data r) - bits_left r.
Proof.
  intros Hwf. apply wf_inv in Hwf. unfold bit_position, bits_left. lia.
Qed.

Lemma in_sync_advance r r' n :
  in_sync r -> wf r' -> data r' = data r ->
  bits_left r' = bits_left r - n -> 0 <= n ->
  stream r' = skipn (Z.to_nat n) (stream r) ->
  in_sync r' /\ bit_position r' = bit_position r + n.
Proof.
  intros (Hwf & Hpos & Hs) Hwf' Hd Hb Hn Hs'.
  assert (Hp : bit_position r' = bit_position r + n).
  { rewrite !bit_position_bits_left by assumption. rewrite Hd, Hb. lia. }
  split; [|exact Hp]. split; [exact Hwf'|]. split; [lia|].
  rewrite Hs', Hs, skipn_skipn, Hd, Hp. f_equal. lia.
Qed.

Lemma skipn_bytes_bits k s :
  skipn (8 * k) (bytes_bits s) = bytes_bits (skipn k s).
Proof.
  revert s. induction k as [|k IH]; intros s; [reflexivity|].
  destruct s as [|b s]; [reflexivity|].
  replace (8 * S k)%nat with (8 * k + 8)%nat by lia.
  change (bytes_bits (b :: s)) with (bits_of_Z 8 (byte_val b) ++ bytes_bits s).
  rewrite <- skipn_skipn.
  change (skipn 8 (bits_of_Z 8 (byte_val b) ++ bytes_bits s))
    with (bytes_bits s).
  apply IH.
Qed.

Lemma get_bits_after_refill n r r1 :
  refill_if_short n r = Ok r1 -> n <= nextbits_cnt r1 ->
  get_bits n r1 = get_bits n r.
Proof.
  intros E Hn. unfold get_bits at 1 2. rewrite E. unfold refill_if_short.
  destruct (Z.ltb_spec (nextbits_cnt r1) n); [lia|]. reflexivity.
Qed.

Lemma skip_bits_as_get_bits n r :
  0 <= n -> skip_bits n r = '(_, r') <- get_bits n r ;; Ok r'.
Proof.
  intros Hn. unfold skip_bits, get_bits, py_rshift, py_lshift.
  destruct (refill_if_short n r) as [r1|]; cbn [bind]; [|reflexivity].
  destruct (Z.ltb_spec n 0); [lia|].
  destruct (nextbits_cnt r1 - n <? 0); reflexivity.
Qed.

End ReaderOps.

(** X1: [BitReader(buffer)] never raises; the new reader has delivered
    nothing, holds the whole buffer as its bit string, and has pulled
    the first 8 bytes (all of them when the buffer is shorter) into its
    accumulator. *)
Theorem BitReader_init_buffers (buffer : list byte) :
  exists r,
    BitReader_init buffer = Ok r /\ in_sync r /\ bit_position r = 0 /\
    stream r = bytes_bits buffer /\
    nextbits_cnt r = 8 * Z.min 8 (len buffer) /\
    byte_pos r = Z.min 8 (len buffer).
Proof.
  unfold BitReader_init.
  match goal with |- context [refill ?r0] =>
    destruct (refill_spec r0) as (r & E & Hwf & Hs & Hd & Hb & Hex & _);
    [apply wf_intro; cbn [data bytes_remaining nextbits_cnt byte_pos nextbits];
     unfold len; lia|]
  end.
  cbn [data] in Hd. unfold bits_left at 2 in Hb.
  cbn [bytes_remaining nextbits_cnt] in Hb.
  assert (Hpos : bit_position r = 0)
    by (rewrite bit_position_bits_left, Hd, Hb by exact Hwf; lia).
  exists r. split; [exact E|]. split; [|split; [exact Hpos|split; [exact Hs|]]].
  - split; [exact Hwf|]. split; [lia|]. rewrite Hpos, Hs, Hd. reflexivity.
  - pose proof (wf_inv r Hwf) as (Hc & _ & Hp & Hr & Hlen).
    unfold bit_position in Hpos. unfold bits_left in Hb. rewrite Hd in Hlen.
    lia.
Qed.

(** X2: [peek_bits] looks without consuming.  With at least [n <= 57]
    bits left it returns the next [n] bits, leaves the bit string as it
    was, and a [get_bits] of the same width after it returns what it
    would have returned before; with fewer bits left it raises
    [ValueError]. *)
Theorem peek_bits_keeps_stream (r : BitReader) (n : Z) :
  wf r -> 0 <= n <= 57 ->
  (n <= bits_left r ->
   exists r1,
     peek_bits n r = Ok (bits_val (firstn (Z.to_nat n) (stream r)), r1) /\
     wf r1 /\ stream r1 = stream r /\ get_bits n r1 = get_bits n r) /\
  (bits_left r < n -> peek_bits n r = Raise ValueError).
Proof.
  intros Hwf Hn. split.
  - intros Hleft.
    destruct (refill_if_short_spec n r Hwf) as (r1 & E & Hwf1 & Hs & _ & _ & Hc);
      [lia|exact Hleft|].
    destruct (get_bits_ok n r Hwf Hn Hleft) as (r' & Eg & _).
    exists r1. split; [|split; [exact Hwf1|split; [exact Hs|]]].
    + unfold get_bits in Eg. unfold peek_bits. rewrite E in *.
      cbn [bind] in *. unfold py_rshift, py_lshift in *.
      destruct (nextbits_cnt r1 - n <? 0); cbn [bind] in *; [discriminate|].
      destruct (n <? 0); cbn [bind] in *; [discriminate|].
      injection Eg as Ev _. now rewrite Ev.
    + now apply get_bits_after_refill.
  - intros Hlt.
    destruct (refill_if_short_exhausted n r Hwf Hlt) as (r1 & E & Hc).
    unfold peek_bits. rewrite E. cbn [bind]. unfold py_rshift.
    destruct (Z.ltb_spec (nextbits_cnt r1 - n) 0); [reflexivity|lia].
Qed.

Lemma peek_bits_keeps_stream_witness :
  wf reader_mid_byte /\ 0 <= 6 <= 57 /\
  (6 <= bits_left reader_mid_byte ->
   exists r1,
     peek_bits 6 reader_mid_byte
     = Ok (bits_val (firstn (Z.to_nat 6) (stream reader_mid_byte)), r1) /\
     wf r1 /\ stream r1 = stream reader_mid_byte /\
     get_bits 6 r1 = get_bits 6 reader_mid_byte) /\
  (bits_left reader_mid_byte < 6 ->
   peek_bits 6 reader_mid_byte = Raise ValueError).
Proof.
  split; [reflexivity|]. split; [lia|].
  apply (peek_bits_keeps_stream reader_mid_byte 6); [reflexivity|lia].
Defined.

(** X3: [skip_bits n] moves the reader exactly as [get_bits n] does:
    with at least [n <= 57] bits left it drops the next [n] bits and
    ends in the state [get_bits] ends in; with fewer bits left it
    raises [ValueError]. *)
Theorem skip_bits_drops (r : BitReader) (n : Z) :
  wf r -> 0 <= n <= 57 ->
  (n <= bits_left r ->
   exists v r',
     skip_bits n r = Ok r' /\ get_bits n r = Ok (v, r') /\ wf r' /\
     stream r' = skipn (Z.to_nat n) (stream r) /\
     bits_left r' = bits_left r - n) /\
  (bits_left r < n -> skip_bits n r = Raise ValueError).
Proof.
  intros Hwf Hn. rewrite skip_bits_as_get_bits by lia. split.
  - intros Hleft.
    destruct (get_bits_ok n r Hwf Hn Hleft) as (r' & E & Hwf' & Hs & _ & Hb).
    do 2 eexists. rewrite E. cbn [bind]. repeat split; auto.
  - intros Hlt. rewrite get_bits_short by assumption. reflexivity.
Qed.

Lemma skip_bits_drops_witness :
  wf reader_mid_byte /\ 0 <= 6 <= 57 /\
  (6 <= bits_left reader_mid_byte ->
   exists v r',
     skip_bits 6 reader_mid_byte = Ok r' /\
     get_bits 6 reader_mid_byte = Ok (v, r') /\ wf r' /\
     stream r' = skipn (Z.to_nat 6) (stream reader_mid_byte) /\
     bits_left r' = bits_left reader_mid_byte - 6) /\
  (bits_left reader_mid_byte < 6 ->
   skip_bits 6 reader_mid_byte = Raise ValueError).
Proof.
  split; [reflexivity|]. split; [lia|].
  apply (skip_bits_drops reader_mid_byte 6); [reflexivity|lia].
Defined.

Section Alignment.

(** Aligning a reader that is in step with its buffer. *)
Lemma skip_to_byte_boundary_spec r :
  in_sync r ->
  exists r',
    skip_to_byte_boundary r = Ok r' /\ in_sync r' /\
    nextbits_cnt r' mod 8 = 0 /\
    bit_position r' = bit_position r + nextbits_cnt r mod 8 /\
    stream r' = skipn (Z.to_nat (nextbits_cnt r mod 8)) (stream r).
Proof.
  intros Hsync. pose proof Hsync as (Hwf & Hpos & Hs).
  pose proof (wf_inv r Hwf) as (Hc & _).
  pose proof (Z.mod_pos_bound (nextbits_cnt r) 8 ltac:(lia)) as Hm.
  pose proof (Z.mod_le (nextbits_cnt r) 8 ltac:(lia) ltac:(lia)) as Hle.
  unfold skip_to_byte_boundary.
  destruct (Z.ltb_spec 0 (nextbits_cnt r mod 8)) as [Hnz|Hz].
  - rewrite skip_bits_as_get_bits by lia.
    assert (Hleft : nextbits_cnt r mod 8 <= bits_left r)
      by (apply wf_inv in Hwf; unfold bits_left; lia).
    destruct (get_bits_ok (nextbits_cnt r mod 8) r Hwf)
      as (r' & E & Hwf' & Hs' & Hd & Hb); [lia|exact Hleft|].
    rewrite E. cbn [bind]. exists r'. split; [reflexivity|].
    destruct (in_sync_advance r r' (nextbits_cnt r mod 8))
      as [Hsync' Hp']; auto; [lia|].
    repeat split; auto; try apply Hsync'.
    pose proof (wf_inv r Hwf) as (_ & _ & _ & _ & Hlen).
    pose proof (wf_inv r' Hwf') as (_ & _ & _ & _ & Hlen').
    unfold bit_position in Hp'. unfold bits_left in Hb.
    rewrite Hd in Hlen'.
    apply Z.mod_divide; [lia|].
    exists (nextbits_cnt r / 8 + (byte_pos r' - byte_pos r)).
    pose proof (Z.div_mod (nextbits_cnt r) 8). lia.
  - assert (Hz0 : nextbits_cnt r mod 8 = 0) by lia.
    exists r. rewrite Hz0. repeat split; auto; try apply Hsync. lia.
Qed.

End Alignment.

(** X4: [skip_to_byte_boundary], on a reader that is in step with its
    buffer, never raises: it drops the fewest bits (0 to 7) that bring
    the position to a multiple of 8, and drops none when the position
    already is one. *)
Theorem skip_to_byte_boundary_aligns (r : BitReader) :
  in_sync r ->
  exists r',
    skip_to_byte_boundary r = Ok r' /\ in_sync r' /\
    bit_position r' mod 8 = 0 /\
    bit_position r <= bit_position r' < bit_position r + 8 /\
    stream r'
    = skipn (Z.to_nat (bit_position r' - bit_position r)) (stream r) /\
    (bit_position r mod 8 = 0 -> r' = r).
Proof.
  intros Hsync.
  destruct (skip_to_byte_boundary_spec r Hsync)
    as (r' & E & Hsync' & Hc' & Hp & Hs).
  pose proof (Z.mod_pos_bound (nextbits_cnt r) 8 ltac:(lia)) as Hm.
  exists r'. split; [exact E|]. split; [exact Hsync'|].
  assert (Hal : bit_position r' mod 8 = 0).
  { apply Z.mod_divide in Hc'; [|lia]. destruct Hc' as [q Hq].
    apply Z.mod_divide; [lia|]. exists (byte_pos r' - q).
    unfold bit_position. lia. }
  split; [exact Hal|]. split; [lia|]. split.
  - rewrite Hs. do 2 f_equal. lia.
  - intros H0. unfold skip_to_byte_boundary in E.
    assert (Hz : nextbits_cnt r mod 8 = 0).
    { apply Z.mod_divide in H0; [|lia]. destruct H0 as [q Hq].
      apply Z.mod_divide; [lia|]. exists (byte_pos r - q).
      unfold bit_position in Hq. lia. }
    rewrite Hz in E. cbn in E. congruence.
Qed.

Lemma skip_to_byte_boundary_aligns_witness :
  in_sync reader_mid_byte /\
  exists r',
    skip_to_byte_boundary reader_mid_byte = Ok r' /\ in_sync r' /\
    bit_position r' mod 8 = 0 /\
    bit_position reader_mid_byte <= bit_position r'
      < bit_position reader_mid_byte + 8 /\
    stream r'
    = skipn (Z.to_nat (bit_position r' - bit_position reader_mid_byte))
            (stream reader_mid_byte) /\
    (bit_position reader_mid_byte mod 8 = 0 -> r' = reader_mid_byte).
Proof.
  assert (H : in_sync reader_mid_byte).
  { split; [reflexivity|]. split; [vm_compute; discriminate|reflexivity]. }
  split; [exact H|].
  apply (skip_to_byte_boundary_aligns reader_mid_byte H).
Defined.

(** X5: [prepare_for_CABAC], on a reader that is in step with its
    buffer, never raises and loses no unread byte: it aligns to the
    next byte boundary, empties the accumulator, and moves [byte_pos]
    back to the first byte not delivered, so that the bits still to be
    read are those of the buffer from that byte on. *)
Theorem prepare_for_CABAC_rewinds (r : BitReader) :
  in_sync r ->
  exists r',
    prepare_for_CABAC r = Ok r' /\ in_sync r' /\
    nextbits_cnt r' = 0 /\ nextbits r' = 0 /\
    bit_position r' = 8 * byte_pos r' /\
    bit_position r <= 8 * byte_pos r' < bit_position r + 8 /\
    bytes_remaining r' = len (data r) - byte_pos r' /\
    stream r' = bytes_bits (skipn (Z.to_nat (byte_pos r')) (data r)) /\
    stream r'
    = skipn (Z.to_nat (8 * byte_pos r' - bit_position r)) (stream r).
Proof.
  intros Hsync.
  destruct (skip_to_byte_boundary_spec r Hsync)
    as (r1 & E & (Hwf1 & Hpos1 & Hs1) & Hc1 & Hp1 & Hs).
  pose proof (wf_inv r1 Hwf1) as (Hc & _ & Hbp & Hrem & Hlen).
  pose proof (Z.mod_pos_bound (nextbits_cnt r) 8 ltac:(lia)) as Hm.
  assert (Hd : data r1 = data r).
  { unfold skip_to_byte_boundary in E.
    destruct (0 <? nextbits_cnt r mod 8); [|congruence].
    unfold skip_bits in E.
    destruct (refill_if_short _ r) as [r0|] eqn:E0; cbn [bind] in E;
      [|discriminate].
    unfold py_lshift in E. destruct (_ <? 0); cbn [bind] in E; [discriminate|].
    injection E as <-. cbn [data].
    unfold refill_if_short in E0. destruct (_ <? _); [|congruence].
    destruct Hsync as (Hwf & _).
    destruct (refill_spec r Hwf) as (r2 & E2 & _ & _ & Hd2 & _). congruence. }
  assert (Hdiv : nextbits_cnt r1 = 8 * (nextbits_cnt r1 / 8)).
  { pose proof (Z.div_mod (nextbits_cnt r1) 8). lia. }
  unfold prepare_for_CABAC. rewrite E. cbn [bind].
  set (rewind := nextbits_cnt r1 / 8) in *.
  unfold bit_position in Hpos1.
  assert (Hwf' : wf {| data := data r1;
                       bytes_remaining := bytes_remaining r1 + rewind;
                       byte_pos := byte_pos r1 - rewind;
                       bit_pos := bit_pos r1;
                       nextbits := 0; nextbits_cnt := 0 |}).
  { apply wf_intro;
      cbn [data bytes_remaining nextbits_cnt byte_pos nextbits]; lia. }
  assert (Hstream :
    bytes_bits (skipn (Z.to_nat (byte_pos r1 - rewind)) (data r1))
    = stream r1).
  { rewrite Hs1, <- skipn_bytes_bits. f_equal. unfold bit_position. lia. }
  eexists. split; [reflexivity|].
  unfold in_sync, bit_position, stream.
  cbn [data bytes_remaining nextbits_cnt byte_pos nextbits Z.to_nat
       bits_of_Z app].
  unfold bit_position in Hp1.
  repeat split; try lia; try exact Hwf'.
  - rewrite <- skipn_bytes_bits. f_equal. lia.
  - rewrite Hd in Hlen. lia.
  - now rewrite Hd.
  - rewrite Hstream, Hs. do 2 f_equal. lia.
Qed.

Lemma prepare_for_CABAC_rewinds_witness :
  in_sync reader_mid_byte /\
  exists r',
    prepare_for_CABAC reader_mid_byte = Ok r' /\ in_sync r' /\
    nextbits_cnt r' = 0 /\ nextbits r' = 0 /\
    bit_position r' = 8 * byte_pos r' /\
    bit_position reader_mid_byte <= 8 * byte_pos r'
      < bit_position reader_mid_byte + 8 /\
    bytes_remaining r' = len (data reader_mid_byte) - byte_pos r' /\
    stream r'
    = bytes_bits (skipn (Z.to_nat (byte_pos r')) (data reader_mid_byte)) /\
    stream r'
    = skipn (Z.to_nat (8 * byte_pos r' - bit_position reader_mid_byte))
            (stream reader_mid_byte).
Proof.
  assert (H : in_sync reader_mid_byte).
  { split; [reflexivity|]. split; [vm_compute; discriminate|reflexivity]. }
  split; [exact H|].
  apply (prepare_for_CABAC_rewinds reader_mid_byte H).
Defined.

Section TrailingBits.

Lemma wf_stream_nil r : wf r -> stream r = [] -> bits_left r = 0.
Proof.
  intros Hwf Hs. rewrite <- length_stream by exact Hwf. now rewrite Hs.
Qed.

(** The loop over the trailing bits reads to the end of the buffer or
    to the first set bit. *)
Lemma rbsp_zeros_spec fuel : forall r,
  wf r -> bits_left r <= Z.of_nat fuel ->
  exists r', rbsp_zeros fuel r = Ok (forallb negb (stream r), r') /\
             wf r' /\ (forallb negb (stream r) = true -> stream r' = []).
Proof.
  induction fuel as [|fuel IH]; intros r Hwf Hfuel;
    pose proof (wf_inv r Hwf) as (Hc & _ & _ & Hr & _);
    pose proof (length_stream r Hwf) as Hl;
    destruct (stream r) as [|b l] eqn:Hs.
  - exists r. unfold len in Hl. cbn [List.length] in Hl.
    unfold bits_left in Hl. cbn [rbsp_zeros].
    destruct (Z.ltb_spec 0 (nextbits_cnt r)); [lia|].
    destruct (Z.ltb_spec 0 (bytes_remaining r)); [lia|]. cbn. auto.
  - unfold len in Hl. cbn [List.length] in Hl. lia.
  - exists r. unfold len in Hl. cbn [List.length] in Hl.
    unfold bits_left in Hl. cbn [rbsp_zeros].
    destruct (Z.ltb_spec 0 (nextbits_cnt r)); [lia|].
    destruct (Z.ltb_spec 0 (bytes_remaining r)); [lia|]. cbn. auto.
  - unfold len in Hl. cbn [List.length] in Hl.
    destruct (get_bit_ok r b l Hwf Hs) as (r1 & E & Hwf1 & Hs1).
    assert (Hb1 : bits_left r1 = bits_left r - 1).
    { rewrite <- !length_stream by assumption. rewrite Hs, Hs1.
      unfold len. cbn [List.length]. lia. }
    cbn [rbsp_zeros].
    assert (Hcond : (0 <? nextbits_cnt r) || (0 <? bytes_remaining r) = true).
    { unfold bits_left in Hl. apply orb_true_iff.
      destruct (Z.ltb_spec 0 (nextbits_cnt r)); [now left|].
      destruct (Z.ltb_spec 0 (bytes_remaining r)); [now right|lia]. }
    rewrite Hcond, E. cbn [bind forallb].
    destruct b; cbn [Z.b2z negb Z.eqb andb].
    + exists r1. split; [reflexivity|]. split; [exact Hwf1|discriminate].
    + destruct (IH r1 Hwf1) as (r' & E' & Hwf' & Hend); [lia|].
      rewrite Hs1 in E', Hend. exists r'. auto.
Qed.

End TrailingBits.

(** X6: [check_rbsp_trailing_bits] raises [ValueError] when no bit is
    left; otherwise it returns, and returns [True] exactly when the
    next bit is set and every bit after it up to the end of the buffer
    is zero, in which case it has read the buffer to its end. *)
Theorem check_rbsp_trailing_bits_spec (r : BitReader) :
  wf r ->
  (stream r = [] -> check_rbsp_trailing_bits r = Raise ValueError) /\
  (forall b l,
      stream r = b :: l ->
      exists r',
        check_rbsp_trailing_bits r = Ok (b && forallb negb l, r') /\
        wf r' /\ (b && forallb negb l = true -> stream r' = [])).
Proof.
  intros Hwf. split.
  - intros Hs. unfold check_rbsp_trailing_bits.
    rewrite get_bits_short; [reflexivity|exact Hwf|].
    rewrite (wf_stream_nil r Hwf Hs). lia.
  - intros b l Hs.
    destruct (get_bit_ok r b l Hwf Hs) as (r1 & E & Hwf1 & Hs1).
    unfold check_rbsp_trailing_bits. rewrite E. cbn [bind].
    destruct b; cbn [Z.b2z Z.eqb negb andb].
    + destruct (rbsp_zeros_spec
                  (Z.to_nat (nextbits_cnt r1 + 8 * bytes_remaining r1))
                  r1 Hwf1) as (r' & E' & Hwf' & Hend).
      { pose proof (wf_inv r1 Hwf1). unfold bits_left. lia. }
      rewrite Hs1 in E', Hend. exists r'. auto.
    + exists r1. split; [reflexivity|]. split; [exact Hwf1|discriminate].
Qed.

Lemma check_rbsp_trailing_bits_spec_witness :
  wf reader_trailing /\
  (stream reader_trailing = [] ->
   check_rbsp_trailing_bits reader_trailing = Raise ValueError) /\
  (forall b l,
      stream reader_trailing = b :: l ->
      exists r',
        check_rbsp_trailing_bits reader_trailing
        = Ok (b && forallb negb l, r') /\
        wf r' /\ (b && forallb negb l = true -> stream r' = [])).
Proof.
  split; [reflexivity|].
  apply (check_rbsp_trailing_bits_spec reader_trailing). reflexivity.
Defined.

Example check_rbsp_trailing_bits_runs :
  (r <- BitReader_init [x80; x00] ;;
   '(ok, _) <- check_rbsp_trailing_bits r ;; Ok ok) = Ok true /\
  (r <- BitReader_init [x80; x01] ;;
   '(ok, _) <- check_rbsp_trailing_bits r ;; Ok ok) = Ok false /\
  (r <- BitReader_init [x40] ;;
   '(ok, _) <- check_rbsp_trailing_bits r ;; Ok ok) = Ok false /\
  (r <- BitReader_init [] ;;
   '(ok, _) <- check_rbsp_trailing_bits r ;; Ok ok) = Raise ValueError.
Proof. repeat split; vm_compute; reflexivity. Qed.

Section SignedGolomb.

(** Decoding the code word of any code number of at most 20 leading
    zeros. *)
Lemma get_uvlc_encoded v r rest :
  0 <= v <= 2 ^ 21 - 2 -> wf r -> stream r = ue_encode v ++ rest ->
  exists r', get_uvlc r = Ok (v, r') /\ wf r' /\ stream r' = rest.
Proof.
  intros Hv Hwf Hs.
  destruct (ue_encode_parts v) as [Henc Hval]; [lia|].
  set (z := Z.to_nat (Z.log2 (v + 1))) in *.
  assert (Hz : (z <= 20)%nat).
  { assert (Hl : Z.log2 (v + 1) < 21) by (apply Z.log2_lt_pow2; lia).
    subst z. lia. }
  rewrite Henc in Hs.
  destruct (get_uvlc_word z _ r rest Hwf Hz (length_bits_of_Z _ _) Hs)
    as (r' & E & Hwf' & Hs').
  rewrite Hval in E. exists r'. auto.
Qed.

Lemma get_svlc_of_code k r r' :
  - 2 ^ 20 < k < 2 ^ 20 ->
  get_uvlc r = Ok (se_code k, r') -> get_svlc r = Ok (k, r').
Proof.
  intros Hk E. unfold get_svlc. rewrite E. cbn [bind].
  unfold se_code, UVLC_ERROR.
  destruct (Z.ltb_spec 0 k) as [Hpos|Hneg].
  - destruct (Z.eqb_spec (2 * k - 1) 0); [lia|].
    destruct (Z.eqb_spec (2 * k - 1) (-99999)); [lia|]. cbn [orb].
    change 1 with (Z.ones 1) at 2. rewrite Z.land_ones by lia.
    change (2 ^ 1) with 2.
    replace (2 * k - 1) with (1 + (k - 1) * 2) by lia.
    rewrite Z.mod_add by lia. cbn [Z.modulo Z.eqb]. 
    change (1 mod 2 =? 0) with false. cbn match.
    do 2 f_equal. replace (1 + (k - 1) * 2 + 1) with (k * 2) by lia.
    apply Z.div_mul. lia.
  - destruct (Z.eqb_spec (- 2 * k) 0) as [H0|H0]; cbn [orb].
    + do 2 f_equal. lia.
    + destruct (Z.eqb_spec (- 2 * k) (-99999)); [lia|].
      change 1 with (Z.ones 1). rewrite Z.land_ones by lia.
      change (2 ^ Z.ones 1) with 2.
      replace (- 2 * k) with (- k * 2) by lia.
      rewrite Z.mod_mul by lia. cbn [Z.eqb].
      do 2 f_equal. rewrite Z.div_mul by lia. lia.
Qed.

End SignedGolomb.

(** X7: [get_svlc] inverts the signed exponential-Golomb code: for any
    [k] with [|k| < 2^20], over the code word of its code number
    ([2k - 1] for [k > 0], [-2k] otherwise) it returns [k] and consumes
    exactly the word. *)
Theorem get_svlc_inverts_se_code (k : Z) (r : BitReader) (rest : list bool) :
  - 2 ^ 20 < k < 2 ^ 20 -> wf r ->
  stream r = ue_encode (se_code k) ++ rest ->
  exists r', get_svlc r = Ok (k, r') /\ wf r' /\ stream r' = rest.
Proof.
  intros Hk Hwf Hs.
  destruct (get_uvlc_encoded (se_code k) r rest) as (r' & E & Hwf' & Hs');
    [unfold se_code; destruct (0 <? k) eqn:Hp; lia|exact Hwf|exact Hs|].
  exists r'. split; [|auto]. now apply get_svlc_of_code.
Qed.

Lemma get_svlc_inverts_se_code_witness :
  - 2 ^ 20 < -2 < 2 ^ 20 /\ wf reader_28_ff /\
  stream reader_28_ff
  = ue_encode (se_code (-2)) ++ repeat false 3 ++ repeat true 8 /\
  exists r', get_svlc reader_28_ff = Ok (-2, r') /\ wf r' /\
             stream r' = repeat false 3 ++ repeat true 8.
Proof.
  split; [lia|]. split; [reflexivity|]. split; [reflexivity|].
  apply (get_svlc_inverts_se_code (-2) reader_28_ff);
    [lia|reflexivity|reflexivity].
Defined.

(** X8: the sentinel of [get_svlc] is not reserved.  Over the
    well-formed code word of the code number 199998, which stands for
    -99999, [get_uvlc] returns 199998 and [get_svlc] returns -99999,
    the very value [UVLC_ERROR] it returns for a run of more than 20
    zeros. *)
Theorem get_svlc_sentinel_is_a_value (r : BitReader) (rest : list bool) :
  wf r -> stream r = ue_encode 199998 ++ rest ->
  exists r',
    get_uvlc r = Ok (199998, r') /\ get_svlc r = Ok (UVLC_ERROR, r') /\
    stream r' = rest.
Proof.
  intros Hwf Hs.
  destruct (get_uvlc_encoded 199998 r rest) as (r' & E & _ & Hs');
    [lia|exact Hwf|exact Hs|].
  exists r'. split; [exact E|]. split; [|exact Hs'].
  apply (get_svlc_of_code (-99999)); [lia|exact E].
Qed.

Lemma get_svlc_sentinel_is_a_value_witness :
  wf reader_199998 /\
  stream reader_199998 = ue_encode 199998 ++ repeat false 5 /\
  exists r',
    get_uvlc reader_199998 = Ok (199998, r') /\
    get_svlc reader_199998 = Ok (UVLC_ERROR, r') /\
    stream r' = repeat false 5.
Proof.
  split; [reflexivity|]. split; [vm_compute; reflexivity|].
  apply (get_svlc_sentinel_is_a_value reader_199998 (repeat false 5));
    [reflexivity|vm_compute; reflexivity].
Defined.

(** ** The extension locator and the pipeline *)

Section Locator.

Lemma is_prefix_iff sub s :
  is_prefix sub s = true <-> exists post, s = sub ++ post.
Proof.
  revert s. induction sub as [|a sub IH]; intros s; cbn [is_prefix].
  - split; [intros _; now exists s|reflexivity].
  - destruct s as [|b s].
    + split; [discriminate|intros [post H]; discriminate].
    + rewrite andb_true_iff, IH. split.
      * intros [Hab [post ->]]. apply Byte.byte_dec_bl in Hab. subst.
        now exists post.
      * intros [post H]. injection H as -> ->.
        split; [apply Byte.byte_dec_lb; reflexivity|now exists post].
Qed.

(** [find] returns the offset of the first occurrence, or -1. *)
Lemma bytes_find_spec sub s : forall i,
  (bytes_find sub s i = -1 /\ forall pre post, s <> pre ++ sub ++ post) \/
  (exists pre post,
      s = pre ++ sub ++ post /\ bytes_find sub s i = i + len pre /\
      forall pre' post', s = pre' ++ sub ++ post' -> len pre <= len pre') \/
  i < 0.
Proof.
  induction s as [|a s IH]; intros i;
    (destruct (Z.lt_ge_cases i 0) as [Hi|Hi]; [now right; right|]);
    cbn [bytes_find]; destruct (is_prefix sub _) eqn:Hp.
  - right; left. apply is_prefix_iff in Hp. destruct Hp as [post Hp].
    exists [], post. repeat split; auto.
    + unfold len. cbn. lia.
    + intros. unfold len. cbn [List.length]. lia.
  - left. split; [reflexivity|]. intros pre post H.
    destruct pre; [|discriminate]. cbn [app] in H.
    assert (is_prefix sub [] = true) by (apply is_prefix_iff; eauto).
    congruence.
  - right; left. apply is_prefix_iff in Hp. destruct Hp as [post Hp].
    exists [], post. repeat split; auto.
    + unfold len. cbn. lia.
    + intros. unfold len. cbn [List.length]. lia.
  - assert (Hne : forall pre' post',
               a :: s = pre' ++ sub ++ post' ->
               exists pre'', pre' = a :: pre'' /\ s = pre'' ++ sub ++ post').
    { intros pre' post' H. destruct pre' as [|b pre''].
      - cbn [app] in H.
        assert (is_prefix sub (a :: s) = true)
          by (apply is_prefix_iff; eauto).
        congruence.
      - injection H as <- ->. eauto. }
    destruct (IH (i + 1)) as [[E Hno] | [(pre & post & Hs & E & Hmin) | Hneg]];
      [| |lia].
    + left. split; [exact E|]. intros pre' post' H.
      destruct (Hne _ _ H) as (pre'' & -> & H'). now apply Hno in H'.
    + right; left. exists (a :: pre), post. split; [now rewrite Hs|].
      split.
      * rewrite E. unfold len. cbn [List.length]. lia.
      * intros pre' post' H. destruct (Hne _ _ H) as (pre'' & -> & H').
        apply Hmin in H'. unfold len in *. cbn [List.length]. lia.
Qed.

Lemma find_6dof_extension_cases nal :
  (find_6dof_extension_in_nal nal = None /\
   forall pre post, nal <> pre ++ tag_bytes ++ post) \/
  (exists pre post,
      nal = pre ++ tag_bytes ++ post /\
      find_6dof_extension_in_nal nal = Some (tag_bytes ++ post) /\
      forall pre' post', nal = pre' ++ tag_bytes ++ post' ->
                         len pre <= len pre').
Proof.
  unfold find_6dof_extension_in_nal. fold tag_bytes.
  destruct (bytes_find_spec tag_bytes nal 0)
    as [[E Hno] | [(pre & post & Hs & E & Hmin) | Hneg]]; [| |lia].
  - left. rewrite E. auto.
  - right. exists pre, post. split; [exact Hs|]. split; [|exact Hmin].
    rewrite E. unfold len.
    destruct (Z.eqb_spec (0 + Z.of_nat (List.length pre)) (-1)); [lia|].
    unfold py_slice_from. f_equal.
    replace (Z.to_nat (0 + Z.of_nat (List.length pre)))
      with (List.length pre + 0)%nat by lia.
    rewrite Hs, skipn_app, skipn_all2 by lia.
    replace (List.length pre + 0 - List.length pre)%nat with 0%nat by lia.
    reflexivity.
Qed.

End Locator.

(** X9: [find_6dof_extension_in_nal] returns [None] exactly when the
    16-byte tag occurs nowhere in the buffer; otherwise it returns the
    rest of the buffer from the first occurrence of the tag on, the
    tag included. *)
Theorem find_6dof_extension_first_occurrence (nal_data : list byte) :
  match find_6dof_extension_in_nal nal_data with
  | None => forall pre post, nal_data <> pre ++ tag_bytes ++ post
  | Some found =>
      exists pre post,
        nal_data = pre ++ found /\ found = tag_bytes ++ post /\
        forall pre' post', nal_data = pre' ++ tag_bytes ++ post' ->
                           len pre <= len pre'
  end.
Proof.
  destruct (find_6dof_extension_cases nal_data)
    as [[E Hno] | (pre & post & Hs & E & Hmin)]; rewrite E.
  - exact Hno.
  - exists pre, post. auto.
Qed.

Section Pipeline.

(** The decoder over a reader that stands at the tag. *)
Lemma read_sei_6dof_tagged r rest :
  wf r -> stream r = bytes_bits tag_bytes ++ rest ->
  (112 + 72 * declared_cameras rest <= len rest ->
   exists sei fovs r',
     read_sei_6dof r = Ok (Some sei, fovs, r') /\
     is_valid sei = true /\ populated sei /\
     camera_number sei = declared_cameras rest /\
     len fovs = declared_cameras rest) /\
  (len rest < 112 + 72 * declared_cameras rest ->
   read_sei_6dof r = Raise ValueError).
Proof.
  intros Hwf Hs.
  destruct (read_uuid_bytes tag_bytes EmptyString r rest Hwf Hs)
    as (r1 & E & Hwf1 & Hs1 & _).
  change (List.length tag_bytes) with 16%nat in E.
  cbn [String.append] in E.
  pose proof (length_stream r1 Hwf1) as Hl1. rewrite Hs1 in Hl1.
  assert (Htag : String.eqb (string_of_list_byte tag_bytes) extension_tag
                 = true) by (now apply tag_eqb_bytes).
  unfold read_sei_6dof. rewrite E. cbn [bind]. rewrite Htag. cbn [negb].
  destruct (read_sei_fields_cases (string_of_list_byte tag_bytes) r1 Hwf1)
    as [(sei & fovs & r' & E' & Hu & Hp & Hc & Hf & Hle) | (E' & Hlt)];
    rewrite Hs1 in *; split; intros Hrest; try lia.
  - exists sei, fovs, r'. split; [exact E'|].
    unfold is_valid. rewrite Hu.
    split; [exact Htag|]. split; [exact Hp|]. split; [exact Hc|congruence].
  - exact E'.
Qed.

Lemma bytes_bits_app a b : bytes_bits (a ++ b) = bytes_bits a ++ bytes_bits b.
Proof. unfold bytes_bits. apply flat_map_app. Qed.

End Pipeline.

(** X10: what [process_ts_file] makes of the demuxer's output.  When
    the tag occurs nowhere in it (an empty output included) the result
    is [None].  When it occurs, the tag check of the decoder cannot
    fail: with the 14 bytes of fixed fields and 9 bytes per declared
    camera after the first occurrence of the tag the result is a valid
    record with that many rectangles, and with fewer bytes the call
    raises [ValueError] instead of returning [None]. *)
Theorem process_ts_file_outcomes (data : list byte) (nal_data : list byte) :
  extract_h265_nal_from_ts data = Ok nal_data ->
  match find_6dof_extension_in_nal nal_data with
  | None => process_ts_file data = Ok None
  | Some found =>
      let fields := skipn 16 found in
      let cameras := declared_cameras (bytes_bits fields) in
      (14 + 9 * cameras <= len fields ->
       exists json,
         process_ts_file data = Ok (Some json) /\
         j_is_valid json = true /\ populated (j_sei json) /\
         camera_number (j_sei json) = cameras /\
         len (j_fov_array json) = cameras) /\
      (len fields < 14 + 9 * cameras ->
       process_ts_file data = Raise ValueError)
  end.
Proof.
  intros Eex. unfold process_ts_file, process_ts_file_with. rewrite Eex.
  cbn [bind].
  destruct (find_6dof_extension_cases nal_data)
    as [[E Hno] | (pre & post & Hs & E & Hmin)]; rewrite E.
  - destruct nal_data; reflexivity.
  - assert (Hnal : exists b l, nal_data = b :: l).
    { rewrite Hs. destruct pre; cbn; eauto. }
    destruct Hnal as (b0 & l0 & Hnal). rewrite Hnal.
    change (skipn 16 (tag_bytes ++ post)) with post. cbn zeta.
    change (tag_bytes ++ post) with
      (hd x00 tag_bytes :: tl tag_bytes ++ post) at 1 2.
    cbv beta iota. change (hd x00 tag_bytes :: tl tag_bytes ++ post)
      with (tag_bytes ++ post).
    unfold decode_extension.
    destruct (BitReader_init_spec (tag_bytes ++ post))
      as (r & Er & Hwf & Hsr & _).
    rewrite Er. cbn [bind]. rewrite bytes_bits_app in Hsr.
    destruct (read_sei_6dof_tagged r (bytes_bits post) Hwf Hsr)
      as [Hok Hshort].
    rewrite length_bytes_bits in Hok, Hshort.
    split; intros Hlen.
    + destruct Hok as (sei & fovs & r' & Erd & Hv & Hp & Hc & Hf); [lia|].
      rewrite Erd. cbn [bind].
      exists (convert_to_json sei fovs).
      cbn [convert_to_json j_is_valid j_sei j_fov_array].
      split; [reflexivity|]. split; [exact Hv|]. split; [exact Hp|].
      split; [exact Hc|exact Hf].
    + rewrite Hshort by lia. reflexivity.
Qed.

Lemma process_ts_file_outcomes_witness :
  extract_h265_nal_from_ts scenario_stream = Ok scenario_nal /\
  find_6dof_extension_in_nal scenario_nal = Some scenario_nal /\
  exists json,
    process_ts_file scenario_stream = Ok (Some json) /\
    j_is_valid json = true /\ populated (j_sei json) /\
    camera_number (j_sei json) = 1 /\ len (j_fov_array json) = 1.
Proof.
  assert (Hex : extract_h265_nal_from_ts scenario_stream = Ok scenario_nal)
    by (vm_compute; reflexivity).
  assert (Hfind : find_6dof_extension_in_nal scenario_nal = Some scenario_nal)
    by (vm_compute; reflexivity).
  split; [exact Hex|]. split; [exact Hfind|].
  pose proof (process_ts_file_outcomes scenario_stream scenario_nal Hex) as H.
  rewrite Hfind in H. cbv zeta in H. destruct H as [Hok _].
  assert (Hcn : declared_cameras (bytes_bits (skipn 16 scenario_nal)) = 1)
    by (vm_compute; reflexivity).
  rewrite Hcn in Hok. apply Hok. vm_compute. discriminate.
Defined.

(** The scenario, end to end. *)
Example process_ts_file_scenario :
  process_ts_file scenario_stream
  = Ok (Some
          {| j_is_valid := true;
             j_sei :=
               {| uuid_string := extension_tag;
                  stitching_layout := Some 1;
                  camera_number := 1;
                  camera_model := Some 0;
                  camera_resolution_x := 1920;
                  camera_resolution_y := 1080;
                  video_resolution_x := 1920;
                  video_resolution_y := 1080;
                  texture_padding_size := 4;
                  background_texture_flag := 0;
                  background_depth_flag := Some 0;
                  arrangement_flag := Some 0;
                  horizontal_half_fov := 90;
                  texture_top_left_x := [];
                  texture_top_left_y := [];
                  texture_bottom_right_x := [];
                  texture_bottom_right_y := [] |};
             j_fov_array :=
               [ {| fov_id := 1; fov_x := 0; fov_y := 0;
                    fov_width := 960; fov_height := 1080 |} ] |}).
Proof. vm_compute. reflexivity. Qed.

(** ** The status list *)

Section StatusFacts.

Import InitServer.

Variable V : Type.
Variable truthy : V -> bool.

(** The dictionary [update_global_status] leaves under a URL. *)
Let updated (u : string) (pos off : V) (old : option (item V)) : item V :=
  match old with
  | Some it =>
      {| url := url it;
         current_pos := if truthy pos then pos else current_pos it;
         offset := if truthy off then off else offset it |}
  | None => {| url := u; current_pos := pos; offset := off |}
  end.

Lemma get_global_status_url u (st : status V) it :
  get_global_status u st = Some it -> url it = u.
Proof.
  induction st as [|x st IH]; cbn [get_global_status]; [discriminate|].
  destruct (String.eqb_spec (url x) u); [congruence|exact IH].
Qed.

Lemma get_global_status_app u (st st' : status V) :
  get_global_status u (st ++ st')
  = match get_global_status u st with
    | Some it => Some it
    | None => get_global_status u st'
    end.
Proof.
  induction st as [|x st IH]; cbn [get_global_status app]; [reflexivity|].
  destruct (String.eqb (url x) u); [reflexivity|exact IH].
Qed.

Lemma update_first_found u pos off (st : status V) :
  match update_first truthy u pos off st with
  | Some st' =>
      exists old, get_global_status u st = Some old /\
                  get_global_status u st' = Some (updated u pos off (Some old)) /\
                  map url st' = map url st /\
                  (forall u', u' <> u ->
                              get_global_status u' st' = get_global_status u' st)
  | None => get_global_status u st = None
  end.
Proof.
  induction st as [|x st IH]; cbn [update_first get_global_status];
    [reflexivity|].
  destruct (String.eqb_spec (url x) u) as [Hx|Hx].
  - exists x. cbn [get_global_status url map updated].
    rewrite Hx, String.eqb_refl. repeat split; auto.
    intros u' Hne. destruct (String.eqb_spec u u'); [congruence|reflexivity].
  - destruct (update_first truthy u pos off st) as [st'|];
      cbn [option_map]; [|exact IH].
    destruct IH as (old & Hg & Hg' & Hm & Hf). exists old.
    cbn [get_global_status map].
    destruct (String.eqb_spec (url x) u); [contradiction|].
    repeat split; auto; [now rewrite Hm|].
    intros u' Hne. destruct (String.eqb (url x) u'); auto.
Qed.

End StatusFacts.

(** X11: after [update_global_status(url, current_pos, offset)] the
    list holds a dictionary for that URL, and [get_global_status]
    returns it: the new one when there was none; otherwise the first
    old one, each of its two values replaced only when the new value is
    truthy (so a position or offset of 0 or [None] leaves the stored
    one in place). *)
Theorem get_after_update_global_status (V : Type) (truthy : V -> bool)
  (u : string) (pos off : V) (st : InitServer.status V) :
  InitServer.get_global_status u
    (InitServer.update_global_status truthy u pos off st)
  = Some
      match InitServer.get_global_status u st with
      | Some old =>
          InitServer.mkItem (InitServer.url old)
            (if truthy pos then pos else InitServer.current_pos old)
            (if truthy off then off else InitServer.offset old)
      | None => InitServer.mkItem u pos off
      end.
Proof.
  unfold InitServer.update_global_status.
  pose proof (update_first_found V truthy u pos off st) as H.
  destruct (InitServer.update_first truthy u pos off st) as [st'|].
  - destruct H as (old & Hg & Hg' & _). now rewrite Hg', Hg.
  - rewrite H. unfold InitServer.add_global_status.
    rewrite get_global_status_app, H.
    cbn [InitServer.get_global_status InitServer.url].
    now rewrite String.eqb_refl.
Qed.

(** X12: [update_global_status] touches one URL only.  What
    [get_global_status] returns for any other URL is unchanged, and the
    URLs of the list stay as they are, in their order, with the updated
    URL appended exactly when it was absent; a list without a repeated
    URL stays so. *)
Theorem update_global_status_frame (V : Type) (truthy : V -> bool)
  (u : string) (pos off : V) (st : InitServer.status V) :
  (forall u', u' <> u ->
     InitServer.get_global_status u'
       (InitServer.update_global_status truthy u pos off st)
     = InitServer.get_global_status u' st) /\
  map InitServer.url (InitServer.update_global_status truthy u pos off st)
  = map InitServer.url st
    ++ match InitServer.get_global_status u st with
       | Some _ => []
       | None => [u]
       end /\
  (NoDup (map InitServer.url st) ->
   NoDup (map InitServer.url
            (InitServer.update_global_status truthy u pos off st))).
Proof.
  unfold InitServer.update_global_status.
  pose proof (update_first_found V truthy u pos off st) as H.
  destruct (InitServer.update_first truthy u pos off st) as [st'|].
  - destruct H as (old & Hg & _ & Hm & Hf). rewrite Hg, Hm, app_nil_r.
    auto.
  - rewrite H. unfold InitServer.add_global_status.
    rewrite map_app. cbn [map InitServer.url]. split; [|split; [reflexivity|]].
    + intros u' Hne. rewrite get_global_status_app.
      destruct (InitServer.get_global_status u' st); [reflexivity|].
      cbn [InitServer.get_global_status InitServer.url].
      destruct (String.eqb_spec u u'); [congruence|reflexivity].
    + intros Hnd. apply NoDup_app; [exact Hnd|repeat constructor; auto|].
      intros x Hx [<-|[]]. apply in_map_iff in Hx.
      destruct Hx as (it & Hu & Hin).
      rewrite <- Hu in H. clear - H Hin.
      induction st as [|y st IH]; [contradiction|].
      cbn [InitServer.get_global_status] in H.
      destruct (String.eqb_spec (InitServer.url y) (InitServer.url it));
        [discriminate|].
      destruct Hin as [->|Hin]; [congruence|auto].
Qed.

(** X13: [add_global_status] does not replace: when the list already
    holds a dictionary for the URL, the added one is shadowed and
    [get_global_status] keeps returning the old one; only for an absent
    URL is the added dictionary the one returned. *)
Theorem get_after_add_global_status (V : Type)
  (u : string) (pos off : V) (st : InitServer.status V) :
  InitServer.get_global_status u (InitServer.add_global_status u pos off st)
  = match InitServer.get_global_status u st with
    | Some old => Some old
    | None => Some (InitServer.mkItem u pos off)
    end /\
  List.length (InitServer.add_global_status u pos off st)
  = S (List.length st).
Proof.
  unfold InitServer.add_global_status. split.
  - rewrite get_global_status_app.
    destruct (InitServer.get_global_status u st); [reflexivity|].
    cbn [InitServer.get_global_status InitServer.url].
    now rewrite String.eqb_refl.
  - rewrite length_app. cbn [List.length]. lia.
Qed.

(** X14: values that are not truthy cannot be stored over a present
    URL: when the list holds the URL and both the new position and the
    new offset are falsy (0, [None], ...), [update_global_status]
    leaves the whole list as it is. *)
Theorem update_global_status_falsy (V : Type) (truthy : V -> bool)
  (u : string) (pos off : V) (st : InitServer.status V) :
  InitServer.get_global_status u st <> None ->
  truthy pos = false -> truthy off = false ->
  InitServer.update_global_status truthy u pos off st = st.
Proof.
  intros Hpresent Hpos Hoff. unfold InitServer.update_global_status.
  assert (H : InitServer.update_first truthy u pos off st = Some st).
  { induction st as [|x st IH]; [now contradiction Hpresent|].
    cbn [InitServer.update_first InitServer.get_global_status] in *.
    destruct (String.eqb (InitServer.url x) u).
    - rewrite Hpos, Hoff. now destruct x.
    - now rewrite IH. }
  now rewrite H.
Qed.

Lemma update_global_status_falsy_witness :
  let st := [InitServer.mkItem "a.m3u8" (Some 7) (Some 2);
             InitServer.mkItem "b.m3u8" (Some 9) None] in
  InitServer.get_global_status "b.m3u8" st <> None /\
  InitServer.truthy_int (Some 0) = false /\
  InitServer.truthy_int None = false /\
  InitServer.update_global_status InitServer.truthy_int
    "b.m3u8" (Some 0) None st = st.
Proof.
  cbv zeta.
  assert (H : InitServer.get_global_status "b.m3u8"
                [InitServer.mkItem "a.m3u8" (Some 7) (Some 2);
                 InitServer.mkItem "b.m3u8" (Some 9) None] <> None)
    by (vm_compute; discriminate).
  split; [exact H|]. split; [reflexivity|]. split; [reflexivity|].
  apply (update_global_status_falsy _ InitServer.truthy_int
           "b.m3u8" (Some 0) None _ H); reflexivity.
Defined.

(** ** The dictionary and the dataclasses *)

Lemma all_results_new_FOV (fovs : list FieldOfViewInfo) :
  VideoData.all_results VideoData.new_FOV
    (map (fun fov =>
            VideoData.JDict
              [ ("id", VideoData.JInt (fov_id fov));
                ("x", VideoData.JInt (fov_x fov));
                ("y", VideoData.JInt (fov_y fov));
                ("width", VideoData.JInt (fov_width fov));
                ("height", VideoData.JInt (fov_height fov)) ]%string)
         fovs)
  = inr (map FOV_of fovs).
Proof.
  induction fovs as [|fov fovs IH]; [reflexivity|].
  cbn [map VideoData.all_results]. rewrite IH. reflexivity.
Qed.

(** X15: [parse_video_data] accepts every dictionary [convert_to_json]
    builds: no key is missing, none is unexpected, and the [SEI] object
    holds the validity flag, each field of the record as it was ([None]
    for a field never set) and one [FOV] per rectangle, in order. *)
Theorem parse_video_data_of_convert_to_json (sei : SEI_6DOF)
  (fov_array : list FieldOfViewInfo) :
  VideoData.parse_video_data
    (VideoData.dict_of (convert_to_json sei fov_array))
  = inr
      (VideoData.mkVideoData
         (VideoData.mkSEI
            (VideoData.JBool (is_valid sei))
            (VideoData.json_of_option (stitching_layout sei))
            (VideoData.JInt (camera_number sei))
            (VideoData.json_of_option (camera_model sei))
            (VideoData.JInt (camera_resolution_x sei))
            (VideoData.JInt (camera_resolution_y sei))
            (VideoData.JInt (video_resolution_x sei))
            (VideoData.JInt (video_resolution_y sei))
            (VideoData.JInt (texture_padding_size sei))
            (VideoData.JInt (background_texture_flag sei))
            (VideoData.json_of_option (background_depth_flag sei))
            (VideoData.json_of_option (arrangement_flag sei))
            (VideoData.JInt (horizontal_half_fov sei))
            (map FOV_of fov_array))).
Proof.
  unfold VideoData.parse_video_data, VideoData.dict_of, convert_to_json.
  cbn [j_sei j_is_valid j_fov_array VideoData.subscript VideoData.lookup
       String.eqb Ascii.eqb Bool.eqb VideoData.and_then VideoData.iterate
       andb].
  rewrite all_results_new_FOV. reflexivity.
Qed.

(** X16: [parse_video_data] on a dictionary without the key
    [fov_array] raises [KeyError] for it, whatever else the dictionary
    holds; with an empty list under [fov_array] and no key [sei] it
    raises [KeyError] for [sei]; and a rectangle that lacks one of its
    five keys is a [TypeError]. *)
Theorem parse_video_data_missing_key (d fov : list (string * VideoData.json))
  (fovs : list VideoData.json) :
  (VideoData.lookup "fov_array" d = None ->
   VideoData.parse_video_data (VideoData.JDict d)
   = inl (VideoData.KeyError "fov_array")) /\
  (VideoData.lookup "fov_array" d = Some (VideoData.JList []) ->
   VideoData.lookup "sei" d = None ->
   VideoData.parse_video_data (VideoData.JDict d)
   = inl (VideoData.KeyError "sei")) /\
  (VideoData.lookup "fov_array" d
   = Some (VideoData.JList (VideoData.JDict fov :: fovs)) ->
   (VideoData.lookup "id" fov = None \/ VideoData.lookup "x" fov = None \/
    VideoData.lookup "y" fov = None \/ VideoData.lookup "width" fov = None \/
    VideoData.lookup "height" fov = None) ->
   VideoData.parse_video_data (VideoData.JDict d) = inl VideoData.TypeError).
Proof.
  unfold VideoData.parse_video_data, VideoData.subscript.
  split; [|split].
  - intros ->. reflexivity.
  - intros -> ->. reflexivity.
  - intros -> Hmiss.
    cbn [VideoData.and_then VideoData.iterate VideoData.all_results].
    assert (E : VideoData.new_FOV (VideoData.JDict fov)
                = inl VideoData.TypeError).
    { unfold VideoData.new_FOV, VideoData.keyword_arguments.
      destruct (forallb _ fov); [|reflexivity].
      cbn [VideoData.all_results].
      destruct (VideoData.lookup "id" fov); [|reflexivity].
      destruct (VideoData.lookup "x" fov);
        [|cbn [VideoData.and_then]; reflexivity].
      destruct (VideoData.lookup "y" fov);
        [|cbn [VideoData.and_then]; reflexivity].
      destruct (VideoData.lookup "width" fov);
        [|cbn [VideoData.and_then]; reflexivity].
      destruct (VideoData.lookup "height" fov);
        [|cbn [VideoData.and_then]; reflexivity].
      exfalso. repeat destruct Hmiss as [Hmiss|Hmiss]; discriminate. }
    rewrite E. reflexivity.
Qed.

(** ** Languages *)

Example LANGUAGES_sorted :
  map Languages.code Languages.LANGUAGES = ["en_US"; "hu_HU"; "ru_RU"]%string.
Proof. reflexivity. Qed.

(** X17: [get_system_language] only returns the code of a language of
    [LANGUAGES]: the code of the system locale when that is one, and
    [en_US] for every other locale name. *)
Theorem get_system_language_supported (local_language_code : string) :
  In (Languages.get_system_language local_language_code)
     (map Languages.code Languages.LANGUAGES) /\
  (In local_language_code (map Languages.code Languages.LANGUAGES) ->
   Languages.get_system_language local_language_code = local_language_code) /\
  (~ In local_language_code (map Languages.code Languages.LANGUAGES) ->
   Languages.get_system_language local_language_code = "en_US"%string).
Proof.
  unfold Languages.get_system_language. cbv zeta.
  destruct (existsb (String.eqb local_language_code)
              (map Languages.code Languages.LANGUAGES)) eqn:E.
  - apply existsb_exists in E. destruct E as (c & Hin & Heq).
    apply String.eqb_eq in Heq. subst c.
    split; [exact Hin|]. split; [reflexivity|]. intros Hn. contradiction.
  - split; [left; reflexivity|]. split; [|reflexivity].
    intros Hin.
    assert (existsb (String.eqb local_language_code)
              (map Languages.code Languages.LANGUAGES) = true).
    { apply existsb_exists. exists local_language_code.
      split; [exact Hin|apply String.eqb_refl]. }
    congruence.
Qed.

(** ** The callbacks of the player *)

Section Callbacks.

Import PlayerBase.

Ltac run_method :=
  cbv beta iota zeta delta
    [callbacks cb_paused cb_stopped cb_end_reached cb_error cb_parse_changed
     cb_time_changed _init_media_track _get_media_track _get_duration
     error and_then ret self assign call not_None
     set_is_paused set_media_input set_media_track
     is_video_initialized _is_paused media_input media_track _media_player
     _media is_live initial_time input_length length negb app].

Ltac split_cases :=
  repeat (run_method;
          match goal with
          | |- context [match ?c with true => _ | false => _ end] =>
              destruct c eqn:?
          | |- context [match ?c with Some _ => _ | None => _ end] =>
              destruct c eqn:?
          | |- context [match ?c with [] => _ | _ :: _ => _ end] =>
              destruct c eqn:?
          end);
  run_method.

Lemma get_duration_cases media_duration p :
  match _get_duration media_duration p with
  | (Returned duration, p', trace) =>
      p' = p /\ trace = [] /\ duration <> 0 /\
      exists input, media_input p = Some input /\
                    (is_live input = true -> duration = -1) /\
                    (is_live input = false -> _media p <> None)
  | (AttributeError, p', trace) =>
      p' = p /\ trace = [] /\
      (media_input p = None \/ _media p = None)
  end.
Proof.
  destruct p as [init paused [[live t0 l0]|] track mp m].
  - destruct live.
    + run_method. repeat split; try lia. eexists. split; [reflexivity|].
      split; [reflexivity|discriminate].
    + destruct m as [m|]; run_method.
      * repeat split.
        -- unfold truthy. destruct (Z.eqb_spec media_duration 0);
             cbn [negb]; lia.
        -- eexists. split; [reflexivity|]. split; [discriminate|].
           discriminate.
      * auto.
  - run_method. auto.
Qed.


Ltac on_player p :=
  destruct p as [init paused [[live t0 l0]|] [track|] [mp|] [m|]].

Lemma callback_status e p :
  match callbacks e p with
  | (_, p', trace) => _is_paused p' = status_after (_is_paused p) trace
  end.
Proof.
  on_player p; destruct e as [d t| | | |t|s tracks d];
    try destruct s; split_cases; try reflexivity.
Qed.

Lemma callback_before_initialization e p :
  is_video_initialized p = false ->
  match callbacks e p with
  | (r, p', trace) =>
      is_video_initialized p' = false /\
      _is_paused p' = _is_paused p /\
      (forall track, media_track p = Some track ->
                     media_track p' = Some track) /\
      _media p' = _media p /\
      (media_input p' = None -> media_input p = None) /\
      Forall (fun x => x = NotifyError
                       \/ x = LoopbackLoadVideoSt2SetParsedMedia) trace /\
      (r = AttributeError -> media_input p = None \/ _media p = None)
  end.
Proof.
  intros Hinit.
  on_player p; cbn [is_video_initialized] in Hinit; subst init;
    destruct e as [d t| | | |t|s tracks d];
    try destruct s; split_cases;
    repeat match goal with |- _ /\ _ => split end;
    auto; try discriminate.
Qed.

Lemma truthy_spec x : truthy x = true <-> x <> 0.
Proof. unfold truthy. destruct (Z.eqb_spec x 0); cbn [negb]; intuition lia. Qed.

(** X24: when [_init_media_track] sets the media track, the length of
    the track is never 0, it is -1 exactly when the media input is live
    afterwards, and the media input holds it as its length; it makes no
    call, leaves the player alone when it finds no track, and raises
    only when no media input or no media is set. *)
Theorem init_media_track_length_and_live
  (tracks : option (list PlayerBase.Track)) (media_duration : Z)
  (p : PlayerBase.player) :
  PlayerBase.media_track p = None ->
  match PlayerBase._init_media_track tracks media_duration p with
  | (PlayerBase.Returned _, p', trace) =>
      trace = [] /\
      match PlayerBase.media_track p' with
      | None => p' = p
      | Some track =>
          PlayerBase.length track <> 0 /\
          exists input,
            PlayerBase.media_input p' = Some input /\
            (PlayerBase.length track = -1
             <-> PlayerBase.is_live input = true) /\
            PlayerBase.input_length input = Some (PlayerBase.length track)
      end
  | (PlayerBase.AttributeError, _, trace) =>
      trace = [] /\
      (PlayerBase.media_input p = None \/ PlayerBase._media p = None)
  end.
Proof.
  intros Hnone. on_player p; try discriminate Hnone; clear Hnone;
    split_cases; cbn [media_track length];
    repeat match goal with
           | H : (_ =? _) = true |- _ => apply Z.eqb_eq in H
           | H : (_ =? _) = false |- _ => apply Z.eqb_neq in H
           | H : truthy _ = true |- _ => apply truthy_spec in H
           | H : true = true |- _ => clear H
           | H : false = true |- _ => discriminate H
           | H : true = false |- _ => discriminate H
           end;
    repeat match goal with
           | |- _ /\ _ => split
           | |- _ <-> _ => split
           | |- exists _, _ => eexists
           end;
    cbn [is_live input_length];
    auto; try reflexivity; try lia; try discriminate; try congruence.
Qed.

End Callbacks.

(** X18: [_get_duration] never returns 0, on any player and whatever
    libvlc answers: a duration of 0 becomes -1.  So the test for a
    duration of 0 in [cb_paused] never holds: a pause before
    initialization, with a media input set, reports an error for a live
    input only; for any other input it does nothing, whatever the
    duration, and raises [AttributeError] when no media is set. *)
Theorem get_duration_never_zero (p : PlayerBase.player)
  (input : PlayerBase.MediaInput) (media_duration player_time : Z) :
  PlayerBase.is_video_initialized p = false ->
  PlayerBase.media_input p = Some input ->
  (forall duration q,
      fst (fst (PlayerBase._get_duration duration q))
      <> PlayerBase.Returned 0) /\
  PlayerBase.cb_paused media_duration player_time p
  = if PlayerBase.is_live input
    then (PlayerBase.Returned tt, p, [PlayerBase.NotifyError])
    else match PlayerBase._media p with
         | Some _ => (PlayerBase.Returned tt, p, [])
         | None => (PlayerBase.AttributeError, p, [])
         end.
Proof.
  intros Hinit Hin. split.
  - intros d q E. pose proof (get_duration_cases d q) as H.
    destruct (PlayerBase._get_duration d q) as [[[z|] q'] trace];
      cbn [fst] in E; [|discriminate].
    injection E as ->. destruct H as (_ & _ & H & _). now apply H.
  - pose proof (get_duration_cases media_duration p) as H.
    unfold PlayerBase.cb_paused, PlayerBase.and_then, PlayerBase.self,
      PlayerBase.not_None.
    rewrite Hinit, Hin. cbn [negb].
    destruct (PlayerBase.is_live input) eqn:Hlive.
    + reflexivity.
    + destruct (PlayerBase._get_duration media_duration p)
        as [[[z|] q'] trace].
      * destruct H as (-> & -> & Hz & input' & Hin' & _ & Hm).
        rewrite Hin in Hin'. injection Hin' as <-.
        specialize (Hm Hlive).
        destruct (PlayerBase._media p); [|contradiction].
        unfold PlayerBase.ret. cbn [app].
        destruct (Z.eqb_spec z 0); [contradiction|reflexivity].
      * destruct H as (-> & -> & [Hn|Hn]); [congruence|].
        rewrite Hn. reflexivity.
Qed.

(** X19: until the video is initialized, the callbacks of any sequence
    of events, each on the player as the one before left it, keep it
    uninitialized and leave the pause flag alone; a media track that is
    set stays; they call no notification but [notify_error], and
    nothing else but the loop-back of a parse event; one of them raises
    only when no media input or no media is set. *)
Theorem callbacks_before_initialization (events : list PlayerBase.event)
  (p : PlayerBase.player) :
  PlayerBase.is_video_initialized p = false ->
  match run_callbacks events p with
  | (results, p', trace) =>
      PlayerBase.is_video_initialized p' = false /\
      PlayerBase._is_paused p' = PlayerBase._is_paused p /\
      (forall track, PlayerBase.media_track p = Some track ->
                     PlayerBase.media_track p' = Some track) /\
      Forall (fun x => x = PlayerBase.NotifyError
                       \/ x = PlayerBase.LoopbackLoadVideoSt2SetParsedMedia)
             trace /\
      (In PlayerBase.AttributeError results ->
       PlayerBase.media_input p = None \/ PlayerBase._media p = None)
  end.
Proof.
  revert p. induction events as [|e events IH]; intros p Hinit.
  - cbn. repeat split; auto. intros [].
  - cbn [run_callbacks].
    pose proof (callback_before_initialization e p Hinit) as He.
    destruct (PlayerBase.callbacks e p) as [[r p1] t1].
    destruct He as (Hi1 & Hp1 & Ht1 & Hm1 & Hin1 & Hf1 & Hr1).
    specialize (IH p1 Hi1).
    destruct (run_callbacks events p1) as [[results p2] t2].
    destruct IH as (Hi2 & Hp2 & Ht2 & Hf2 & Hr2).
    repeat match goal with |- _ /\ _ => split end.
    + exact Hi2.
    + congruence.
    + auto.
    + apply Forall_app. auto.
    + intros [Hr|Hr]; [auto|].
      destruct (Hr2 Hr) as [Hn|Hn]; [left; auto|right; congruence].
Qed.

Lemma callbacks_before_initialization_witness :
  PlayerBase.is_video_initialized loading_player = false /\
  match run_callbacks
          [parsed_video; PlayerBase.TimeChanged 40; PlayerBase.Paused 0 40;
           PlayerBase.Stopped; PlayerBase.EndReached]
          loading_player with
  | (results, p', trace) =>
      PlayerBase.is_video_initialized p' = false /\
      PlayerBase._is_paused p' = PlayerBase._is_paused loading_player /\
      (forall track, PlayerBase.media_track loading_player = Some track ->
                     PlayerBase.media_track p' = Some track) /\
      Forall (fun x => x = PlayerBase.NotifyError
                       \/ x = PlayerBase.LoopbackLoadVideoSt2SetParsedMedia)
             trace /\
      (In PlayerBase.AttributeError results ->
       PlayerBase.media_input loading_player = None
       \/ PlayerBase._media loading_player = None)
  end.
Proof.
  split; [reflexivity|].
  apply (callbacks_before_initialization
           [parsed_video; PlayerBase.TimeChanged 40; PlayerBase.Paused 0 40;
            PlayerBase.Stopped; PlayerBase.EndReached]
           loading_player).
  reflexivity.
Defined.


(** X20: the callbacks never change the pause flag silently: after the
    callbacks of any sequence of events, returning or raising, the flag
    is the status of the last [notify_playback_status_changed] they
    made, and the flag they started with when they made none. *)
Theorem callbacks_notify_pause_flag (events : list PlayerBase.event)
  (p : PlayerBase.player) :
  match run_callbacks events p with
  | (_, p', trace) =>
      PlayerBase._is_paused p'
      = status_after (PlayerBase._is_paused p) trace
  end.
Proof.
  revert p. induction events as [|e events IH]; intros p; [reflexivity|].
  cbn [run_callbacks]. pose proof (callback_status e p) as He.
  destruct (PlayerBase.callbacks e p) as [[r p1] t1].
  specialize (IH p1).
  destruct (run_callbacks events p1) as [[results p2] t2].
  unfold status_after in *. now rewrite fold_left_app, <- He.
Qed.

Lemma init_media_track_length_and_live_witness :
  PlayerBase.media_track loading_player = None /\
  match PlayerBase._init_media_track
          (Some [PlayerBase.Video
                   {| PlayerBase.width := 1920; PlayerBase.height := 1080;
                      PlayerBase.frame_rate_num := 30;
                      PlayerBase.frame_rate_den := 1 |}])
          0 loading_player with
  | (PlayerBase.Returned _, p', trace) =>
      trace = [] /\
      match PlayerBase.media_track p' with
      | None => p' = loading_player
      | Some track =>
          PlayerBase.length track <> 0 /\
          exists input,
            PlayerBase.media_input p' = Some input /\
            (PlayerBase.length track = -1
             <-> PlayerBase.is_live input = true) /\
            PlayerBase.input_length input = Some (PlayerBase.length track)
      end
  | (PlayerBase.AttributeError, _, trace) =>
      trace = [] /\
      (PlayerBase.media_input loading_player = None
       \/ PlayerBase._media loading_player = None)
  end.
Proof.
  split; [reflexivity|].
  apply (init_media_track_length_and_live
           (Some [PlayerBase.Video
                    {| PlayerBase.width := 1920; PlayerBase.height := 1080;
                       PlayerBase.frame_rate_num := 30;
                       PlayerBase.frame_rate_den := 1 |}])
           0 loading_player).
  reflexivity.
Defined.

(** A parse event on the loading player: the duration 0 makes the
    track's length -1 and the input live. *)
Example cb_parse_changed_unknown_length :
  match PlayerBase.callbacks parsed_video loading_player with
  | (r, p', trace) =>
      r = PlayerBase.Returned tt /\
      trace = [PlayerBase.LoopbackLoadVideoSt2SetParsedMedia] /\
      option_map PlayerBase.length (PlayerBase.media_track p') = Some (-1) /\
      option_map PlayerBase.is_live (PlayerBase.media_input p') = Some true
  end.
Proof. vm_compute. repeat split. Qed.

(** ** The decoder against the layout of the field block *)

Section Layout.

(** A read at a known position of a block. *)
Lemma get_bits_at r block pos w :
  wf r -> stream r = skipn pos block -> (w <= 57)%nat ->
  Z.of_nat pos + Z.of_nat w <= len block ->
  exists r', get_bits (Z.of_nat w) r = Ok (field_at block pos w, r') /\
             wf r' /\ stream r' = skipn (pos + w) block.
Proof.
  intros Hwf Hs Hn Hroom.
  assert (Hleft : Z.of_nat w <= bits_left r).
  { rewrite <- length_stream, Hs by exact Hwf. unfold len in *.
    rewrite length_skipn. lia. }
  destruct (get_bits_ok (Z.of_nat w) r Hwf) as (r' & E & Hwf' & Hs' & _);
    [lia|exact Hleft|].
  rewrite Nat2Z.id in E, Hs'.
  exists r'. rewrite E, Hs', Hs, skipn_skipn.
  repeat split; auto. f_equal. lia.
Qed.

Ltac read_at block :=
  match goal with
  | Hwf : wf ?r, Hs : stream ?r = skipn ?pos block
    |- context [get_bits ?n ?r] =>
      let w := eval compute in (Z.to_nat n) in
      let r' := fresh "r" in
      let E := fresh "E" in
      let Hwf' := fresh "Hwf" in
      let Hs' := fresh "Hs" in
      destruct (get_bits_at r block pos w Hwf Hs ltac:(lia) ltac:(lia))
        as (r' & E & Hwf' & Hs');
      change (Z.of_nat w) with n in E;
      rewrite E; cbn [bind]; clear E Hs Hwf
  end.

Ltac current_reader :=
  match goal with
  | Hwf : wf ?r |- exists _, _ => exists r
  end.

Lemma read_fov_at acc r block pos :
  wf r -> stream r = skipn pos block ->
  Z.of_nat pos + 72 <= len block ->
  exists r',
    read_fov acc r = Ok (acc ++ [rectangle_at block pos (len acc + 1)], r') /\
    wf r' /\ stream r' = skipn (pos + 72) block.
Proof.
  intros Hwf Hs Hroom. unfold read_fov.
  do 9 (read_at block).
  current_reader. split; [|split; [assumption|]].
  - unfold rectangle_at.
    replace (pos + 16 + 1 + 16 + 1 + 16 + 1)%nat with (pos + 51)%nat by lia.
    replace (pos + 16 + 1 + 16 + 1)%nat with (pos + 34)%nat by lia.
    replace (pos + 16 + 1)%nat with (pos + 17)%nat by lia.
    reflexivity.
  - match goal with H : stream _ = _ |- _ => rewrite H end. f_equal. lia.
Qed.

Lemma read_fovs_at k : forall acc r block pos,
  wf r -> stream r = skipn pos block ->
  Z.of_nat pos + 72 * Z.of_nat k <= len block ->
  exists r',
    read_fovs k acc r
    = Ok (acc ++ map (fun i => rectangle_at block (pos + 72 * i)
                                 (len acc + Z.of_nat i + 1))
                     (seq 0 k), r') /\
    wf r' /\ stream r' = skipn (pos + 72 * k) block.
Proof.
  induction k as [|k IH]; intros acc r block pos Hwf Hs Hroom.
  - exists r. cbn [read_fovs seq map]. rewrite app_nil_r.
    repeat split; auto. rewrite Hs. f_equal. lia.
  - destruct (read_fov_at acc r block pos Hwf Hs) as (r1 & E1 & Hwf1 & Hs1);
      [lia|].
    destruct (IH (acc ++ [rectangle_at block pos (len acc + 1)]) r1 block
                (pos + 72)%nat Hwf1 Hs1) as (r' & E & Hwf' & Hs'); [lia|].
    exists r'. cbn [read_fovs]. rewrite E1. cbn [bind]. rewrite E.
    split; [|split; [exact Hwf'|rewrite Hs'; f_equal; lia]].
    f_equal. f_equal. rewrite <- app_assoc. f_equal.
    cbn [seq map app]. f_equal.
    + f_equal; lia.
    + rewrite <- seq_shift, map_map. apply map_ext. intros i.
      unfold len. rewrite length_app. cbn [List.length].
      f_equal; lia.
Qed.

(** The field reads at their offsets in the block. *)
Lemma read_sei_fields_at uuid r block :
  wf r -> stream r = block ->
  112 + 72 * declared_cameras block <= len block ->
  exists r',
    read_sei_fields uuid r
    = Ok (Some {| uuid_string := uuid;
                  stitching_layout := stitching_layout (fields_of_block block);
                  camera_number := camera_number (fields_of_block block);
                  camera_model := camera_model (fields_of_block block);
                  camera_resolution_x :=
                    camera_resolution_x (fields_of_block block);
                  camera_resolution_y :=
                    camera_resolution_y (fields_of_block block);
                  video_resolution_x :=
                    video_resolution_x (fields_of_block block);
                  video_resolution_y :=
                    video_resolution_y (fields_of_block block);
                  texture_padding_size :=
                    texture_padding_size (fields_of_block block);
                  background_texture_flag :=
                    background_texture_flag (fields_of_block block);
                  background_depth_flag :=
                    background_depth_flag (fields_of_block block);
                  arrangement_flag := arrangement_flag (fields_of_block block);
                  horizontal_half_fov :=
                    horizontal_half_fov (fields_of_block block);
                  texture_top_left_x := [];
                  texture_top_left_y := [];
                  texture_bottom_right_x := [];
                  texture_bottom_right_y := [] |},
          rectangles_of_block block (Z.to_nat (declared_cameras block)),
          r') /\
    wf r' /\
    stream r'
    = skipn (112 + 72 * Z.to_nat (declared_cameras block)) block.
Proof.
  intros Hwf Hs Hroom.
  assert (Hcn : 0 <= declared_cameras block) by apply bits_val_range.
  change block with (skipn 0 block) in Hs at 1.
  unfold read_sei_fields.
  do 19 (read_at block).
  change (field_at block (0 + 2) 16) with (declared_cameras block).
  match goal with
  | Hwf' : wf ?r0, Hs' : stream ?r0 = skipn ?pos block |- _ =>
      destruct (read_fovs_at (Z.to_nat (declared_cameras block)) [] r0 block
                  112 Hwf' Hs') as (r' & E & Hwf'' & Hs''); [lia|]
  end.
  rewrite E. cbn [bind]. exists r'.
  split; [|split; [exact Hwf''|exact Hs'']].
  reflexivity.
Qed.

End Layout.

(** X21: what [read_sei_6dof] decodes.  Over a reader that stands at
    the tag, followed by a field block with room for the 112 bits of
    fixed fields and 72 bits per declared camera, it returns the record
    whose fields are the bits of the block at the offsets of the layout
    (2, 16, 2 bits, a marker, four 16-bit resolutions each with a
    marker, 8, 1, 1 bits, a marker, 1 and 8 bits, 3 reserved bits), and
    one rectangle per camera, numbered from 1, with [x] and [y] the top
    left corner and [width] and [height] the differences to the bottom
    right corner; it leaves the reader right behind the last
    rectangle. *)
Theorem read_sei_6dof_layout (r : BitReader) (block : list bool) :
  wf r -> stream r = bytes_bits tag_bytes ++ block ->
  112 + 72 * declared_cameras block <= len block ->
  exists r',
    read_sei_6dof r
    = Ok (Some (fields_of_block block),
          rectangles_of_block block (Z.to_nat (declared_cameras block)),
          r') /\
    wf r' /\
    stream r' = skipn (112 + 72 * Z.to_nat (declared_cameras block)) block.
Proof.
  intros Hwf Hs Hroom.
  destruct (read_uuid_bytes tag_bytes EmptyString r block Hwf Hs)
    as (r1 & E & Hwf1 & Hs1 & _).
  change (List.length tag_bytes) with 16%nat in E.
  cbn [String.append] in E.
  assert (Htag : string_of_list_byte tag_bytes = extension_tag)
    by apply string_of_list_byte_of_string.
  rewrite Htag in E.
  destruct (read_sei_fields_at extension_tag r1 block Hwf1 Hs1 Hroom)
    as (r' & E' & Hwf' & Hs').
  exists r'. unfold read_sei_6dof. rewrite E. cbn [bind].
  rewrite String.eqb_refl. cbn [negb]. rewrite E'. auto.
Qed.

Lemma read_sei_6dof_layout_witness :
  wf reader_scenario /\
  stream reader_scenario
  = bytes_bits tag_bytes ++ bytes_bits scenario_fields /\
  112 + 72 * declared_cameras (bytes_bits scenario_fields)
  <= len (bytes_bits scenario_fields) /\
  exists r',
    read_sei_6dof reader_scenario
    = Ok (Some (fields_of_block (bytes_bits scenario_fields)),
          rectangles_of_block (bytes_bits scenario_fields)
            (Z.to_nat (declared_cameras (bytes_bits scenario_fields))),
          r') /\
    wf r' /\
    stream r'
    = skipn (112 + 72 * Z.to_nat (declared_cameras
                                    (bytes_bits scenario_fields)))
            (bytes_bits scenario_fields).
Proof.
  assert (Hroom : 112 + 72 * declared_cameras (bytes_bits scenario_fields)
                  <= len (bytes_bits scenario_fields))
    by (apply Z.leb_le; vm_compute; reflexivity).
  split; [reflexivity|]. split; [reflexivity|]. split; [exact Hroom|].
  apply (read_sei_6dof_layout reader_scenario (bytes_bits scenario_fields));
    [reflexivity|reflexivity|exact Hroom].
Defined.

(** ** A PES header at the end of a packet *)

Section LatePesHeader.

Lemma ts_packets_concat_app ps s :
  Forall (fun p => len p = TS_PACKET_SIZE) ps ->
  ts_packets (List.concat ps ++ s) = ps ++ ts_packets s.
Proof.
  induction 1 as [|p ps Hp _ IH]; [reflexivity|].
  cbn [List.concat app]. rewrite <- app_assoc, ts_packets_app by exact Hp.
  now rewrite IH.
Qed.

Lemma demux_packets_app a b : forall st,
  demux_packets (a ++ b) st
  = st' <- demux_packets a st ;; demux_packets b st'.
Proof.
  induction a as [|p a IH]; intros st; [reflexivity|].
  cbn [app demux_packets].
  destruct (demux_packet st p); cbn [bind]; [apply IH|reflexivity].
Qed.

(** The index of the 9th byte of a PES header that starts in the last
    8 bytes of a whole packet is out of range. *)
Lemma demux_packet_late_pes_header st p :
  len p = TS_PACKET_SIZE -> is_unit_start p = true ->
  has_pes_header p = true -> 180 <= payload_offset p ->
  demux_packet st p = Raise IndexError.
Proof.
  unfold TS_PACKET_SIZE. intros Hlen Hstart Hpes Hoff.
  unfold is_unit_start, carries_payload in Hstart.
  rewrite !andb_true_iff in Hstart.
  destruct Hstart as [[[Hsync Hpid] Hlt] Hflag].
  apply Z.ltb_lt in Hlt. unfold TS_PACKET_SIZE in Hlt.
  destruct st as [nal started]. unfold demux_packet.
  rewrite (py_index_nonneg p 0) by lia.
  destruct (Z.ltb_spec 0 (len p)); [|lia]. cbn [bind].
  change (Z.to_nat 0) with 0%nat. fold (has_sync p). rewrite Hsync.
  cbn [negb]. rewrite packet_pid_spec by lia. cbn [bind].
  fold (has_target_pid p). rewrite Hpid. cbn [negb].
  rewrite (py_index_nonneg p 1), (py_index_nonneg p 3) by lia.
  destruct (Z.ltb_spec 1 (len p)); [|lia].
  destruct (Z.ltb_spec 3 (len p)); [|lia]. cbn [bind].
  change (Z.to_nat 1) with 1%nat. change (Z.to_nat 3) with 3%nat.
  fold (has_adaptation_field p). fold (has_unit_start_flag p).
  assert (E : (if has_adaptation_field p
               then b4 <- py_index p 4 ;; Ok (4 + (1 + b4))
               else Ok 4) = Ok (payload_offset p)).
  { unfold payload_offset. destruct (has_adaptation_field p); [|reflexivity].
    rewrite py_index_nonneg by lia.
    destruct (Z.ltb_spec 4 (len p)); [|lia]. cbn [bind]. f_equal.
    change (Z.to_nat 4) with 4%nat. lia. }
  rewrite E. cbn [bind]. unfold TS_PACKET_SIZE.
  destruct (Z.leb_spec 188 (payload_offset p)); [lia|].
  rewrite Hflag. cbn [negb]. fold (has_pes_header p). rewrite Hpes.
  rewrite py_index_nonneg by lia.
  destruct (Z.ltb_spec (payload_offset p + 8) (len p)); [lia|].
  reflexivity.
Qed.

End LatePesHeader.

(** X22: whole packets can make the demuxer fail.  In a stream of
    whole 188-byte packets, a packet of the target identifier that is a
    unit start whose PES start code begins in its last 8 bytes (payload
    offset 180 or more) raises [IndexError], whatever follows it, when
    the packets before it are processed without error. *)
Theorem extract_late_pes_header_raises (ps : list (list byte))
  (p rest : list byte) :
  Forall (fun q => len q = TS_PACKET_SIZE) ps ->
  forallb chunk_ok ps = true ->
  len p = TS_PACKET_SIZE -> is_unit_start p = true ->
  has_pes_header p = true -> 180 <= payload_offset p ->
  extract_h265_nal_from_ts (List.concat ps ++ p ++ rest) = Raise IndexError.
Proof.
  intros Hall Hok Hlen Hstart Hpes Hoff.
  rewrite extract_packets, ts_packets_concat_app by exact Hall.
  rewrite ts_packets_app by exact Hlen.
  rewrite demux_packets_app.
  pose proof (demux_packets_cases ps ([], false)) as H.
  destruct (demux_packets ps _) as [st|e]; [|destruct H; congruence].
  cbn [bind demux_packets].
  now rewrite demux_packet_late_pes_header.
Qed.

Lemma extract_late_pes_header_raises_witness :
  Forall (fun q => len q = TS_PACKET_SIZE) [make_packet 0x100 true [1]] /\
  forallb chunk_ok [make_packet 0x100 true [1]] = true /\
  len late_pes_packet = TS_PACKET_SIZE /\
  is_unit_start late_pes_packet = true /\
  has_pes_header late_pes_packet = true /\
  180 <= payload_offset late_pes_packet /\
  extract_h265_nal_from_ts
    (List.concat [make_packet 0x100 true [1]] ++ late_pes_packet
     ++ make_packet 0x100 false [2])
  = Raise IndexError.
Proof.
  assert (H1 : Forall (fun q => len q = TS_PACKET_SIZE)
                 [make_packet 0x100 true [1]]) by (repeat constructor).
  assert (H2 : forallb chunk_ok [make_packet 0x100 true [1]] = true)
    by (vm_compute; reflexivity).
  assert (H3 : len late_pes_packet = TS_PACKET_SIZE) by reflexivity.
  assert (H4 : is_unit_start late_pes_packet = true)
    by (vm_compute; reflexivity).
  assert (H5 : has_pes_header late_pes_packet = true)
    by (vm_compute; reflexivity).
  assert (H6 : 180 <= payload_offset late_pes_packet)
    by (vm_compute; discriminate).
  repeat (split; [assumption|]).
  apply (extract_late_pes_header_raises _ _ _ H1 H2 H3 H4 H5 H6).
Defined.

(** ** Instances *)

Lemma update_global_status_frame_witness :
  let st := [InitServer.mkItem "a.m3u8" (Some 7) (Some 2);
             InitServer.mkItem "b.m3u8" (Some 9) None] in
  InitServer.get_global_status "a.m3u8"
    (InitServer.update_global_status InitServer.truthy_int
       "b.m3u8" (Some 11) (Some 3) st)
  = InitServer.get_global_status "a.m3u8" st /\
  NoDup (map InitServer.url
           (InitServer.update_global_status InitServer.truthy_int
              "b.m3u8" (Some 11) (Some 3) st)).
Proof.
  cbv zeta.
  destruct (update_global_status_frame (option Z) InitServer.truthy_int
              "b.m3u8" (Some 11) (Some 3)
              [InitServer.mkItem "a.m3u8" (Some 7) (Some 2);
               InitServer.mkItem "b.m3u8" (Some 9) None])
    as (Hframe & _ & Hnodup).
  split.
  - apply Hframe. discriminate.
  - apply Hnodup. cbn [map InitServer.url].
    constructor; [|constructor; [intros []|constructor]].
    intros [H|[]]. discriminate.
Defined.

Lemma parse_video_data_missing_key_witness :
  VideoData.parse_video_data
    (VideoData.JDict [("sei", VideoData.JDict [])]%string)
  = inl (VideoData.KeyError "fov_array") /\
  VideoData.parse_video_data
    (VideoData.JDict [("fov_array", VideoData.JList [])]%string)
  = inl (VideoData.KeyError "sei") /\
  VideoData.parse_video_data
    (VideoData.JDict
       [("fov_array",
         VideoData.JList
           [VideoData.JDict [("id", VideoData.JInt 1)]%string])]%string)
  = inl VideoData.TypeError.
Proof.
  split; [|split].
  - apply (parse_video_data_missing_key
             [("sei", VideoData.JDict [])]%string [] []). reflexivity.
  - apply (parse_video_data_missing_key
             [("fov_array", VideoData.JList [])]%string [] []);
      reflexivity.
  - apply (parse_video_data_missing_key
             [("fov_array",
               VideoData.JList
                 [VideoData.JDict [("id", VideoData.JInt 1)]%string])]%string
             [("id", VideoData.JInt 1)]%string []);
      [reflexivity|right; left; reflexivity].
Defined.

Lemma get_system_language_supported_witness :
  In "hu_HU"%string (map Languages.code Languages.LANGUAGES) /\
  Languages.get_system_language "hu_HU" = "hu_HU"%string /\
  ~ In "de_DE"%string (map Languages.code Languages.LANGUAGES) /\
  Languages.get_system_language "de_DE" = "en_US"%string.
Proof.
  assert (Hin : In "hu_HU"%string (map Languages.code Languages.LANGUAGES))
    by (right; left; reflexivity).
  assert (Hout : ~ In "de_DE"%string
                   (map Languages.code Languages.LANGUAGES))
    by (intros [H|[H|[H|[]]]]; discriminate).
  split; [exact Hin|]. split.
  - apply (get_system_language_supported "hu_HU"). exact Hin.
  - split; [exact Hout|].
    apply (get_system_language_supported "de_DE"). exact Hout.
Defined.

Lemma get_duration_never_zero_witness :
  PlayerBase.is_video_initialized loading_player = false /\
  PlayerBase.media_input loading_player
  = Some {| PlayerBase.is_live := false; PlayerBase.initial_time := 0;
            PlayerBase.input_length := None |} /\
  (forall duration q,
      fst (fst (PlayerBase._get_duration duration q))
      <> PlayerBase.Returned 0) /\
  PlayerBase.cb_paused 0 40 loading_player
  = (PlayerBase.Returned tt, loading_player, []).
Proof.
  split; [reflexivity|]. split; [reflexivity|].
  apply (get_duration_never_zero loading_player
           {| PlayerBase.is_live := false; PlayerBase.initial_time := 0;
              PlayerBase.input_length := None |} 0 40);
    reflexivity.
Defined.

(** ** Reads in a row *)

Section ReadsCompose.

Lemma bits_val_app l1 l2 :
  bits_val (l1 ++ l2)
  = bits_val l1 * 2 ^ Z.of_nat (List.length l2) + bits_val l2.
Proof.
  induction l1 as [|b l1 IH]; cbn [app bits_val]; [lia|].
  rewrite IH, length_app, Nat2Z.inj_add, Z.pow_add_r by lia. ring.
Qed.

Lemma firstn_add {A} a b (l : list A) :
  firstn (a + b) l = firstn a l ++ firstn b (skipn a l).
Proof.
  revert l. induction a as [|a IH]; intros l; [reflexivity|].
  destruct l as [|x l]; cbn [Nat.add firstn skipn app].
  - now rewrite firstn_nil.
  - now rewrite IH.
Qed.

End ReadsCompose.

(** X23: two reads in a row are one read of the sum of the widths: with
    [a + b <= 57] bits left to read, [get_bits a] then [get_bits b]
    return [hi] and [lo] such that [get_bits (a + b)] returns
    [hi * 2^b + lo], and both ways leave the same bits to be read. *)
Theorem get_bits_twice (r : BitReader) (a b : Z) :
  wf r -> 0 <= a -> 0 <= b -> a + b <= 57 -> a + b <= bits_left r ->
  exists hi lo r1 r2 r12,
    get_bits a r = Ok (hi, r1) /\ get_bits b r1 = Ok (lo, r2) /\
    get_bits (a + b) r = Ok (hi * 2 ^ b + lo, r12) /\
    stream r12 = stream r2.
Proof.
  intros Hwf Ha Hb Hsum Hleft.
  destruct (get_bits_ok a r Hwf) as (r1 & E1 & Hwf1 & Hs1 & _ & Hb1);
    [lia|lia|].
  destruct (get_bits_ok b r1 Hwf1) as (r2 & E2 & Hwf2 & Hs2 & _);
    [lia|lia|].
  destruct (get_bits_ok (a + b) r Hwf) as (r12 & E12 & _ & Hs12 & _);
    [lia|lia|].
  do 2 eexists. exists r1, r2, r12.
  split; [exact E1|]. split; [exact E2|]. split.
  - rewrite E12. do 2 f_equal.
    rewrite Z2Nat.inj_add, firstn_add, bits_val_app, <- Hs1 by lia.
    f_equal. f_equal. f_equal.
    pose proof (length_stream r1 Hwf1) as Hl. unfold len in Hl.
    rewrite length_firstn. lia.
  - rewrite Hs12, Hs2, Hs1, skipn_skipn. f_equal. lia.
Qed.

Lemma get_bits_twice_witness :
  wf reader_mid_byte /\ 0 <= 2 /\ 0 <= 5 /\ 2 + 5 <= 57 /\
  2 + 5 <= bits_left reader_mid_byte /\
  exists hi lo r1 r2 r12,
    get_bits 2 reader_mid_byte = Ok (hi, r1) /\
    get_bits 5 r1 = Ok (lo, r2) /\
    get_bits (2 + 5) reader_mid_byte = Ok (hi * 2 ^ 5 + lo, r12) /\
    stream r12 = stream r2.
Proof.
  assert (Hleft : 2 + 5 <= bits_left reader_mid_byte)
    by (vm_compute; discriminate).
  split; [reflexivity|]. do 3 (split; [lia|]). split; [exact Hleft|].
  apply (get_bits_twice reader_mid_byte 2 5); [reflexivity|lia|lia|lia|].
  exact Hleft.
Defined.
